(** * Bread networks (networks.py): shapes, errors and values of the forward passes

    Tensors are four-dimensional (batch, channel, height, width).  Every
    framework operation used by networks.py is modelled as a shape check
    (the checks the framework performs before computing, failing with an
    error) followed by the value it computes, over the real numbers.
    Modules are records holding their sub-modules and weights; the
    constructors [__init__] are modelled as predicates [X_init] saying which
    configuration (channel counts, kernel sizes, layer kinds) the
    constructor gives a module, the weights themselves being arbitrary
    (randomly initialised or learned). *)

From Stdlib Require Import List Arith Lia ZArith Reals Lra Psatz FunctionalExtensionality.
Import ListNotations.

Open Scope nat_scope.
Open Scope bool_scope.

(** ** Errors raised by the framework, and the result monad *)

Inductive error :=
| ConvWeightDim0           (* "expected weight to be at least 1 at dimension 0" *)
| ConvInChannels           (* input channels differ from the declared ones *)
| ConvKernelTooLarge       (* "Kernel size can't be greater than actual input size" *)
| PoolEmptyInput           (* max_pool2d: "Expected 3D or 4D (batch mode) tensor with
                              optional 0 dim batch size for input" *)
| PoolOutputTooSmall       (* max_pool2d: "Output size is too small" *)
| UpsampleEmpty            (* "Input and output sizes should be greater than 0" *)
| UpsampleNoChannels       (* upsample_bilinear2d: "Non-empty 4D data tensor expected" *)
| ConvEmptyInput           (* conv_transpose2d: "Only zero batch or zero channel inputs
                              are supported" *)
| BatchNormChannels        (* running_mean has the wrong number of elements *)
| BatchNormSingleValue     (* "Expected more than 1 value per channel when training" *)
| PadNegativeOutput        (* F.pad: a crop longer than the dimension *)
| CatSizeMismatch          (* torch.cat: sizes must match except in dimension 1 *)
| BroadcastMismatch.       (* x * y: shapes are not broadcastable *)

Inductive result (A : Type) : Type :=
| Ok (a : A)
| Err (e : error).
Arguments Ok {A} a.
Arguments Err {A} e.

Definition bind {A B : Type} (m : result A) (k : A -> result B) : result B :=
  match m with
  | Ok a => k a
  | Err e => Err e
  end.

Definition rmap {A B : Type} (f : A -> B) (m : result A) : result B :=
  match m with
  | Ok a => Ok (f a)
  | Err e => Err e
  end.

Notation "x <- m ;; k" := (bind m (fun x => k))
  (at level 61, m at next level, right associativity).

Definition is_ok {A : Type} (m : result A) : bool :=
  match m with Ok _ => true | Err _ => false end.

(** ** Shapes and tensors *)

Record shape := mkShape { sN : nat; sC : nat; sH : nat; sW : nat }.

Record tensor := mkTensor {
  tshape : shape;
  tval : nat -> nat -> nat -> nat -> R   (* batch, channel, row, column *)
}.

Definition rshape (r : result tensor) : result shape := rmap tshape r.

(** An operation computes its output shape (or fails), then its values. *)
Definition lift (s : result shape) (v : nat -> nat -> nat -> nat -> R) : result tensor :=
  rmap (fun s' => mkTensor s' v) s.

(** Finite sums over [0 .. n-1]. *)
Fixpoint rsum (n : nat) (f : nat -> R) : R :=
  match n with
  | O => 0%R
  | S k => (rsum k f + f k)%R
  end.

(** ** Elementwise activations *)

Definition sigmoid (r : R) : R := / (1 + exp (- r)).
Definition relu (r : R) : R := Rmax 0 r.
Definition leaky_relu (slope r : R) : R :=
  if Rlt_dec 0 r then r else (slope * r)%R.

Definition tmap (f : R -> R) (x : tensor) : tensor :=
  mkTensor (tshape x) (fun n c i j => f (tval x n c i j)).

(** ** Framework operations *)

(** [nn.Conv2d(in, out, k, padding=p)], stride 1, one group. *)
Record Conv2d := mkConv2d {
  cv_in : nat;
  cv_out : nat;
  cv_k : nat;
  cv_pad : nat;
  cv_weight : nat -> nat -> nat -> nat -> R;   (* out, in, row, column *)
  cv_bias : nat -> R
}.

Definition conv_cfg (c : Conv2d) : nat * nat * nat * nat :=
  (cv_in c, cv_out c, cv_k c, cv_pad c).

Definition conv2d_shape (c : Conv2d) (s : shape) : result shape :=
  if cv_out c =? 0 then Err ConvWeightDim0
  else if negb (sC s =? cv_in c) then Err ConvInChannels
  else if (sH s + 2 * cv_pad c <? cv_k c) || (sW s + 2 * cv_pad c <? cv_k c)
  then Err ConvKernelTooLarge
  else Ok (mkShape (sN s) (cv_out c)
                   (sH s + 2 * cv_pad c - cv_k c + 1)
                   (sW s + 2 * cv_pad c - cv_k c + 1)).

(** Zero padding of [p] on every side. *)
Definition padded (x : tensor) (p n c a b : nat) : R :=
  if (p <=? a) && (a <? sH (tshape x) + p) && (p <=? b) && (b <? sW (tshape x) + p)
  then tval x n c (a - p) (b - p) else 0%R.

Definition conv2d_val (c : Conv2d) (x : tensor) n o i j : R :=
  (cv_bias c o +
   rsum (cv_in c) (fun ch =>
     rsum (cv_k c) (fun di =>
       rsum (cv_k c) (fun dj =>
         cv_weight c o ch di dj * padded x (cv_pad c) n ch (i + di) (j + dj)))))%R.

Definition conv2d (c : Conv2d) (x : tensor) : result tensor :=
  lift (conv2d_shape c (tshape x)) (conv2d_val c x).

(** [nn.BatchNorm2d(C)]; eps = 1e-5.  In training mode the batch statistics
    are used (the update of the running statistics is not modelled), in
    evaluation mode the running statistics. *)
Record BatchNorm2d := mkBatchNorm2d {
  bn_features : nat;
  bn_weight : nat -> R;
  bn_bias : nat -> R;
  bn_running_mean : nat -> R;
  bn_running_var : nat -> R
}.

Definition bn_eps : R := / 100000.

Definition batch_norm_shape (training : bool) (b : BatchNorm2d) (s : shape) : result shape :=
  if training && (sN s * sH s * sW s =? 1) then Err BatchNormSingleValue
  else if negb (sC s =? bn_features b) then Err BatchNormChannels
  else Ok s.

Definition batch_mean (x : tensor) (c : nat) : R :=
  let s := tshape x in
  (rsum (sN s) (fun n => rsum (sH s) (fun i => rsum (sW s) (fun j => tval x n c i j)))
   / INR (sN s * sH s * sW s))%R.

Definition batch_var (x : tensor) (c : nat) : R :=
  let s := tshape x in
  (rsum (sN s) (fun n => rsum (sH s) (fun i => rsum (sW s) (fun j =>
     (tval x n c i j - batch_mean x c) ^ 2)))
   / INR (sN s * sH s * sW s))%R.

Definition batch_norm_val (training : bool) (b : BatchNorm2d) (x : tensor) n c i j : R :=
  let mean := if training then batch_mean x c else bn_running_mean b c in
  let var := if training then batch_var x c else bn_running_var b c in
  ((tval x n c i j - mean) / sqrt (var + bn_eps) * bn_weight b c + bn_bias b c)%R.

Definition batch_norm (training : bool) (b : BatchNorm2d) (x : tensor) : result tensor :=
  lift (batch_norm_shape training b (tshape x)) (batch_norm_val training b x).

(** [nn.MaxPool2d(2)]: window 2, stride 2, no padding.  The input check of
    max_pool2d asks for non-zero channel, row and column sizes (only the batch
    may be empty), then the output size is checked. *)
Definition max_pool2_shape (s : shape) : result shape :=
  if (sC s =? 0) || (sH s =? 0) || (sW s =? 0) then Err PoolEmptyInput
  else if (sH s <? 2) || (sW s <? 2) then Err PoolOutputTooSmall
  else Ok (mkShape (sN s) (sC s) (sH s / 2) (sW s / 2)).

Definition max_pool2 (x : tensor) : result tensor :=
  lift (max_pool2_shape (tshape x))
    (fun n c i j =>
       Rmax (Rmax (tval x n c (2 * i) (2 * j)) (tval x n c (2 * i) (2 * j + 1)))
            (Rmax (tval x n c (2 * i + 1) (2 * j)) (tval x n c (2 * i + 1) (2 * j + 1)))).

(** [nn.AdaptiveAvgPool2d(1)].  An output size of 1 is computed as a mean
    over the rows and columns, which checks nothing; on an empty row or column
    dimension the mean is not a number, but then the input has no element and
    neither has anything it is multiplied with in [CALayer]. *)
Definition adaptive_avg_pool1_shape (s : shape) : result shape :=
  Ok (mkShape (sN s) (sC s) 1 1).

Definition adaptive_avg_pool1 (x : tensor) : result tensor :=
  let s := tshape x in
  lift (adaptive_avg_pool1_shape s)
    (fun n c _ _ =>
       (rsum (sH s) (fun i => rsum (sW s) (fun j => tval x n c i j))
        / INR (sH s * sW s))%R).

(** [nn.Upsample(scale_factor=2, mode='bilinear', align_corners=True)].
    Output index [i] reads source position [i * (in - 1) / (out - 1)]:
    its integer part and its fraction. *)
Definition source_index (insz outsz i : nat) : nat * R :=
  if outsz <=? 1 then (0, 0%R)
  else ((i * (insz - 1)) / (outsz - 1),
        (INR ((i * (insz - 1)) mod (outsz - 1)) / INR (outsz - 1))%R).

Definition upsample2_shape (s : shape) : result shape :=
  if (sH s =? 0) || (sW s =? 0) then Err UpsampleEmpty
  else if sC s =? 0 then Err UpsampleNoChannels
  else Ok (mkShape (sN s) (sC s) (2 * sH s) (2 * sW s)).

Definition upsample2_val (x : tensor) n c i j : R :=
  let H := sH (tshape x) in
  let W := sW (tshape x) in
  let (i0, li) := source_index H (2 * H) i in
  let (j0, lj) := source_index W (2 * W) j in
  let i1 := if i0 <? H - 1 then i0 + 1 else i0 in
  let j1 := if j0 <? W - 1 then j0 + 1 else j0 in
  ((1 - li) * ((1 - lj) * tval x n c i0 j0 + lj * tval x n c i0 j1)
   + li * ((1 - lj) * tval x n c i1 j0 + lj * tval x n c i1 j1))%R.

Definition upsample2 (x : tensor) : result tensor :=
  lift (upsample2_shape (tshape x)) (upsample2_val x).

(** [nn.ConvTranspose2d(in, out, kernel_size=2, stride=2)]. *)
Record ConvTranspose2d := mkConvTranspose2d {
  ct_in : nat;
  ct_out : nat;
  ct_weight : nat -> nat -> nat -> nat -> R;   (* in, out, row, column *)
  ct_bias : nat -> R
}.

Definition conv_transpose2_shape (c : ConvTranspose2d) (s : shape) : result shape :=
  if ct_in c =? 0 then Err ConvWeightDim0
  else if negb (sC s =? ct_in c) then Err ConvInChannels
  else if negb (sN s =? 0) && negb (sC s =? 0) && ((sH s =? 0) || (sW s =? 0))
  then Err ConvEmptyInput
  else Ok (mkShape (sN s) (ct_out c) (2 * sH s) (2 * sW s)).

Definition conv_transpose2 (c : ConvTranspose2d) (x : tensor) : result tensor :=
  lift (conv_transpose2_shape c (tshape x))
    (fun n o i j =>
       (ct_bias c o +
        rsum (ct_in c) (fun ch =>
          ct_weight c ch o (i mod 2) (j mod 2) * tval x n ch (i / 2) (j / 2)))%R).

(** [F.pad(x, [left, right, top, bottom])] with zeros; negative amounts crop.
    A dimension of [size] is first narrowed by the negative amounts, front
    then back, and each narrowing needs a non-negative length; the padded size
    must be non-negative (implied by the narrowings).  An empty result is
    allowed. *)
Definition pad_narrow_ok (size before after : Z) : bool :=
  (if (before <? 0)%Z then (0 <=? size + before)%Z else true)
  && (if (after <? 0)%Z then (0 <=? size + Z.min before 0 + after)%Z else true).

Definition pad_shape (s : shape) (left right top bottom : Z) : result shape :=
  let h := (Z.of_nat (sH s) + top + bottom)%Z in
  let w := (Z.of_nat (sW s) + left + right)%Z in
  if negb (pad_narrow_ok (Z.of_nat (sH s)) top bottom
           && pad_narrow_ok (Z.of_nat (sW s)) left right)
  then Err PadNegativeOutput
  else if (h <? 0)%Z || (w <? 0)%Z then Err PadNegativeOutput
  else Ok (mkShape (sN s) (sC s) (Z.to_nat h) (Z.to_nat w)).

Definition pad_val (x : tensor) (left top : Z) n c i j : R :=
  let si := (Z.of_nat i - top)%Z in
  let sj := (Z.of_nat j - left)%Z in
  if (0 <=? si)%Z && (si <? Z.of_nat (sH (tshape x)))%Z
     && (0 <=? sj)%Z && (sj <? Z.of_nat (sW (tshape x)))%Z
  then tval x n c (Z.to_nat si) (Z.to_nat sj) else 0%R.

Definition pad (x : tensor) (left right top bottom : Z) : result tensor :=
  lift (pad_shape (tshape x) left right top bottom) (pad_val x left top).

(** [torch.cat([a, b], dim=1)]. *)
Definition cat1_shape (a b : shape) : result shape :=
  if (sN a =? sN b) && (sH a =? sH b) && (sW a =? sW b)
  then Ok (mkShape (sN a) (sC a + sC b) (sH a) (sW a))
  else Err CatSizeMismatch.

Definition cat1 (a b : tensor) : result tensor :=
  lift (cat1_shape (tshape a) (tshape b))
    (fun n c i j =>
       if c <? sC (tshape a) then tval a n c i j else tval b n (c - sC (tshape a)) i j).

(** [x * y] with broadcasting. *)
Definition bdim (a b : nat) : option nat :=
  if a =? b then Some a
  else if a =? 1 then Some b
  else if b =? 1 then Some a
  else None.

Definition bidx (d k : nat) : nat := if d =? 1 then 0 else k.

Definition mul_shape (a b : shape) : result shape :=
  match bdim (sN a) (sN b), bdim (sC a) (sC b), bdim (sH a) (sH b), bdim (sW a) (sW b) with
  | Some n, Some c, Some h, Some w => Ok (mkShape n c h w)
  | _, _, _, _ => Err BroadcastMismatch
  end.

Definition bval (x : tensor) n c i j : R :=
  let s := tshape x in
  tval x (bidx (sN s) n) (bidx (sC s) c) (bidx (sH s) i) (bidx (sW s) j).

Definition mul (x y : tensor) : result tensor :=
  lift (mul_shape (tshape x) (tshape y))
    (fun n c i j => (bval x n c i j * bval y n c i j)%R).

(** ** Modules of networks.py *)

(** The leaf layers that occur inside the [nn.Sequential] containers. *)
Inductive layer :=
| LConv2d (c : Conv2d)
| LBatchNorm2d (b : BatchNorm2d)
| LIdentity
| LReLU
| LLeakyReLU (slope : R)
| LSigmoid.

(** [PALayer.pa = Sequential(Conv2d, ReLU, Conv2d, Sigmoid)] *)
Record PALayer := mkPALayer { pa : list layer }.

(** [CALayer.avg_pool = AdaptiveAvgPool2d(1)] (no parameters) and
    [CALayer.ca = Sequential(Conv2d, ReLU, Conv2d, Sigmoid)] *)
Record CALayer := mkCALayer { ca : list layer }.

(** [DoubleConv.conv = Sequential(Conv2d, BatchNorm2d|Identity, LeakyReLU|ReLU,
    Conv2d, BatchNorm2d|Identity, LeakyReLU|ReLU)] *)
Record DoubleConv := mkDoubleConv { dc_conv : list layer }.

(** [OutConv.conv = Sequential(Conv2d, Sigmoid|Identity)] *)
Record OutConv := mkOutConv { oc_conv : list layer }.

(** [Down.maxpool_conv = Sequential(MaxPool2d(2), DoubleConv)] *)
Record Down := mkDown { maxpool_conv : DoubleConv }.

(** [Up.up]: [nn.Upsample] when bilinear, [nn.ConvTranspose2d] otherwise. *)
Inductive upsampler :=
| UpBilinear
| UpConvTranspose (c : ConvTranspose2d).

Record Up := mkUp { up_up : upsampler; up_conv : DoubleConv }.

(** The members of the [attention] Sequentials. *)
Inductive attention_layer :=
| ACALayer (m : CALayer)
| APALayer (m : PALayer).

Record AttentiveDown := mkAttentiveDown {
  ad_down : Down; ad_attention : list attention_layer }.
Record AttentiveUp := mkAttentiveUp {
  au_up : Up; au_attention : list attention_layer }.
Record AttentiveDoubleConv := mkAttentiveDoubleConv {
  adc_conv : DoubleConv; adc_attention : list attention_layer }.

Record BaseNet := mkBaseNet {
  inc : DoubleConv;
  down1 : Down; down2 : Down; down3 : Down;
  up1 : Up; up2 : Up; up3 : Up;
  outc : OutConv
}.

Record FuseNet := mkFuseNet {
  f_inc : AttentiveDoubleConv;
  f_down1 : AttentiveDown; f_down2 : AttentiveDown;
  f_up1 : AttentiveUp; f_up2 : AttentiveUp;
  f_outc : OutConv
}.

(** [nn.Sequential]: the members applied in order. *)
Fixpoint sequential {A : Type} (f : A -> tensor -> result tensor)
         (ms : list A) (x : tensor) : result tensor :=
  match ms with
  | [] => Ok x
  | m :: ms' => y <- f m x ;; sequential f ms' y
  end.

Fixpoint sequential_shape {A : Type} (f : A -> shape -> result shape)
         (ms : list A) (s : shape) : result shape :=
  match ms with
  | [] => Ok s
  | m :: ms' => s' <- f m s ;; sequential_shape f ms' s'
  end.

(** The [training] flag of the modules (set by [.train()] / [.eval()]); only
    [BatchNorm2d] reads it. *)
Section Forward.
Variable training : bool.

Definition layer_forward (l : layer) (x : tensor) : result tensor :=
  match l with
  | LConv2d c => conv2d c x
  | LBatchNorm2d b => batch_norm training b x
  | LIdentity => Ok x
  | LReLU => Ok (tmap relu x)
  | LLeakyReLU slope => Ok (tmap (leaky_relu slope) x)
  | LSigmoid => Ok (tmap sigmoid x)
  end.

Definition PALayer_forward (m : PALayer) (x : tensor) : result tensor :=
  y <- sequential layer_forward (pa m) x ;;
  mul x y.

Definition CALayer_forward (m : CALayer) (x : tensor) : result tensor :=
  y <- adaptive_avg_pool1 x ;;
  y <- sequential layer_forward (ca m) y ;;
  mul x y.

Definition DoubleConv_forward (m : DoubleConv) (x : tensor) : result tensor :=
  sequential layer_forward (dc_conv m) x.

Definition OutConv_forward (m : OutConv) (x : tensor) : result tensor :=
  sequential layer_forward (oc_conv m) x.

Definition Down_forward (m : Down) (x : tensor) : result tensor :=
  y <- max_pool2 x ;;
  DoubleConv_forward (maxpool_conv m) y.

Definition upsampler_forward (u : upsampler) (x : tensor) : result tensor :=
  match u with
  | UpBilinear => upsample2 x
  | UpConvTranspose c => conv_transpose2 c x
  end.

(** [diffY // 2] is Python's floor division, [Z.div]. *)
Definition Up_forward (m : Up) (x1 x2 : tensor) : result tensor :=
  x1 <- upsampler_forward (up_up m) x1 ;;
  let diffY := (Z.of_nat (sH (tshape x2)) - Z.of_nat (sH (tshape x1)))%Z in
  let diffX := (Z.of_nat (sW (tshape x2)) - Z.of_nat (sW (tshape x1)))%Z in
  x1 <- pad x1 (diffX / 2) (diffX - diffX / 2) (diffY / 2) (diffY - diffY / 2) ;;
  x <- cat1 x2 x1 ;;
  DoubleConv_forward (up_conv m) x.

Definition attention_forward (a : attention_layer) (x : tensor) : result tensor :=
  match a with
  | ACALayer m => CALayer_forward m x
  | APALayer m => PALayer_forward m x
  end.

Definition AttentiveDown_forward (m : AttentiveDown) (x : tensor) : result tensor :=
  y <- Down_forward (ad_down m) x ;;
  sequential attention_forward (ad_attention m) y.

Definition AttentiveUp_forward (m : AttentiveUp) (x1 x2 : tensor) : result tensor :=
  y <- Up_forward (au_up m) x1 x2 ;;
  sequential attention_forward (au_attention m) y.

Definition AttentiveDoubleConv_forward (m : AttentiveDoubleConv) (x : tensor) : result tensor :=
  y <- DoubleConv_forward (adc_conv m) x ;;
  sequential attention_forward (adc_attention m) y.

Definition BaseNet_forward (net : BaseNet) (x : tensor) : result tensor :=
  x1 <- DoubleConv_forward (inc net) x ;;
  x2 <- Down_forward (down1 net) x1 ;;
  x3 <- Down_forward (down2 net) x2 ;;
  x4 <- Down_forward (down3 net) x3 ;;
  x <- Up_forward (up1 net) x4 x3 ;;
  x <- Up_forward (up2 net) x x2 ;;
  x <- Up_forward (up3 net) x x1 ;;
  OutConv_forward (outc net) x.

Definition FuseNet_forward (net : FuseNet) (x : tensor) : result tensor :=
  x1 <- AttentiveDoubleConv_forward (f_inc net) x ;;
  x2 <- AttentiveDown_forward (f_down1 net) x1 ;;
  x3 <- AttentiveDown_forward (f_down2 net) x2 ;;
  x <- AttentiveUp_forward (f_up1 net) x3 x2 ;;
  x <- AttentiveUp_forward (f_up2 net) x x1 ;;
  OutConv_forward (f_outc net) x.

End Forward.

(** ** The shapes computed by the forward passes *)

Section Shapes.
Variable training : bool.

Definition layer_shape (l : layer) (s : shape) : result shape :=
  match l with
  | LConv2d c => conv2d_shape c s
  | LBatchNorm2d b => batch_norm_shape training b s
  | _ => Ok s
  end.

Definition PALayer_shape (m : PALayer) (s : shape) : result shape :=
  g <- sequential_shape layer_shape (pa m) s ;;
  mul_shape s g.

Definition CALayer_shape (m : CALayer) (s : shape) : result shape :=
  p <- adaptive_avg_pool1_shape s ;;
  g <- sequential_shape layer_shape (ca m) p ;;
  mul_shape s g.

Definition DoubleConv_shape (m : DoubleConv) (s : shape) : result shape :=
  sequential_shape layer_shape (dc_conv m) s.

Definition OutConv_shape (m : OutConv) (s : shape) : result shape :=
  sequential_shape layer_shape (oc_conv m) s.

Definition Down_shape (m : Down) (s : shape) : result shape :=
  p <- max_pool2_shape s ;;
  DoubleConv_shape (maxpool_conv m) p.

Definition upsampler_shape (u : upsampler) (s : shape) : result shape :=
  match u with
  | UpBilinear => upsample2_shape s
  | UpConvTranspose c => conv_transpose2_shape c s
  end.

Definition Up_shape (m : Up) (s1 s2 : shape) : result shape :=
  s1 <- upsampler_shape (up_up m) s1 ;;
  let diffY := (Z.of_nat (sH s2) - Z.of_nat (sH s1))%Z in
  let diffX := (Z.of_nat (sW s2) - Z.of_nat (sW s1))%Z in
  s1 <- pad_shape s1 (diffX / 2) (diffX - diffX / 2) (diffY / 2) (diffY - diffY / 2) ;;
  s <- cat1_shape s2 s1 ;;
  DoubleConv_shape (up_conv m) s.

Definition attention_shape (a : attention_layer) (s : shape) : result shape :=
  match a with
  | ACALayer m => CALayer_shape m s
  | APALayer m => PALayer_shape m s
  end.

Definition AttentiveDown_shape (m : AttentiveDown) (s : shape) : result shape :=
  s <- Down_shape (ad_down m) s ;;
  sequential_shape attention_shape (ad_attention m) s.

Definition AttentiveUp_shape (m : AttentiveUp) (s1 s2 : shape) : result shape :=
  s <- Up_shape (au_up m) s1 s2 ;;
  sequential_shape attention_shape (au_attention m) s.

Definition AttentiveDoubleConv_shape (m : AttentiveDoubleConv) (s : shape) : result shape :=
  s <- DoubleConv_shape (adc_conv m) s ;;
  sequential_shape attention_shape (adc_attention m) s.

Definition BaseNet_shape (net : BaseNet) (s : shape) : result shape :=
  s1 <- DoubleConv_shape (inc net) s ;;
  s2 <- Down_shape (down1 net) s1 ;;
  s3 <- Down_shape (down2 net) s2 ;;
  s4 <- Down_shape (down3 net) s3 ;;
  s <- Up_shape (up1 net) s4 s3 ;;
  s <- Up_shape (up2 net) s s2 ;;
  s <- Up_shape (up3 net) s s1 ;;
  OutConv_shape (outc net) s.

Definition FuseNet_shape (net : FuseNet) (s : shape) : result shape :=
  s1 <- AttentiveDoubleConv_shape (f_inc net) s ;;
  s2 <- AttentiveDown_shape (f_down1 net) s1 ;;
  s3 <- AttentiveDown_shape (f_down2 net) s2 ;;
  s <- AttentiveUp_shape (f_up1 net) s3 s2 ;;
  s <- AttentiveUp_shape (f_up2 net) s s1 ;;
  OutConv_shape (f_outc net) s.

End Shapes.

(** ** What the constructors build *)

Definition conv_decl (cin cout k p : nat) (l : layer) : Prop :=
  exists c, l = LConv2d c /\ conv_cfg c = (cin, cout, k, p).

(** [BatchNorm2d(C) if norm else Identity()] *)
Definition norm_decl (norm : bool) (C : nat) (l : layer) : Prop :=
  if norm then exists b, l = LBatchNorm2d b /\ bn_features b = C
  else l = LIdentity.

(** [LeakyReLU(0.2) if leaky else ReLU()] *)
Definition act_of (leaky : bool) : layer :=
  if leaky then LLeakyReLU (2 / 10) else LReLU.

(** [PALayer(channel)] *)
Definition PALayer_init (channel : nat) (m : PALayer) : Prop :=
  exists l1 l3, pa m = [l1; LReLU; l3; LSigmoid]
    /\ conv_decl channel (channel / 8) 1 0 l1
    /\ conv_decl (channel / 8) 1 1 0 l3.

(** [CALayer(channel)] *)
Definition CALayer_init (channel : nat) (m : CALayer) : Prop :=
  exists l1 l3, ca m = [l1; LReLU; l3; LSigmoid]
    /\ conv_decl channel (channel / 8) 1 0 l1
    /\ conv_decl (channel / 8) channel 1 0 l3.

(** [DoubleConv(in_channels, out_channels, norm, leaky)] *)
Definition DoubleConv_init (cin cout : nat) (norm leaky : bool) (m : DoubleConv) : Prop :=
  exists l1 n1 l4 n2,
    dc_conv m = [l1; n1; act_of leaky; l4; n2; act_of leaky]
    /\ conv_decl cin cout 3 1 l1 /\ norm_decl norm cout n1
    /\ conv_decl cout cout 3 1 l4 /\ norm_decl norm cout n2.

(** [OutConv(in_channels, out_channels, act)] *)
Definition OutConv_init (cin cout : nat) (act : bool) (m : OutConv) : Prop :=
  exists l1, oc_conv m = [l1; if act then LSigmoid else LIdentity]
    /\ conv_decl cin cout 3 1 l1.

(** [Down(in_channels, out_channels, norm, leaky)] *)
Definition Down_init (cin cout : nat) (norm leaky : bool) (m : Down) : Prop :=
  DoubleConv_init cin cout norm leaky (maxpool_conv m).

(** [Up(in_channels, out_channels, bilinear, norm, leaky)] *)
Definition Up_init (cin cout : nat) (bilinear norm leaky : bool) (m : Up) : Prop :=
  (if bilinear then up_up m = UpBilinear
   else exists c, up_up m = UpConvTranspose c /\ ct_in c = cin /\ ct_out c = cin / 2)
  /\ DoubleConv_init cin cout norm leaky (up_conv m).

(** [Sequential(CALayer(out_channels), PALayer(out_channels))] *)
Definition attention_init (cout : nat) (ms : list attention_layer) : Prop :=
  exists c p, ms = [ACALayer c; APALayer p] /\ CALayer_init cout c /\ PALayer_init cout p.

Definition AttentiveDown_init (cin cout : nat) (norm leaky : bool) (m : AttentiveDown) : Prop :=
  Down_init cin cout norm leaky (ad_down m) /\ attention_init cout (ad_attention m).

Definition AttentiveUp_init (cin cout : nat) (bilinear norm leaky : bool) (m : AttentiveUp) : Prop :=
  Up_init cin cout bilinear norm leaky (au_up m) /\ attention_init cout (au_attention m).

Definition AttentiveDoubleConv_init (cin cout : nat) (norm leaky : bool)
           (m : AttentiveDoubleConv) : Prop :=
  DoubleConv_init cin cout norm leaky (adc_conv m) /\ attention_init cout (adc_attention m).

(** The layers [BaseNet.__init__] creates before [outc]. *)
Definition BaseNet_body_init (cin : nat) (norm : bool) (net : BaseNet) : Prop :=
  DoubleConv_init cin 32 norm true (inc net)
  /\ Down_init 32 64 norm true (down1 net)
  /\ Down_init 64 128 norm true (down2 net)
  /\ Down_init 128 128 norm true (down3 net)
  /\ Up_init 256 64 true norm true (up1 net)
  /\ Up_init 128 32 true norm true (up2 net)
  /\ Up_init 64 32 true norm true (up3 net).

(** [BaseNet(in_channels, out_channels, norm)]; [IAN] is the same. *)
Definition BaseNet_init (cin cout : nat) (norm : bool) (net : BaseNet) : Prop :=
  BaseNet_body_init cin norm net /\ OutConv_init 32 cout true (outc net).

Definition IAN_init (cin cout : nat) (norm : bool) (net : BaseNet) : Prop :=
  BaseNet_init cin cout norm net.

(** [ANSN(in_channels, out_channels, norm)]: [outc] replaced by
    [OutConv(32, out_channels, act=False)]. *)
Definition ANSN_init (cin cout : nat) (norm : bool) (net : BaseNet) : Prop :=
  BaseNet_body_init cin norm net /\ OutConv_init 32 cout false (outc net).

(** [FuseNet(in_channels, out_channels, norm)] *)
Definition FuseNet_init (cin cout : nat) (norm : bool) (net : FuseNet) : Prop :=
  AttentiveDoubleConv_init cin 32 norm false (f_inc net)
  /\ AttentiveDown_init 32 64 norm false (f_down1 net)
  /\ AttentiveDown_init 64 64 norm false (f_down2 net)
  /\ AttentiveUp_init 128 32 true norm false (f_up1 net)
  /\ AttentiveUp_init 64 32 true norm false (f_up2 net)
  /\ OutConv_init 32 cout true (f_outc net).

(** ** Modules with every weight zero (batch norm: unit scale, running
    statistics 0 and 1), used to run the networks on concrete inputs. *)

Definition zero_conv (cin cout k p : nat) : Conv2d :=
  mkConv2d cin cout k p (fun _ _ _ _ => 0%R) (fun _ => 0%R).

Definition zero_bn (C : nat) : BatchNorm2d :=
  mkBatchNorm2d C (fun _ => 1%R) (fun _ => 0%R) (fun _ => 0%R) (fun _ => 1%R).

Definition zero_norm (norm : bool) (C : nat) : layer :=
  if norm then LBatchNorm2d (zero_bn C) else LIdentity.

Definition zero_PALayer (channel : nat) : PALayer :=
  mkPALayer [LConv2d (zero_conv channel (channel / 8) 1 0); LReLU;
             LConv2d (zero_conv (channel / 8) 1 1 0); LSigmoid].

Definition zero_CALayer (channel : nat) : CALayer :=
  mkCALayer [LConv2d (zero_conv channel (channel / 8) 1 0); LReLU;
             LConv2d (zero_conv (channel / 8) channel 1 0); LSigmoid].

Definition zero_DoubleConv (cin cout : nat) (norm leaky : bool) : DoubleConv :=
  mkDoubleConv [LConv2d (zero_conv cin cout 3 1); zero_norm norm cout; act_of leaky;
                LConv2d (zero_conv cout cout 3 1); zero_norm norm cout; act_of leaky].

Definition zero_OutConv (cin cout : nat) (act : bool) : OutConv :=
  mkOutConv [LConv2d (zero_conv cin cout 3 1); if act then LSigmoid else LIdentity].

Definition zero_Down (cin cout : nat) (norm leaky : bool) : Down :=
  mkDown (zero_DoubleConv cin cout norm leaky).

Definition zero_Up (cin cout : nat) (bilinear norm leaky : bool) : Up :=
  mkUp (if bilinear then UpBilinear
        else UpConvTranspose (mkConvTranspose2d cin (cin / 2)
                                (fun _ _ _ _ => 0%R) (fun _ => 0%R)))
       (zero_DoubleConv cin cout norm leaky).

Definition zero_attention (cout : nat) : list attention_layer :=
  [ACALayer (zero_CALayer cout); APALayer (zero_PALayer cout)].

Definition zero_BaseNet (cin cout : nat) (norm act : bool) : BaseNet :=
  mkBaseNet (zero_DoubleConv cin 32 norm true)
            (zero_Down 32 64 norm true) (zero_Down 64 128 norm true)
            (zero_Down 128 128 norm true)
            (zero_Up 256 64 true norm true) (zero_Up 128 32 true norm true)
            (zero_Up 64 32 true norm true)
            (zero_OutConv 32 cout act).

Definition zero_FuseNet (cin cout : nat) (norm : bool) : FuseNet :=
  mkFuseNet (mkAttentiveDoubleConv (zero_DoubleConv cin 32 norm false) (zero_attention 32))
            (mkAttentiveDown (zero_Down 32 64 norm false) (zero_attention 64))
            (mkAttentiveDown (zero_Down 64 64 norm false) (zero_attention 64))
            (mkAttentiveUp (zero_Up 128 32 true norm false) (zero_attention 32))
            (mkAttentiveUp (zero_Up 64 32 true norm false) (zero_attention 32))
            (zero_OutConv 32 cout true).

(** A constant tensor. *)
Definition const_tensor (s : shape) (r : R) : tensor := mkTensor s (fun _ _ _ _ => r).

(** Batch norm raises only in training mode, on one value per channel. *)
Definition bn_ok (training norm : bool) (N H W : nat) : Prop :=
  training = false \/ norm = false \/ N * H * W <> 1.

(** The tensor that [BaseNet.forward] hands to [self.outc]. *)
Definition BaseNet_features (training : bool) (net : BaseNet) (x : tensor) : result tensor :=
  x1 <- DoubleConv_forward training (inc net) x ;;
  x2 <- Down_forward training (down1 net) x1 ;;
  x3 <- Down_forward training (down2 net) x2 ;;
  x4 <- Down_forward training (down3 net) x3 ;;
  x <- Up_forward training (up1 net) x4 x3 ;;
  x <- Up_forward training (up2 net) x x2 ;;
  Up_forward training (up3 net) x x1.

(** Two BaseNets carry the same learned weights: the same blocks, and the
    same first layer (the convolution) in [outc]. *)
Definition same_weights (a b : BaseNet) : Prop :=
  inc a = inc b /\ down1 a = down1 b /\ down2 a = down2 b /\ down3 a = down3 b
  /\ up1 a = up1 b /\ up2 a = up2 b /\ up3 a = up3 b
  /\ hd_error (oc_conv (outc a)) = hd_error (oc_conv (outc b)).

(** Two tensors agree at sample [n]: same shape, [n] inside the batch, and
    the same values at batch index [n]. *)
Definition agree (n : nat) (x x' : tensor) : Prop :=
  tshape x = tshape x' /\ n < sN (tshape x) /\ tval x n = tval x' n.

(** Two results agree at sample [n]: both fail with the same error, or both
    return tensors that agree at [n]. *)
Definition ragree (n : nat) (r r' : result tensor) : Prop :=
  match r, r' with
  | Ok y, Ok y' => agree n y y'
  | Err e, Err e' => e = e'
  | _, _ => False
  end.

(** A layer that reads no batch statistics: anything but a batch norm in
    training mode. *)
Definition no_batch_stats (training : bool) (l : layer) : Prop :=
  training = false \/ forall b, l <> LBatchNorm2d b.

(** A value in range, of a tensor of shape [s]. *)
Definition in_range (s : shape) (n c i j : nat) : Prop :=
  n < sN s /\ c < sC s /\ i < sH s /\ j < sW s.

(** A shape computation from [s] that does not fail in a concatenation and
    that keeps the batch size of [s] when it succeeds. *)
Definition no_cat_same_batch (r : result shape) (s : shape) : Prop :=
  r <> Err CatSizeMismatch /\ forall s', r = Ok s' -> sN s' = sN s.

(** * Lemmas *)

Ltac div2_facts :=
  repeat match goal with
  | |- context [?a / 2] =>
      let q := fresh "q" in
      pose proof (Nat.div_mod_eq a 2); pose proof (Nat.mod_upper_bound a 2 ltac:(lia));
      set (q := a / 2) in *; clearbody q
  | _ : context [?a / 2] |- _ =>
      let q := fresh "q" in
      pose proof (Nat.div_mod_eq a 2); pose proof (Nat.mod_upper_bound a 2 ltac:(lia));
      set (q := a / 2) in *; clearbody q
  end.

(** ** The forward passes compute the shapes of the shape functions *)

Lemma rshape_lift s v : rshape (lift s v) = s.
Proof. destruct s; reflexivity. Qed.

Lemma rshape_bind (m : result tensor) (k : tensor -> result tensor)
      (ks : shape -> result shape) :
  (forall y, rshape (k y) = ks (tshape y)) ->
  rshape (bind m k) = bind (rshape m) ks.
Proof. intros Hk; destruct m; simpl; auto. Qed.

Lemma sequential_rshape {A} (f : A -> tensor -> result tensor) fs
      (Hf : forall a x, rshape (f a x) = fs a (tshape x)) ms x :
  rshape (sequential f ms x) = sequential_shape fs ms (tshape x).
Proof.
  revert x; induction ms as [|m ms IH]; intros x; simpl; [reflexivity|].
  rewrite (rshape_bind _ _ (sequential_shape fs ms)) by exact IH.
  rewrite Hf; reflexivity.
Qed.

Lemma rshape_bind_eq (m : result tensor) (s : result shape)
      (k : tensor -> result tensor) (ks : shape -> result shape) :
  rshape m = s ->
  (forall y, rshape (k y) = ks (tshape y)) ->
  rshape (bind m k) = bind s ks.
Proof. intros <- Hk; destruct m; simpl; auto. Qed.

Lemma layer_rshape tr l x : rshape (layer_forward tr l x) = layer_shape tr l (tshape x).
Proof. destruct l; try reflexivity; apply rshape_lift. Qed.

Lemma seq_layer_rshape tr ms x :
  rshape (sequential (layer_forward tr) ms x) = sequential_shape (layer_shape tr) ms (tshape x).
Proof. apply sequential_rshape, layer_rshape. Qed.

Ltac rshape_tac :=
  repeat first
    [ reflexivity
    | progress cbv beta zeta
    | apply rshape_lift
    | apply seq_layer_rshape
    | apply rshape_bind_eq; [ | intro ] ].

Lemma PALayer_rshape tr m x :
  rshape (PALayer_forward tr m x) = PALayer_shape tr m (tshape x).
Proof. unfold PALayer_forward, PALayer_shape, mul; rshape_tac. Qed.

Lemma CALayer_rshape tr m x :
  rshape (CALayer_forward tr m x) = CALayer_shape tr m (tshape x).
Proof. unfold CALayer_forward, CALayer_shape, adaptive_avg_pool1, mul; rshape_tac. Qed.

Lemma DoubleConv_rshape tr m x :
  rshape (DoubleConv_forward tr m x) = DoubleConv_shape tr m (tshape x).
Proof. apply seq_layer_rshape. Qed.

Lemma OutConv_rshape tr m x :
  rshape (OutConv_forward tr m x) = OutConv_shape tr m (tshape x).
Proof. apply seq_layer_rshape. Qed.

Lemma Down_rshape tr m x :
  rshape (Down_forward tr m x) = Down_shape tr m (tshape x).
Proof. unfold Down_forward, Down_shape, max_pool2; rshape_tac. Qed.

Lemma upsampler_rshape u x :
  rshape (upsampler_forward u x) = upsampler_shape u (tshape x).
Proof. destruct u; apply rshape_lift. Qed.

Lemma Up_rshape tr m x1 x2 :
  rshape (Up_forward tr m x1 x2) = Up_shape tr m (tshape x1) (tshape x2).
Proof.
  unfold Up_forward, Up_shape, pad, cat1.
  apply rshape_bind_eq; [apply upsampler_rshape | intro y]. rshape_tac.
Qed.

Lemma attention_rshape tr a x :
  rshape (attention_forward tr a x) = attention_shape tr a (tshape x).
Proof. destruct a; [apply CALayer_rshape | apply PALayer_rshape]. Qed.

Lemma seq_attention_rshape tr ms x :
  rshape (sequential (attention_forward tr) ms x)
  = sequential_shape (attention_shape tr) ms (tshape x).
Proof. apply sequential_rshape, attention_rshape. Qed.

Lemma AttentiveDown_rshape tr m x :
  rshape (AttentiveDown_forward tr m x) = AttentiveDown_shape tr m (tshape x).
Proof.
  apply rshape_bind_eq; [apply Down_rshape | intro y; apply seq_attention_rshape].
Qed.

Lemma AttentiveUp_rshape tr m x1 x2 :
  rshape (AttentiveUp_forward tr m x1 x2) = AttentiveUp_shape tr m (tshape x1) (tshape x2).
Proof.
  apply rshape_bind_eq; [apply Up_rshape | intro y; apply seq_attention_rshape].
Qed.

Lemma AttentiveDoubleConv_rshape tr m x :
  rshape (AttentiveDoubleConv_forward tr m x) = AttentiveDoubleConv_shape tr m (tshape x).
Proof.
  apply rshape_bind_eq; [apply DoubleConv_rshape | intro y; apply seq_attention_rshape].
Qed.

Lemma BaseNet_rshape tr net x :
  rshape (BaseNet_forward tr net x) = BaseNet_shape tr net (tshape x).
Proof.
  unfold BaseNet_forward, BaseNet_shape.
  apply rshape_bind_eq; [apply DoubleConv_rshape | intro x1].
  apply rshape_bind_eq; [apply Down_rshape | intro x2].
  apply rshape_bind_eq; [apply Down_rshape | intro x3].
  apply rshape_bind_eq; [apply Down_rshape | intro x4].
  apply rshape_bind_eq; [apply Up_rshape | intro y1].
  apply rshape_bind_eq; [apply Up_rshape | intro y2].
  apply rshape_bind_eq; [apply Up_rshape | intro y3].
  apply OutConv_rshape.
Qed.

Lemma FuseNet_rshape tr net x :
  rshape (FuseNet_forward tr net x) = FuseNet_shape tr net (tshape x).
Proof.
  unfold FuseNet_forward, FuseNet_shape.
  apply rshape_bind_eq; [apply AttentiveDoubleConv_rshape | intro x1].
  apply rshape_bind_eq; [apply AttentiveDown_rshape | intro x2].
  apply rshape_bind_eq; [apply AttentiveDown_rshape | intro x3].
  apply rshape_bind_eq; [apply AttentiveUp_rshape | intro y1].
  apply rshape_bind_eq; [apply AttentiveUp_rshape | intro y2].
  apply OutConv_rshape.
Qed.

(** ** When the modules succeed, and the shapes they return *)

Lemma conv_decl_ok tr cin cout k p l N H W H' W' :
  conv_decl cin cout k p l -> 1 <= cout -> k <= H + 2 * p -> k <= W + 2 * p ->
  H' = H + 2 * p - k + 1 -> W' = W + 2 * p - k + 1 ->
  layer_shape tr l (mkShape N cin H W) = Ok (mkShape N cout H' W').
Proof.
  intros (c & -> & Hc) Hout Hh Hw -> ->; unfold conv_cfg in Hc; inversion Hc as [[Hi Ho Hk Hp]].
  simpl; unfold conv2d_shape; cbn [sN sC sH sW].
  rewrite Hi, Ho, Hk, Hp, Nat.eqb_refl.
  replace (cout =? 0) with false by (symmetry; apply Nat.eqb_neq; lia).
  replace (H + 2 * p <? k) with false by (symmetry; apply Nat.ltb_ge; lia).
  replace (W + 2 * p <? k) with false by (symmetry; apply Nat.ltb_ge; lia).
  reflexivity.
Qed.

Lemma conv3_decl_ok tr cin cout l N H W :
  conv_decl cin cout 3 1 l -> 1 <= cout -> 1 <= H -> 1 <= W ->
  layer_shape tr l (mkShape N cin H W) = Ok (mkShape N cout H W).
Proof. intros; eapply conv_decl_ok; eauto; lia. Qed.

Lemma conv1_decl_ok tr cin cout l N H W :
  conv_decl cin cout 1 0 l -> 1 <= cout -> 1 <= H -> 1 <= W ->
  layer_shape tr l (mkShape N cin H W) = Ok (mkShape N cout H W).
Proof. intros; eapply conv_decl_ok; eauto; lia. Qed.

Lemma norm_decl_ok tr norm C l N H W :
  norm_decl norm C l -> bn_ok tr norm N H W ->
  layer_shape tr l (mkShape N C H W) = Ok (mkShape N C H W).
Proof.
  intros Hl Hbn; destruct norm; simpl in Hl.
  - destruct Hl as (b & -> & Hb); simpl; unfold batch_norm_shape; cbn [sN sC sH sW].
    rewrite Hb, Nat.eqb_refl.
    destruct tr; [|reflexivity].
    destruct Hbn as [Hbn | [Hbn | Hbn]]; try discriminate.
    replace (N * H * W =? 1) with false by (symmetry; apply Nat.eqb_neq; exact Hbn).
    reflexivity.
  - subst l; reflexivity.
Qed.

Lemma act_of_ok tr leaky s : layer_shape tr (act_of leaky) s = Ok s.
Proof. destruct leaky; reflexivity. Qed.

Lemma bn_ok_mono tr norm N a b a' b' :
  bn_ok tr norm N a b -> 1 <= a <= a' -> 1 <= b <= b' -> bn_ok tr norm N a' b'.
Proof.
  unfold bn_ok; intros [H | [H | H]] Ha Hb; auto.
  right; right; intros E.
  apply Nat.eq_mul_1 in E as [E1 E2]; apply Nat.eq_mul_1 in E1 as [E0 E3].
  apply H; subst; replace a with 1 by lia; replace b with 1 by lia; reflexivity.
Qed.

Lemma DoubleConv_shape_ok tr cin cout norm leaky m N H W :
  DoubleConv_init cin cout norm leaky m -> 1 <= cout -> 1 <= H -> 1 <= W ->
  bn_ok tr norm N H W ->
  DoubleConv_shape tr m (mkShape N cin H W) = Ok (mkShape N cout H W).
Proof.
  intros (l1 & n1 & l4 & n2 & Hm & H1 & Hn1 & H4 & Hn2) Hc Hh Hw Hbn.
  unfold DoubleConv_shape; rewrite Hm; simpl.
  rewrite (conv3_decl_ok _ _ _ _ _ _ _ H1) by assumption; simpl.
  rewrite (norm_decl_ok _ _ _ _ _ _ _ Hn1 Hbn); simpl.
  rewrite act_of_ok; simpl.
  rewrite (conv3_decl_ok _ _ _ _ _ _ _ H4) by assumption; simpl.
  rewrite (norm_decl_ok _ _ _ _ _ _ _ Hn2 Hbn); simpl.
  rewrite act_of_ok; reflexivity.
Qed.

Lemma OutConv_shape_ok tr cin cout act m N H W :
  OutConv_init cin cout act m -> 1 <= cout -> 1 <= H -> 1 <= W ->
  OutConv_shape tr m (mkShape N cin H W) = Ok (mkShape N cout H W).
Proof.
  intros (l1 & Hm & H1) Hc Hh Hw.
  unfold OutConv_shape; rewrite Hm; simpl.
  rewrite (conv3_decl_ok _ _ _ _ _ _ _ H1) by assumption; simpl.
  destruct act; reflexivity.
Qed.

Lemma max_pool2_shape_ok N C H W :
  1 <= C -> 2 <= H -> 2 <= W ->
  max_pool2_shape (mkShape N C H W) = Ok (mkShape N C (H / 2) (W / 2)).
Proof.
  intros Hc Hh Hw; unfold max_pool2_shape; cbn [sN sC sH sW].
  replace (C =? 0) with false by (symmetry; apply Nat.eqb_neq; lia).
  replace (H =? 0) with false by (symmetry; apply Nat.eqb_neq; lia).
  replace (W =? 0) with false by (symmetry; apply Nat.eqb_neq; lia).
  replace (H <? 2) with false by (symmetry; apply Nat.ltb_ge; lia).
  replace (W <? 2) with false by (symmetry; apply Nat.ltb_ge; lia).
  reflexivity.
Qed.

Lemma Down_shape_ok tr cin cout norm leaky m N H W :
  Down_init cin cout norm leaky m -> 1 <= cin -> 1 <= cout -> 2 <= H -> 2 <= W ->
  bn_ok tr norm N (H / 2) (W / 2) ->
  Down_shape tr m (mkShape N cin H W) = Ok (mkShape N cout (H / 2) (W / 2)).
Proof.
  intros Hm Hi Hc Hh Hw Hbn; unfold Down_shape.
  rewrite max_pool2_shape_ok by assumption; cbn [bind].
  apply (DoubleConv_shape_ok _ _ _ _ _ _ _ _ _ Hm); auto; div2_facts; lia.
Qed.

(** Cropping [diff // 2] in front and [diff - diff // 2] behind a dimension
    of [size] never narrows it below zero when the target is non-negative. *)
Lemma pad_narrow_ok_align (size target : Z) :
  (0 <= size)%Z -> (0 <= target)%Z ->
  let d := (target - size)%Z in
  pad_narrow_ok size (d / 2) (d - d / 2) = true.
Proof.
  intros Hs Ht d; unfold pad_narrow_ok.
  pose proof (Z.div_mod d 2 ltac:(lia)) as Hd.
  pose proof (Z.mod_pos_bound d 2 ltac:(lia)) as Hr.
  set (q := (d / 2)%Z) in *; set (r := (d mod 2)%Z) in *.
  destruct (Z.ltb_spec0 q 0) as [Hq|Hq]; destruct (Z.ltb_spec0 (d - q) 0) as [Hq'|Hq'];
    rewrite ?Bool.andb_true_r, ?Bool.andb_true_l; try reflexivity;
    try (apply Bool.andb_true_iff; split); apply Z.leb_le; unfold d in *; lia.
Qed.

(** The padding of [Up.forward] brings any tensor to any given height and
    width: [diff // 2] before, [diff - diff // 2] after. *)
Lemma pad_shape_align s H W :
  let diffY := (Z.of_nat H - Z.of_nat (sH s))%Z in
  let diffX := (Z.of_nat W - Z.of_nat (sW s))%Z in
  pad_shape s (diffX / 2) (diffX - diffX / 2) (diffY / 2) (diffY - diffY / 2)
  = Ok (mkShape (sN s) (sC s) H W).
Proof.
  intros diffY diffX; unfold pad_shape, diffY, diffX.
  rewrite (pad_narrow_ok_align (Z.of_nat (sH s)) (Z.of_nat H)) by lia.
  rewrite (pad_narrow_ok_align (Z.of_nat (sW s)) (Z.of_nat W)) by lia.
  set (dY := (Z.of_nat H - Z.of_nat (sH s))%Z); set (dX := (Z.of_nat W - Z.of_nat (sW s))%Z).
  replace (Z.of_nat (sH s) + dY / 2 + (dY - dY / 2))%Z with (Z.of_nat H)
    by (unfold dY; ring).
  replace (Z.of_nat (sW s) + dX / 2 + (dX - dX / 2))%Z with (Z.of_nat W)
    by (unfold dX; ring).
  replace (Z.of_nat H <? 0)%Z with false by (symmetry; apply Z.ltb_ge; lia).
  replace (Z.of_nat W <? 0)%Z with false by (symmetry; apply Z.ltb_ge; lia).
  simpl; rewrite !Nat2Z.id; reflexivity.
Qed.

Lemma cat1_shape_ok N C1 C2 H W :
  cat1_shape (mkShape N C1 H W) (mkShape N C2 H W) = Ok (mkShape N (C1 + C2) H W).
Proof. unfold cat1_shape; cbn [sN sC sH sW]; rewrite !Nat.eqb_refl; reflexivity. Qed.

(** [Up] with bilinear upsampling: the skip tensor [x2] fixes the size. *)
Lemma Up_shape_ok tr cin cout norm leaky m N c1 c2 h w H W :
  Up_init cin cout true norm leaky m -> 1 <= cout -> 1 <= c1 ->
  1 <= h -> 1 <= w -> 1 <= H -> 1 <= W -> c2 + c1 = cin ->
  bn_ok tr norm N H W ->
  Up_shape tr m (mkShape N c1 h w) (mkShape N c2 H W) = Ok (mkShape N cout H W).
Proof.
  intros [Hup Hdc] Hc Hc1 Hh Hw HH HW Hcin Hbn; unfold Up_shape; rewrite Hup.
  unfold upsampler_shape, upsample2_shape; cbn [sN sC sH sW].
  replace (h =? 0) with false by (symmetry; apply Nat.eqb_neq; lia).
  replace (w =? 0) with false by (symmetry; apply Nat.eqb_neq; lia).
  replace (c1 =? 0) with false by (symmetry; apply Nat.eqb_neq; lia).
  cbn [orb bind]; cbv zeta.
  pose proof (pad_shape_align (mkShape N c1 (2 * h) (2 * w)) H W) as Hp.
  cbv zeta in Hp; cbn [sN sC sH sW] in Hp |- *; rewrite Hp; cbn [bind].
  rewrite cat1_shape_ok; cbn [bind].
  rewrite Hcin; apply (DoubleConv_shape_ok _ _ _ _ _ _ _ _ _ Hdc); auto.
Qed.

Lemma bdim_refl a : bdim a a = Some a.
Proof. unfold bdim; rewrite Nat.eqb_refl; reflexivity. Qed.

Lemma bdim_1_r a : bdim a 1 = Some a.
Proof. unfold bdim; destruct (a =? 1) eqn:E; [apply Nat.eqb_eq in E; subst|]; reflexivity. Qed.

Lemma div8_pos c : 8 <= c -> 1 <= c / 8.
Proof.
  intros Hc; pose proof (Nat.div_mod_eq c 8); pose proof (Nat.mod_upper_bound c 8 ltac:(lia)).
  lia.
Qed.

Lemma PALayer_shape_ok tr channel m N H W :
  PALayer_init channel m -> 8 <= channel -> 1 <= H -> 1 <= W ->
  PALayer_shape tr m (mkShape N channel H W) = Ok (mkShape N channel H W).
Proof.
  intros (l1 & l3 & Hm & H1 & H3) Hc Hh Hw; pose proof (div8_pos _ Hc).
  unfold PALayer_shape; rewrite Hm; cbn [sequential_shape].
  rewrite (conv1_decl_ok _ _ _ _ _ _ _ H1) by assumption; cbn [bind layer_shape].
  rewrite (conv1_decl_ok _ _ _ _ _ _ _ H3) by (assumption || lia); cbn [bind layer_shape].
  unfold mul_shape; cbn [sN sC sH sW]; rewrite !bdim_refl, bdim_1_r; reflexivity.
Qed.

Lemma CALayer_shape_ok tr channel m N H W :
  CALayer_init channel m -> 8 <= channel -> 1 <= H -> 1 <= W ->
  CALayer_shape tr m (mkShape N channel H W) = Ok (mkShape N channel H W).
Proof.
  intros (l1 & l3 & Hm & H1 & H3) Hc Hh Hw; pose proof (div8_pos _ Hc).
  unfold CALayer_shape, adaptive_avg_pool1_shape; cbn [sN sC sH sW].
  cbn [bind]; rewrite Hm; cbn [sequential_shape].
  rewrite (conv1_decl_ok _ _ _ _ _ _ _ H1) by (assumption || lia); cbn [bind layer_shape].
  rewrite (conv1_decl_ok _ _ _ _ _ _ _ H3) by (assumption || lia); cbn [bind layer_shape].
  unfold mul_shape; cbn [sN sC sH sW]; rewrite !bdim_refl, !bdim_1_r; reflexivity.
Qed.

Lemma attention_shape_ok tr C ms N H W :
  attention_init C ms -> 8 <= C -> 1 <= H -> 1 <= W ->
  sequential_shape (attention_shape tr) ms (mkShape N C H W) = Ok (mkShape N C H W).
Proof.
  intros (c & p & -> & Hc & Hp) HC Hh Hw; cbn [sequential_shape attention_shape].
  rewrite (CALayer_shape_ok _ _ _ _ _ _ Hc) by assumption; cbn [bind].
  rewrite (PALayer_shape_ok _ _ _ _ _ _ Hp) by assumption; reflexivity.
Qed.

Lemma AttentiveDoubleConv_shape_ok tr cin cout norm leaky m N H W :
  AttentiveDoubleConv_init cin cout norm leaky m -> 8 <= cout -> 1 <= H -> 1 <= W ->
  bn_ok tr norm N H W ->
  AttentiveDoubleConv_shape tr m (mkShape N cin H W) = Ok (mkShape N cout H W).
Proof.
  intros [Hd Ha] Hc Hh Hw Hbn; unfold AttentiveDoubleConv_shape.
  rewrite (DoubleConv_shape_ok _ _ _ _ _ _ _ _ _ Hd) by (assumption || lia); cbn [bind].
  apply attention_shape_ok; assumption.
Qed.

Lemma AttentiveDown_shape_ok tr cin cout norm leaky m N H W :
  AttentiveDown_init cin cout norm leaky m -> 1 <= cin -> 8 <= cout -> 2 <= H -> 2 <= W ->
  bn_ok tr norm N (H / 2) (W / 2) ->
  AttentiveDown_shape tr m (mkShape N cin H W) = Ok (mkShape N cout (H / 2) (W / 2)).
Proof.
  intros [Hd Ha] Hi Hc Hh Hw Hbn; unfold AttentiveDown_shape.
  rewrite (Down_shape_ok _ _ _ _ _ _ _ _ _ Hd) by (assumption || lia); cbn [bind].
  apply attention_shape_ok; auto; div2_facts; lia.
Qed.

Lemma AttentiveUp_shape_ok tr cin cout norm leaky m N c1 c2 h w H W :
  AttentiveUp_init cin cout true norm leaky m -> 8 <= cout -> 1 <= c1 ->
  1 <= h -> 1 <= w -> 1 <= H -> 1 <= W -> c2 + c1 = cin ->
  bn_ok tr norm N H W ->
  AttentiveUp_shape tr m (mkShape N c1 h w) (mkShape N c2 H W) = Ok (mkShape N cout H W).
Proof.
  intros [Hu Ha] Hc Hc1 Hh Hw HH HW Hcin Hbn; unfold AttentiveUp_shape.
  rewrite (Up_shape_ok _ _ _ _ _ _ _ _ _ _ _ _ _ Hu) by (assumption || lia); cbn [bind].
  apply attention_shape_ok; auto.
Qed.

Ltac side_tac :=
  first
    [ assumption
    | lia
    | div2_facts; lia
    | eapply bn_ok_mono; [eassumption | split; div2_facts; lia | split; div2_facts; lia] ].

Lemma BaseNet_shape_ok tr cin cout norm act net N H W :
  BaseNet_body_init cin norm net -> OutConv_init 32 cout act (outc net) ->
  1 <= cout -> 8 <= H -> 8 <= W ->
  bn_ok tr norm N (H / 2 / 2 / 2) (W / 2 / 2 / 2) ->
  BaseNet_shape tr net (mkShape N cin H W) = Ok (mkShape N cout H W).
Proof.
  intros (Hi & Hd1 & Hd2 & Hd3 & Hu1 & Hu2 & Hu3) Ho Hc Hh Hw Hbn.
  unfold BaseNet_shape.
  rewrite (DoubleConv_shape_ok _ _ _ _ _ _ _ _ _ Hi) by side_tac; cbn [bind].
  rewrite (Down_shape_ok _ _ _ _ _ _ _ _ _ Hd1) by side_tac; cbn [bind].
  rewrite (Down_shape_ok _ _ _ _ _ _ _ _ _ Hd2) by side_tac; cbn [bind].
  rewrite (Down_shape_ok _ _ _ _ _ _ _ _ _ Hd3) by side_tac; cbn [bind].
  rewrite (Up_shape_ok _ _ _ _ _ _ _ _ _ _ _ _ _ Hu1) by side_tac; cbn [bind].
  rewrite (Up_shape_ok _ _ _ _ _ _ _ _ _ _ _ _ _ Hu2) by side_tac; cbn [bind].
  rewrite (Up_shape_ok _ _ _ _ _ _ _ _ _ _ _ _ _ Hu3) by side_tac; cbn [bind].
  apply (OutConv_shape_ok _ _ _ _ _ _ _ _ Ho); lia.
Qed.

Lemma FuseNet_shape_ok tr cin cout norm net N H W :
  FuseNet_init cin cout norm net ->
  1 <= cout -> 4 <= H -> 4 <= W ->
  bn_ok tr norm N (H / 2 / 2) (W / 2 / 2) ->
  FuseNet_shape tr net (mkShape N cin H W) = Ok (mkShape N cout H W).
Proof.
  intros (Hi & Hd1 & Hd2 & Hu1 & Hu2 & Ho) Hc Hh Hw Hbn.
  unfold FuseNet_shape.
  rewrite (AttentiveDoubleConv_shape_ok _ _ _ _ _ _ _ _ _ Hi) by side_tac; cbn [bind].
  rewrite (AttentiveDown_shape_ok _ _ _ _ _ _ _ _ _ Hd1) by side_tac; cbn [bind].
  rewrite (AttentiveDown_shape_ok _ _ _ _ _ _ _ _ _ Hd2) by side_tac; cbn [bind].
  rewrite (AttentiveUp_shape_ok _ _ _ _ _ _ _ _ _ _ _ _ _ Hu1) by side_tac; cbn [bind].
  rewrite (AttentiveUp_shape_ok _ _ _ _ _ _ _ _ _ _ _ _ _ Hu2) by side_tac; cbn [bind].
  apply (OutConv_shape_ok _ _ _ _ _ _ _ _ Ho); lia.
Qed.

(** ** What a successful shape computation implies *)

Lemma rshape_Ok r s : rshape r = Ok s -> exists y, r = Ok y /\ tshape y = s.
Proof. destruct r as [y|e]; simpl; intros E; inversion E; eauto. Qed.

Lemma bind_Ok {A B} (m : result A) (k : A -> result B) b :
  bind m k = Ok b -> exists a, m = Ok a /\ k a = Ok b.
Proof. destruct m; simpl; intros E; [eauto | discriminate]. Qed.

Lemma conv_decl_Ok tr cin cout k p l s s' :
  conv_decl cin cout k p l -> layer_shape tr l s = Ok s' ->
  sC s = cin /\ k <= sH s + 2 * p /\ k <= sW s + 2 * p
  /\ s' = mkShape (sN s) cout (sH s + 2 * p - k + 1) (sW s + 2 * p - k + 1).
Proof.
  intros (c & -> & Hc) E; unfold conv_cfg in Hc; inversion Hc as [[Hi Ho Hk Hp]].
  simpl in E; unfold conv2d_shape in E; rewrite Hi, Ho, Hk, Hp in E.
  destruct (cout =? 0); [discriminate|].
  destruct (sC s =? cin) eqn:E0; [|discriminate]; apply Nat.eqb_eq in E0.
  destruct (sH s + 2 * p <? k) eqn:E1; [discriminate|].
  destruct (sW s + 2 * p <? k) eqn:E2; [discriminate|].
  apply Nat.ltb_ge in E1, E2; inversion E; subst; auto.
Qed.

Lemma conv3_decl_Ok tr cin cout l s s' :
  conv_decl cin cout 3 1 l -> layer_shape tr l s = Ok s' ->
  sN s' = sN s /\ sH s' = sH s /\ sW s' = sW s.
Proof.
  intros Hl E; apply (conv_decl_Ok _ _ _ _ _ _ _ _ Hl) in E as (_ & E1 & E2 & ->).
  simpl; lia.
Qed.

Lemma conv1_decl_Ok tr cin cout l s s' :
  conv_decl cin cout 1 0 l -> layer_shape tr l s = Ok s' ->
  sC s = cin /\ s' = mkShape (sN s) cout (sH s) (sW s).
Proof.
  intros Hl E; apply (conv_decl_Ok _ _ _ _ _ _ _ _ Hl) in E as (E0 & E1 & E2 & ->).
  split; [exact E0|]; f_equal; lia.
Qed.

Lemma norm_decl_Ok tr norm C l s s' :
  norm_decl norm C l -> layer_shape tr l s = Ok s' -> s' = s.
Proof.
  destruct norm; simpl.
  - intros (b & -> & _) E; simpl in E; unfold batch_norm_shape in E.
    destruct (tr && _); [discriminate|]; destruct (negb _); [discriminate|].
    inversion E; reflexivity.
  - intros -> E; inversion E; reflexivity.
Qed.

Lemma act_of_Ok tr leaky s s' : layer_shape tr (act_of leaky) s = Ok s' -> s' = s.
Proof. destruct leaky; simpl; intros E; inversion E; reflexivity. Qed.

Lemma DoubleConv_shape_Ok tr cin cout norm leaky m s s' :
  DoubleConv_init cin cout norm leaky m -> DoubleConv_shape tr m s = Ok s' ->
  sN s' = sN s /\ sH s' = sH s /\ sW s' = sW s.
Proof.
  intros (l1 & n1 & l4 & n2 & Hm & H1 & Hn1 & H4 & Hn2) E.
  unfold DoubleConv_shape in E; rewrite Hm in E; cbn [sequential_shape] in E.
  apply bind_Ok in E as (s1 & E1 & E); apply (conv3_decl_Ok _ _ _ _ _ _ H1) in E1.
  apply bind_Ok in E as (s2 & E2 & E); apply (norm_decl_Ok _ _ _ _ _ _ Hn1) in E2; subst s2.
  apply bind_Ok in E as (s3 & E3 & E); apply act_of_Ok in E3; subst s3.
  apply bind_Ok in E as (s4 & E4 & E); apply (conv3_decl_Ok _ _ _ _ _ _ H4) in E4.
  apply bind_Ok in E as (s5 & E5 & E); apply (norm_decl_Ok _ _ _ _ _ _ Hn2) in E5; subst s5.
  apply bind_Ok in E as (s6 & E6 & E); apply act_of_Ok in E6; subst s6.
  inversion E; subst; lia.
Qed.

Lemma Down_shape_Ok tr cin cout norm leaky m s s' :
  Down_init cin cout norm leaky m -> Down_shape tr m s = Ok s' ->
  2 <= sH s /\ 2 <= sW s /\ sH s' = sH s / 2 /\ sW s' = sW s / 2.
Proof.
  intros Hm E; unfold Down_shape, max_pool2_shape in E.
  destruct (_ || _ || _); [discriminate|].
  destruct (sH s <? 2) eqn:E1; [discriminate|].
  destruct (sW s <? 2) eqn:E2; [discriminate|].
  apply Nat.ltb_ge in E1, E2; cbn [orb bind] in E.
  apply (DoubleConv_shape_Ok _ _ _ _ _ _ _ _ Hm) in E; cbn [sN sH sW] in E; lia.
Qed.

(** A BaseNet forward that succeeds had [H, W >= 8]: three poolings. *)
Lemma BaseNet_shape_needs_8 tr cin norm net s s' :
  BaseNet_body_init cin norm net -> BaseNet_shape tr net s = Ok s' ->
  8 <= sH s /\ 8 <= sW s.
Proof.
  intros (Hi & Hd1 & Hd2 & Hd3 & _) E; unfold BaseNet_shape in E.
  apply bind_Ok in E as (s1 & E1 & E); apply (DoubleConv_shape_Ok _ _ _ _ _ _ _ _ Hi) in E1.
  apply bind_Ok in E as (s2 & E2 & E); apply (Down_shape_Ok _ _ _ _ _ _ _ _ Hd1) in E2.
  apply bind_Ok in E as (s3 & E3 & E); apply (Down_shape_Ok _ _ _ _ _ _ _ _ Hd2) in E3.
  apply bind_Ok in E as (s4 & E4 & E); apply (Down_shape_Ok _ _ _ _ _ _ _ _ Hd3) in E4.
  destruct E1 as (_ & E1h & E1w).
  destruct E2 as (A2 & B2 & C2 & D2), E3 as (A3 & B3 & C3 & D3), E4 as (A4 & B4 & C4 & D4).
  rewrite C3, C2, E1h in A4. rewrite D3, D2, E1w in B4.
  div2_facts; lia.
Qed.

Lemma mul_shape_Ok a b s : mul_shape a b = Ok s ->
  bdim (sN a) (sN b) = Some (sN s) /\ bdim (sC a) (sC b) = Some (sC s)
  /\ bdim (sH a) (sH b) = Some (sH s) /\ bdim (sW a) (sW b) = Some (sW s).
Proof.
  unfold mul_shape.
  destruct (bdim (sN a) (sN b)), (bdim (sC a) (sC b)), (bdim (sH a) (sH b)),
           (bdim (sW a) (sW b)); intros E; try discriminate.
  inversion E; subst; simpl; auto.
Qed.

Lemma relu_sigmoid_Ok tr l s s' :
  (l = LReLU \/ l = LSigmoid) -> layer_shape tr l s = Ok s' -> s' = s.
Proof. intros [-> | ->] E; inversion E; reflexivity. Qed.

(** Pixel and channel attention give back the shape they receive. *)
Lemma PALayer_shape_Ok tr channel m s s' :
  PALayer_init channel m -> PALayer_shape tr m s = Ok s' -> s' = s.
Proof.
  intros (l1 & l3 & Hm & H1 & H3) E; unfold PALayer_shape in E; rewrite Hm in E.
  cbn [sequential_shape] in E.
  apply bind_Ok in E as (g & Eg & E).
  apply bind_Ok in Eg as (g1 & E1 & Eg); apply (conv1_decl_Ok _ _ _ _ _ _ H1) in E1 as (_ & ->).
  apply bind_Ok in Eg as (g2 & E2 & Eg); apply relu_sigmoid_Ok in E2; auto; subst g2.
  apply bind_Ok in Eg as (g3 & E3 & Eg); apply (conv1_decl_Ok _ _ _ _ _ _ H3) in E3 as (_ & ->).
  apply bind_Ok in Eg as (g4 & E4 & Eg); apply relu_sigmoid_Ok in E4; auto; subst g4.
  inversion Eg; subst g; apply mul_shape_Ok in E as (EN & EC & EH & EW).
  cbn [sN sC sH sW] in *; rewrite bdim_refl in EN, EH, EW; rewrite bdim_1_r in EC.
  destruct s, s'; cbn [sN sC sH sW] in *; congruence.
Qed.

Lemma CALayer_shape_Ok tr channel m s s' :
  CALayer_init channel m -> CALayer_shape tr m s = Ok s' -> s' = s.
Proof.
  intros (l1 & l3 & Hm & H1 & H3) E; unfold CALayer_shape in E; rewrite Hm in E.
  cbn [sequential_shape] in E.
  apply bind_Ok in E as (p & Ep & E); unfold adaptive_avg_pool1_shape in Ep.
  inversion Ep; subst p; clear Ep.
  apply bind_Ok in E as (g & Eg & E).
  apply bind_Ok in Eg as (g1 & E1 & Eg);
    apply (conv1_decl_Ok _ _ _ _ _ _ H1) in E1 as (Ec & ->); cbn [sC] in Ec.
  apply bind_Ok in Eg as (g2 & E2 & Eg); apply relu_sigmoid_Ok in E2; auto; subst g2.
  apply bind_Ok in Eg as (g3 & E3 & Eg); apply (conv1_decl_Ok _ _ _ _ _ _ H3) in E3 as (_ & ->).
  apply bind_Ok in Eg as (g4 & E4 & Eg); apply relu_sigmoid_Ok in E4; auto; subst g4.
  inversion Eg; subst g; apply mul_shape_Ok in E as (EN & EC & EH & EW).
  cbn [sN sC sH sW] in *; rewrite Ec in EC; rewrite bdim_refl in EN, EC; rewrite bdim_1_r in EH, EW.
  destruct s, s'; cbn [sN sC sH sW] in *; congruence.
Qed.

Lemma attention_shape_Ok tr C ms s s' :
  attention_init C ms -> sequential_shape (attention_shape tr) ms s = Ok s' -> s' = s.
Proof.
  intros (c & p & -> & Hc & Hp) E; cbn [sequential_shape attention_shape] in E.
  apply bind_Ok in E as (s1 & E1 & E); apply (CALayer_shape_Ok _ _ _ _ _ Hc) in E1; subst s1.
  apply bind_Ok in E as (s2 & E2 & E); apply (PALayer_shape_Ok _ _ _ _ _ Hp) in E2; subst s2.
  inversion E; reflexivity.
Qed.

Lemma AttentiveDoubleConv_shape_Ok tr cin cout norm leaky m s s' :
  AttentiveDoubleConv_init cin cout norm leaky m -> AttentiveDoubleConv_shape tr m s = Ok s' ->
  sN s' = sN s /\ sH s' = sH s /\ sW s' = sW s.
Proof.
  intros [Hd Ha] E; apply bind_Ok in E as (s1 & E1 & E).
  apply (attention_shape_Ok _ _ _ _ _ Ha) in E; subst s'.
  eapply DoubleConv_shape_Ok; eauto.
Qed.

Lemma AttentiveDown_shape_Ok tr cin cout norm leaky m s s' :
  AttentiveDown_init cin cout norm leaky m -> AttentiveDown_shape tr m s = Ok s' ->
  2 <= sH s /\ 2 <= sW s /\ sH s' = sH s / 2 /\ sW s' = sW s / 2.
Proof.
  intros [Hd Ha] E; apply bind_Ok in E as (s1 & E1 & E).
  apply (attention_shape_Ok _ _ _ _ _ Ha) in E; subst s'.
  eapply Down_shape_Ok; eauto.
Qed.

(** A FuseNet forward that succeeds had [H, W >= 4]: two poolings. *)
Lemma FuseNet_shape_needs_4 tr cin cout norm net s s' :
  FuseNet_init cin cout norm net -> FuseNet_shape tr net s = Ok s' ->
  4 <= sH s /\ 4 <= sW s.
Proof.
  intros (Hi & Hd1 & Hd2 & _) E; unfold FuseNet_shape in E.
  apply bind_Ok in E as (s1 & E1 & E).
  apply (AttentiveDoubleConv_shape_Ok _ _ _ _ _ _ _ _ Hi) in E1 as (_ & E1h & E1w).
  apply bind_Ok in E as (s2 & E2 & E).
  apply (AttentiveDown_shape_Ok _ _ _ _ _ _ _ _ Hd1) in E2 as (A2 & B2 & C2 & D2).
  apply bind_Ok in E as (s3 & E3 & E).
  apply (AttentiveDown_shape_Ok _ _ _ _ _ _ _ _ Hd2) in E3 as (A3 & B3 & _ & _).
  rewrite C2, E1h in A3. rewrite D2, E1w in B3.
  div2_facts; lia.
Qed.

(** ** The zero-weight modules are built as the constructors build them *)

Ltac init_tac := repeat (first [reflexivity | progress hnf | split | eexists]).

Lemma zero_PALayer_init channel : PALayer_init channel (zero_PALayer channel).
Proof. init_tac. Qed.

Lemma zero_CALayer_init channel : CALayer_init channel (zero_CALayer channel).
Proof. init_tac. Qed.

Lemma zero_DoubleConv_init cin cout norm leaky :
  DoubleConv_init cin cout norm leaky (zero_DoubleConv cin cout norm leaky).
Proof. destruct norm; init_tac. Qed.

Lemma zero_attention_init C : attention_init C (zero_attention C).
Proof.
  exists (zero_CALayer C), (zero_PALayer C).
  split; [reflexivity | split; [apply zero_CALayer_init | apply zero_PALayer_init]].
Qed.

Lemma zero_OutConv_init cin cout act : OutConv_init cin cout act (zero_OutConv cin cout act).
Proof. init_tac. Qed.

Lemma zero_Up_init cin cout bilinear norm leaky :
  Up_init cin cout bilinear norm leaky (zero_Up cin cout bilinear norm leaky).
Proof.
  split; [destruct bilinear; init_tac | apply zero_DoubleConv_init].
Qed.

Lemma zero_BaseNet_body_init cin norm act cout :
  BaseNet_body_init cin norm (zero_BaseNet cin cout norm act).
Proof.
  repeat split; try apply zero_DoubleConv_init; apply zero_Up_init.
Qed.

Lemma zero_FuseNet_init cin cout norm : FuseNet_init cin cout norm (zero_FuseNet cin cout norm).
Proof.
  repeat split; simpl;
    first [ apply zero_DoubleConv_init | apply zero_attention_init
          | apply zero_Up_init | apply zero_OutConv_init ].
Qed.

Lemma div_2_2_2 H : H / 2 / 2 / 2 = H / 8.
Proof. rewrite !Nat.Div0.div_div; reflexivity. Qed.

Lemma div_2_2 H : H / 2 / 2 = H / 4.
Proof. rewrite !Nat.Div0.div_div; reflexivity. Qed.

Lemma mod_pos_le k H : 0 < k -> H mod k = 0 -> 1 <= H -> k <= H.
Proof.
  intros Hk Hm Hh; pose proof (Nat.div_mod_eq H k) as E; rewrite Hm in E.
  destruct (H / k) as [|q]; lia.
Qed.

Lemma BaseNet_forward_ok tr cin cout norm act net x N H W :
  tshape x = mkShape N cin H W -> 1 <= cout ->
  BaseNet_body_init cin norm net -> OutConv_init 32 cout act (outc net) ->
  8 <= H -> 8 <= W -> bn_ok tr norm N (H / 8) (W / 8) ->
  exists y, BaseNet_forward tr net x = Ok y /\ tshape y = mkShape N cout H W.
Proof.
  intros Hx Hc Hb Ho Hh Hw Hbn; apply rshape_Ok.
  rewrite BaseNet_rshape, Hx; apply (BaseNet_shape_ok _ _ _ norm act); auto.
  rewrite !div_2_2_2; exact Hbn.
Qed.

Lemma FuseNet_forward_ok tr cin cout norm net x N H W :
  tshape x = mkShape N cin H W -> 1 <= cout -> FuseNet_init cin cout norm net ->
  4 <= H -> 4 <= W -> bn_ok tr norm N (H / 4) (W / 4) ->
  exists y, FuseNet_forward tr net x = Ok y /\ tshape y = mkShape N cout H W.
Proof.
  intros Hx Hc Hf Hh Hw Hbn; apply rshape_Ok.
  rewrite FuseNet_rshape, Hx; apply (FuseNet_shape_ok _ _ _ norm); auto.
  rewrite !div_2_2; exact Hbn.
Qed.

(** ** No concatenation fails inside the networks *)

Ltac ncb_cases :=
  repeat match goal with |- context [if ?b then _ else _] => destruct b end;
  (split; [discriminate | intros ? E; inversion E; reflexivity]).

Lemma ncb_shift r a s : no_cat_same_batch r a -> sN a = sN s -> no_cat_same_batch r s.
Proof. intros [Hc Hn] E; split; [exact Hc | intros s' Es; rewrite (Hn s' Es); exact E]. Qed.

Lemma ncb_bind (m : result shape) (k : shape -> result shape) s :
  no_cat_same_batch m s ->
  (forall a, m = Ok a -> sN a = sN s -> no_cat_same_batch (k a) s) ->
  no_cat_same_batch (bind m k) s.
Proof.
  destruct m as [a|e]; cbn [bind]; intros [Hc Hn] Hk.
  - apply Hk; [reflexivity | apply Hn; reflexivity].
  - split; [exact Hc | discriminate].
Qed.

Lemma layer_shape_ncb tr l s : no_cat_same_batch (layer_shape tr l s) s.
Proof.
  destruct l; cbn [layer_shape]; try unfold conv2d_shape; try unfold batch_norm_shape;
    ncb_cases.
Qed.

Lemma sequential_shape_ncb {A} (f : A -> shape -> result shape) ms s :
  (forall a s, no_cat_same_batch (f a s) s) ->
  no_cat_same_batch (sequential_shape f ms s) s.
Proof.
  intros Hf; revert s; induction ms as [|a ms IH]; intros s; cbn [sequential_shape].
  - split; [discriminate | intros s' E; inversion E; reflexivity].
  - apply ncb_bind; [apply Hf | intros s1 _ E1; apply (ncb_shift _ s1); auto].
Qed.

Lemma mul_shape_ncb a b : sN b = sN a -> no_cat_same_batch (mul_shape a b) a.
Proof.
  intros E; unfold mul_shape; rewrite E, bdim_refl.
  destruct (bdim (sC a) (sC b)), (bdim (sH a) (sH b)), (bdim (sW a) (sW b));
    (split; [discriminate | intros s' Es; inversion Es; reflexivity]).
Qed.

Lemma attention_shape_ncb tr a s : no_cat_same_batch (attention_shape tr a s) s.
Proof.
  destruct a as [m|m]; cbn [attention_shape].
  - unfold CALayer_shape, adaptive_avg_pool1_shape; cbn [bind].
    apply ncb_bind; [apply (ncb_shift _ (mkShape (sN s) (sC s) 1 1));
                     [apply sequential_shape_ncb, layer_shape_ncb | reflexivity]|].
    intros g _ Eg; apply mul_shape_ncb; exact Eg.
  - unfold PALayer_shape.
    apply ncb_bind; [apply sequential_shape_ncb, layer_shape_ncb|].
    intros g _ Eg; apply mul_shape_ncb; exact Eg.
Qed.

Lemma DoubleConv_shape_ncb tr m s : no_cat_same_batch (DoubleConv_shape tr m s) s.
Proof. apply sequential_shape_ncb, layer_shape_ncb. Qed.

Lemma OutConv_shape_ncb tr m s : no_cat_same_batch (OutConv_shape tr m s) s.
Proof. apply sequential_shape_ncb, layer_shape_ncb. Qed.

Lemma attention_seq_ncb tr ms s :
  no_cat_same_batch (sequential_shape (attention_shape tr) ms s) s.
Proof. apply sequential_shape_ncb, attention_shape_ncb. Qed.

Lemma Down_shape_ncb tr m s : no_cat_same_batch (Down_shape tr m s) s.
Proof.
  unfold Down_shape; apply ncb_bind.
  - unfold max_pool2_shape; ncb_cases.
  - intros p _ Ep; apply (ncb_shift _ p); [apply DoubleConv_shape_ncb | exact Ep].
Qed.

Lemma upsampler_shape_ncb u s : no_cat_same_batch (upsampler_shape u s) s.
Proof.
  destruct u; cbn [upsampler_shape];
    [unfold upsample2_shape | unfold conv_transpose2_shape]; ncb_cases.
Qed.

(** [Up] pads the upsampled [x1] to the height and width of [x2], so its
    concatenation succeeds whenever the batch sizes agree. *)
Lemma Up_shape_ncb tr m s1 s2 :
  sN s1 = sN s2 -> no_cat_same_batch (Up_shape tr m s1 s2) s2.
Proof.
  intros E; unfold Up_shape; apply ncb_bind.
  - apply (ncb_shift _ s1); [apply upsampler_shape_ncb | exact E].
  - intros u _ Eu; cbv zeta.
    rewrite (pad_shape_align u (sH s2) (sW s2)); cbn [bind].
    unfold cat1_shape; cbn [sN sH sW]; rewrite Eu, !Nat.eqb_refl; cbn [andb bind].
    apply (ncb_shift _ (mkShape (sN s2) (sC s2 + sC u) (sH s2) (sW s2)));
      [apply DoubleConv_shape_ncb | reflexivity].
Qed.

Lemma BaseNet_shape_ncb tr net s : no_cat_same_batch (BaseNet_shape tr net s) s.
Proof.
  unfold BaseNet_shape.
  apply ncb_bind; [apply DoubleConv_shape_ncb | intros s1 _ N1].
  apply ncb_bind; [apply (ncb_shift _ s1); [apply Down_shape_ncb | exact N1] | intros s2 _ N2].
  apply ncb_bind; [apply (ncb_shift _ s2); [apply Down_shape_ncb | congruence] | intros s3 _ N3].
  apply ncb_bind; [apply (ncb_shift _ s3); [apply Down_shape_ncb | congruence] | intros s4 _ N4].
  apply ncb_bind; [apply (ncb_shift _ s3); [apply Up_shape_ncb; congruence | congruence]
                  | intros s5 _ N5].
  apply ncb_bind; [apply (ncb_shift _ s2); [apply Up_shape_ncb; congruence | congruence]
                  | intros s6 _ N6].
  apply ncb_bind; [apply (ncb_shift _ s1); [apply Up_shape_ncb; congruence | congruence]
                  | intros s7 _ N7].
  apply (ncb_shift _ s7); [apply OutConv_shape_ncb | congruence].
Qed.

Lemma FuseNet_shape_ncb tr net s : no_cat_same_batch (FuseNet_shape tr net s) s.
Proof.
  unfold FuseNet_shape, AttentiveDoubleConv_shape, AttentiveDown_shape, AttentiveUp_shape.
  apply ncb_bind; [|intros s1 _ N1].
  { apply ncb_bind; [apply DoubleConv_shape_ncb | intros a _ Na].
    apply (ncb_shift _ a); [apply attention_seq_ncb | exact Na]. }
  apply ncb_bind; [|intros s2 _ N2].
  { apply ncb_bind; [apply (ncb_shift _ s1); [apply Down_shape_ncb | exact N1] | intros a _ Na].
    apply (ncb_shift _ a); [apply attention_seq_ncb | exact Na]. }
  apply ncb_bind; [|intros s3 _ N3].
  { apply ncb_bind; [apply (ncb_shift _ s2); [apply Down_shape_ncb | exact N2] | intros a _ Na].
    apply (ncb_shift _ a); [apply attention_seq_ncb | exact Na]. }
  apply ncb_bind; [|intros s4 _ N4].
  { apply ncb_bind; [apply (ncb_shift _ s2); [apply Up_shape_ncb; congruence | exact N2]
                    | intros a _ Na].
    apply (ncb_shift _ a); [apply attention_seq_ncb | exact Na]. }
  apply ncb_bind; [|intros s5 _ N5].
  { apply ncb_bind; [apply (ncb_shift _ s1); [apply Up_shape_ncb; congruence | exact N1]
                    | intros a _ Na].
    apply (ncb_shift _ a); [apply attention_seq_ncb | exact Na]. }
  apply (ncb_shift _ s5); [apply OutConv_shape_ncb | exact N5].
Qed.

(** * The claims *)

(** ** C1 *)

(** C1 (as stated, refuted): [BaseNet(1, 1)] (norm=True) in training mode on a
    1x1x8x8 input fails in its last [BatchNorm2d] (one value per channel at
    the 1x1 bottleneck), and on a 1x1x0x0 input (0 is divisible by 8) its
    first convolution fails. *)
Lemma BaseNet_divisible_by_8_can_fail :
  BaseNet_init 1 1 true (zero_BaseNet 1 1 true true)
  /\ rshape (BaseNet_forward true (zero_BaseNet 1 1 true true)
                             (const_tensor (mkShape 1 1 8 8) 0%R))
     = Err BatchNormSingleValue
  /\ rshape (BaseNet_forward false (zero_BaseNet 1 1 true true)
                             (const_tensor (mkShape 1 1 0 0) 0%R))
     = Err ConvKernelTooLarge.
Proof.
  split; [split; [apply zero_BaseNet_body_init | apply zero_OutConv_init]|].
  split; rewrite BaseNet_rshape; vm_compute; reflexivity.
Qed.

(** C1 (amended): with out_channels >= 1, an input (N, in_channels, H, W)
    with H, W positive and divisible by 8 gives BaseNet (IAN: act=True, ANSN:
    act=False) an output (N, out_channels, H, W), and one with H, W positive
    and divisible by 4 gives FuseNet an output (N, out_channels, H, W);
    provided batch norm is off, in evaluation mode, or sees more than one
    value per channel at the smallest resolution (N * (H/8) * (W/8) <> 1,
    resp. N * (H/4) * (W/4) <> 1). *)
Theorem nets_preserve_spatial_size tr cin cout norm x N H W :
  tshape x = mkShape N cin H W -> 1 <= cout -> 1 <= H -> 1 <= W ->
  (forall act net,
     H mod 8 = 0 -> W mod 8 = 0 ->
     BaseNet_body_init cin norm net -> OutConv_init 32 cout act (outc net) ->
     bn_ok tr norm N (H / 8) (W / 8) ->
     exists y, BaseNet_forward tr net x = Ok y /\ tshape y = mkShape N cout H W)
  /\
  (forall net,
     H mod 4 = 0 -> W mod 4 = 0 -> FuseNet_init cin cout norm net ->
     bn_ok tr norm N (H / 4) (W / 4) ->
     exists y, FuseNet_forward tr net x = Ok y /\ tshape y = mkShape N cout H W).
Proof.
  intros Hx Hc Hh Hw; split.
  - intros act net H8 W8 Hb Ho Hbn.
    apply (BaseNet_forward_ok tr cin cout norm act net x N H W Hx Hc Hb Ho); auto;
      apply mod_pos_le; auto; lia.
  - intros net H4 W4 Hf Hbn.
    apply (FuseNet_forward_ok tr cin cout norm net x N H W Hx Hc Hf); auto;
      apply mod_pos_le; auto; lia.
Qed.

Lemma nets_preserve_spatial_size_witness :
  (exists y, BaseNet_forward true (zero_BaseNet 1 1 true false)
                             (const_tensor (mkShape 2 1 8 8) 0%R) = Ok y
             /\ tshape y = mkShape 2 1 8 8)
  /\ (exists y, FuseNet_forward true (zero_FuseNet 1 1 true)
                                (const_tensor (mkShape 2 1 8 8) 0%R) = Ok y
                /\ tshape y = mkShape 2 1 8 8).
Proof.
  destruct (nets_preserve_spatial_size true 1 1 true (const_tensor (mkShape 2 1 8 8) 0%R)
              2 8 8 eq_refl ltac:(lia) ltac:(lia) ltac:(lia)) as [HB HF].
  split.
  - apply (HB false); [reflexivity | reflexivity | apply zero_BaseNet_body_init
                      | apply zero_OutConv_init | unfold bn_ok; simpl; lia].
  - apply HF; [reflexivity | reflexivity | apply zero_FuseNet_init | unfold bn_ok; simpl; lia].
Defined.

(** ** C7 *)

(** C7 (as stated, refuted): sizes not divisible by the power of 2 do not
    fail.  [BaseNet(1, 1)] on a 1x1x12x12 input and [FuseNet(1, 1)] on a
    1x1x6x6 input both return an output of the input's height and width. *)
Lemma nets_run_on_sizes_not_divisible :
  12 mod 8 <> 0
  /\ rshape (BaseNet_forward false (zero_BaseNet 1 1 true true)
                             (const_tensor (mkShape 1 1 12 12) 0%R))
     = Ok (mkShape 1 1 12 12)
  /\ 6 mod 4 <> 0
  /\ rshape (FuseNet_forward false (zero_FuseNet 1 1 false)
                             (const_tensor (mkShape 1 1 6 6) 0%R))
     = Ok (mkShape 1 1 6 6).
Proof.
  split; [discriminate|]; split; [rewrite BaseNet_rshape; vm_compute; reflexivity|].
  split; [discriminate|]; rewrite FuseNet_rshape; vm_compute; reflexivity.
Qed.

(** C7 (amended): divisibility is not what decides failure.  [Up] pads the
    upsampled tensor to the skip tensor's height and width, so no forward
    pass of BaseNet (IAN, ANSN) or FuseNet fails in a concatenation
    ([CatSizeMismatch]); BaseNet runs on every H, W >= 8 and FuseNet on every
    H, W >= 4, returning (N, out_channels, H, W) (same conditions on
    out_channels and batch norm as C1); and a BaseNet (FuseNet) forward pass
    that succeeds had H, W >= 8 (>= 4). *)
Theorem nets_run_iff_large_enough tr cin cout norm x N H W :
  tshape x = mkShape N cin H W -> 1 <= cout ->
  (forall act net,
     BaseNet_body_init cin norm net -> OutConv_init 32 cout act (outc net) ->
     BaseNet_forward tr net x <> Err CatSizeMismatch
     /\ (8 <= H -> 8 <= W -> bn_ok tr norm N (H / 8) (W / 8) ->
      exists y, BaseNet_forward tr net x = Ok y /\ tshape y = mkShape N cout H W)
     /\ (forall y, BaseNet_forward tr net x = Ok y -> 8 <= H /\ 8 <= W))
  /\
  (forall net,
     FuseNet_init cin cout norm net ->
     FuseNet_forward tr net x <> Err CatSizeMismatch
     /\ (4 <= H -> 4 <= W -> bn_ok tr norm N (H / 4) (W / 4) ->
      exists y, FuseNet_forward tr net x = Ok y /\ tshape y = mkShape N cout H W)
     /\ (forall y, FuseNet_forward tr net x = Ok y -> 4 <= H /\ 4 <= W)).
Proof.
  intros Hx Hc; split.
  - intros act net Hb Ho; split; [|split].
    + intros E; apply (proj1 (BaseNet_shape_ncb tr net (tshape x))).
      rewrite <- BaseNet_rshape, E; reflexivity.
    + intros; apply (BaseNet_forward_ok tr cin cout norm act net x N H W Hx Hc Hb Ho); auto.
    + intros y E.
      assert (Es : BaseNet_shape tr net (tshape x) = Ok (tshape y))
        by (rewrite <- BaseNet_rshape, E; reflexivity).
      rewrite Hx in Es; apply (BaseNet_shape_needs_8 _ _ _ _ _ _ Hb) in Es; auto.
  - intros net Hf; split; [|split].
    + intros E; apply (proj1 (FuseNet_shape_ncb tr net (tshape x))).
      rewrite <- FuseNet_rshape, E; reflexivity.
    + intros; apply (FuseNet_forward_ok tr cin cout norm net x N H W Hx Hc Hf); auto.
    + intros y E.
      assert (Es : FuseNet_shape tr net (tshape x) = Ok (tshape y))
        by (rewrite <- FuseNet_rshape, E; reflexivity).
      rewrite Hx in Es; apply (FuseNet_shape_needs_4 _ _ _ _ _ _ _ Hf) in Es; auto.
Qed.

Lemma nets_run_iff_large_enough_witness :
  (exists y, BaseNet_forward false (zero_BaseNet 1 1 true true)
                             (const_tensor (mkShape 1 1 9 13) 0%R) = Ok y
             /\ tshape y = mkShape 1 1 9 13)
  /\ (exists y, FuseNet_forward false (zero_FuseNet 1 1 true)
                                (const_tensor (mkShape 1 1 9 13) 0%R) = Ok y
                /\ tshape y = mkShape 1 1 9 13).
Proof.
  destruct (nets_run_iff_large_enough false 1 1 true (const_tensor (mkShape 1 1 9 13) 0%R)
              1 9 13 eq_refl ltac:(lia)) as [HB HF].
  split.
  - destruct (HB true (zero_BaseNet 1 1 true true) (zero_BaseNet_body_init 1 true true 1)
                (zero_OutConv_init 32 1 true)) as (_ & Hok & _).
    apply Hok; [lia | lia | left; reflexivity].
  - destruct (HF (zero_FuseNet 1 1 true) (zero_FuseNet_init 1 1 true)) as (_ & Hok & _).
    apply Hok; [lia | lia | left; reflexivity].
Defined.

(** ** C3 and C10: [Up] *)

Lemma lift_Ok s v y : lift s v = Ok y -> s = Ok (tshape y) /\ tval y = v.
Proof. destruct s; simpl; intros E; inversion E; subst; auto. Qed.

Lemma upsampler_Ok u x y :
  upsampler_forward u x = Ok y ->
  sN (tshape y) = sN (tshape x)
  /\ sH (tshape y) = 2 * sH (tshape x) /\ sW (tshape y) = 2 * sW (tshape x)
  /\ match u with
     | UpBilinear => sC (tshape y) = sC (tshape x)
                     /\ 1 <= sH (tshape x) /\ 1 <= sW (tshape x) /\ 1 <= sC (tshape x)
     | UpConvTranspose c => sC (tshape y) = ct_out c
                            /\ sC (tshape x) = ct_in c /\ 1 <= ct_in c
     end.
Proof.
  destruct u as [|c]; simpl; intros E; apply lift_Ok in E as [E _].
  - unfold upsample2_shape in E.
    destruct (sH (tshape x) =? 0) eqn:E1; [discriminate|].
    destruct (sW (tshape x) =? 0) eqn:E2; [discriminate|].
    destruct (sC (tshape x) =? 0) eqn:E3; [discriminate|].
    apply Nat.eqb_neq in E1, E2, E3; inversion E; simpl; repeat split; lia.
  - unfold conv_transpose2_shape in E.
    destruct (ct_in c =? 0) eqn:E1; [discriminate|].
    destruct (sC (tshape x) =? ct_in c) eqn:E2; [|discriminate].
    destruct (_ && _ && _); [discriminate|].
    apply Nat.eqb_neq in E1; apply Nat.eqb_eq in E2; inversion E; simpl; repeat split; lia.
Qed.

Lemma pad_align_Ok u H W p :
  let diffY := (Z.of_nat H - Z.of_nat (sH (tshape u)))%Z in
  let diffX := (Z.of_nat W - Z.of_nat (sW (tshape u)))%Z in
  pad u (diffX / 2) (diffX - diffX / 2) (diffY / 2) (diffY - diffY / 2) = Ok p ->
  tshape p = mkShape (sN (tshape u)) (sC (tshape u)) H W.
Proof.
  intros diffY diffX E; apply lift_Ok in E as [E _].
  pose proof (pad_shape_align (tshape u) H W) as Ea; cbv zeta in Ea.
  unfold diffY, diffX in E; rewrite Ea in E; injection E as E; auto.
Qed.

Lemma cat1_Ok a b c :
  cat1 a b = Ok c ->
  tshape c = mkShape (sN (tshape a)) (sC (tshape a) + sC (tshape b)) (sH (tshape a)) (sW (tshape a))
  /\ sN (tshape a) = sN (tshape b) /\ sH (tshape a) = sH (tshape b) /\ sW (tshape a) = sW (tshape b)
  /\ (forall n ch i j, tval c n ch i j =
        if ch <? sC (tshape a) then tval a n ch i j else tval b n (ch - sC (tshape a)) i j).
Proof.
  intros E; apply lift_Ok in E as [E Ev]; unfold cat1_shape in E.
  destruct (sN (tshape a) =? sN (tshape b)) eqn:E1; [|discriminate].
  destruct (sH (tshape a) =? sH (tshape b)) eqn:E2; [|discriminate].
  destruct (sW (tshape a) =? sW (tshape b)) eqn:E3; [|discriminate].
  apply Nat.eqb_eq in E1, E2, E3; inversion E.
  repeat split; auto; intros; rewrite Ev; reflexivity.
Qed.


Lemma rshape_Err r e : rshape r = Err e -> r = Err e.
Proof. destruct r; simpl; intros E; inversion E; reflexivity. Qed.



Lemma DoubleConv_spatial_Ok tr cin cout norm leaky m x y :
  DoubleConv_init cin cout norm leaky m -> DoubleConv_forward tr m x = Ok y ->
  sH (tshape y) = sH (tshape x) /\ sW (tshape y) = sW (tshape x).
Proof.
  intros Hm E.
  assert (Es : DoubleConv_shape tr m (tshape x) = Ok (tshape y))
    by (rewrite <- DoubleConv_rshape, E; reflexivity).
  apply (DoubleConv_shape_Ok _ _ _ _ _ _ _ _ Hm) in Es; tauto.
Qed.

(** The steps of [Up.forward] on given inputs. *)
Lemma Up_forward_steps tr m x1 x2 y :
  Up_forward tr m x1 x2 = Ok y ->
  exists u p c,
    upsampler_forward (up_up m) x1 = Ok u
    /\ (let diffY := (Z.of_nat (sH (tshape x2)) - Z.of_nat (sH (tshape u)))%Z in
        let diffX := (Z.of_nat (sW (tshape x2)) - Z.of_nat (sW (tshape u)))%Z in
        pad u (diffX / 2) (diffX - diffX / 2) (diffY / 2) (diffY - diffY / 2) = Ok p)
    /\ cat1 x2 p = Ok c
    /\ DoubleConv_forward tr (up_conv m) c = Ok y.
Proof.
  unfold Up_forward; intros E.
  apply bind_Ok in E as (u & Eu & E); cbv zeta in E.
  apply bind_Ok in E as (p & Ep & E).
  apply bind_Ok in E as (c & Ec & E).
  exists u, p, c; auto.
Qed.

(** C3: [Up.forward(x1, x2)] upsamples [x1] to twice its height and width,
    pads it with [diff // 2] leading and [diff - diff // 2] trailing rows and
    columns ([diff] the size difference to [x2]) so that its height and width
    are those of [x2], concatenates [x2] (channels [0 .. C2-1]) before it
    along the channel axis, and applies the [DoubleConv]; the result has the
    height and width of [x2], whatever their parity.  With bilinear
    upsampling, an [x1] with positive channels, height and width, an [x2] of
    positive height and width and the same batch, and [C2 + C1 = in_channels]
    (out_channels >= 1, batch norm usable) always succeed. *)
Theorem Up_output_has_skip_size tr cin cout bilinear norm leaky m x1 x2 :
  Up_init cin cout bilinear norm leaky m ->
  (forall y, Up_forward tr m x1 x2 = Ok y ->
   exists u p c,
     upsampler_forward (up_up m) x1 = Ok u
     /\ sH (tshape u) = 2 * sH (tshape x1) /\ sW (tshape u) = 2 * sW (tshape x1)
     /\ (let diffY := (Z.of_nat (sH (tshape x2)) - Z.of_nat (sH (tshape u)))%Z in
         let diffX := (Z.of_nat (sW (tshape x2)) - Z.of_nat (sW (tshape u)))%Z in
         pad u (diffX / 2) (diffX - diffX / 2) (diffY / 2) (diffY - diffY / 2) = Ok p)
     /\ sH (tshape p) = sH (tshape x2) /\ sW (tshape p) = sW (tshape x2)
     /\ cat1 x2 p = Ok c
     /\ (forall n ch i j, tval c n ch i j =
           if ch <? sC (tshape x2) then tval x2 n ch i j
           else tval p n (ch - sC (tshape x2)) i j)
     /\ DoubleConv_forward tr (up_conv m) c = Ok y
     /\ sH (tshape y) = sH (tshape x2) /\ sW (tshape y) = sW (tshape x2))
  /\
  (bilinear = true -> 1 <= cout ->
   1 <= sC (tshape x1) -> 1 <= sH (tshape x1) -> 1 <= sW (tshape x1) ->
   1 <= sH (tshape x2) -> 1 <= sW (tshape x2) ->
   sN (tshape x1) = sN (tshape x2) ->
   sC (tshape x2) + sC (tshape x1) = cin ->
   bn_ok tr norm (sN (tshape x2)) (sH (tshape x2)) (sW (tshape x2)) ->
   exists y, Up_forward tr m x1 x2 = Ok y
             /\ tshape y = mkShape (sN (tshape x2)) cout (sH (tshape x2)) (sW (tshape x2))).
Proof.
  intros Hm; split.
  - intros y E.
    destruct (Up_forward_steps _ _ _ _ _ E) as (u & p & c & Eu & Ep & Ec & Ey).
    exists u, p, c.
    pose proof (upsampler_Ok _ _ _ Eu) as (_ & Hu1 & Hu2 & _).
    pose proof (pad_align_Ok _ _ _ _ Ep) as Hp.
    pose proof (cat1_Ok _ _ _ Ec) as (Hc & _ & _ & _ & Hv).
    pose proof (DoubleConv_spatial_Ok _ _ _ _ _ _ _ _ (proj2 Hm) Ey) as (Hy1 & Hy2).
    rewrite Hc in Hy1, Hy2; cbn [sH sW] in Hy1, Hy2.
    rewrite Hp; cbn [sH sW].
    repeat split; auto.
  - intros -> Hc Hc1 Hh Hw HH HW HN Hcin Hbn.
    apply rshape_Ok; rewrite Up_rshape.
    destruct (tshape x1) as [N1 C1 h w], (tshape x2) as [N2 C2 H W];
      cbn [sN sC sH sW] in *; subst N1.
    apply (Up_shape_ok _ _ _ _ _ _ _ _ _ _ _ _ _ Hm); auto.
Qed.

(** An odd skip size: [x1] 1x1x2x2 upsampled to 4x4 and padded by one
    trailing row and column to [x2]'s 5x5. *)
Lemma Up_output_has_skip_size_witness :
  exists y, Up_forward false (zero_Up 2 1 true false true)
              (const_tensor (mkShape 1 1 2 2) 1%R) (const_tensor (mkShape 1 1 5 5) 1%R) = Ok y
            /\ tshape y = mkShape 1 1 5 5
            /\ sH (tshape y) = 5 /\ sW (tshape y) = 5.
Proof.
  destruct (Up_output_has_skip_size false 2 1 true false true (zero_Up 2 1 true false true)
              (const_tensor (mkShape 1 1 2 2) 1%R) (const_tensor (mkShape 1 1 5 5) 1%R)
              (zero_Up_init 2 1 true false true)) as [Hdec Hok].
  destruct (Hok eq_refl) as (y & Ey & Hy);
    [simpl; lia | simpl; lia | simpl; lia | simpl; lia | simpl; lia | simpl; lia
    | reflexivity | reflexivity | left; reflexivity |].
  exists y; split; [exact Ey|]; split; [exact Hy|].
  destruct (Hdec y Ey) as (u & p & c & _ & _ & _ & _ & _ & _ & _ & _ & _ & Hh & Hw).
  split; [exact Hh | exact Hw].
Defined.



(** ** C9: attention layers and [channel // 8] *)

Lemma conv_decl_out cin cout k p l :
  conv_decl cin cout k p l -> exists c, l = LConv2d c /\ cv_out c = cout.
Proof. intros (c & -> & Hc); inversion Hc; eauto. Qed.

Lemma conv_out0_shape tr c rest s :
  cv_out c = 0 -> sequential_shape (layer_shape tr) (LConv2d c :: rest) s = Err ConvWeightDim0.
Proof. intros H0; cbn [sequential_shape layer_shape]; unfold conv2d_shape; rewrite H0; reflexivity. Qed.

(** C9: [PALayer(channel)] and [CALayer(channel)] with [channel < 8] declare
    their first 1x1 convolution with [channel // 8 = 0] output channels, and
    their forward pass fails on every input; with [channel >= 8] both run on
    every input with [channel] channels and positive height and width, and
    keep its shape. *)
Theorem attention_layers_need_8_channels tr channel pm cm :
  PALayer_init channel pm -> CALayer_init channel cm ->
  (channel < 8 ->
   (exists c rest, pa pm = LConv2d c :: rest /\ cv_out c = 0)
   /\ (exists c rest, ca cm = LConv2d c :: rest /\ cv_out c = 0)
   /\ forall x, (exists e, PALayer_forward tr pm x = Err e)
                /\ (exists e, CALayer_forward tr cm x = Err e))
  /\
  (8 <= channel ->
   forall x, sC (tshape x) = channel -> 1 <= sH (tshape x) -> 1 <= sW (tshape x) ->
   (exists y, PALayer_forward tr pm x = Ok y /\ tshape y = tshape x)
   /\ (exists y, CALayer_forward tr cm x = Ok y /\ tshape y = tshape x)).
Proof.
  intros Hp Hc; split.
  - intros Hlt.
    assert (H0 : channel / 8 = 0) by (apply Nat.div_small; exact Hlt).
    destruct Hp as (p1 & p3 & Hpm & Hp1 & _), Hc as (c1 & c3 & Hcm & Hc1 & _).
    apply conv_decl_out in Hp1 as (cp & -> & Hcp); apply conv_decl_out in Hc1 as (cc & -> & Hcc).
    rewrite H0 in Hcp, Hcc.
    split; [eauto|]; split; [eauto|]; intros x; split.
    + destruct (PALayer_forward tr pm x) as [y|e] eqn:E; [exfalso|eauto].
      assert (Es : PALayer_shape tr pm (tshape x) = Ok (tshape y))
        by (rewrite <- PALayer_rshape, E; reflexivity).
      unfold PALayer_shape in Es; rewrite Hpm, conv_out0_shape in Es by exact Hcp.
      discriminate.
    + destruct (CALayer_forward tr cm x) as [y|e] eqn:E; [exfalso|eauto].
      assert (Es : CALayer_shape tr cm (tshape x) = Ok (tshape y))
        by (rewrite <- CALayer_rshape, E; reflexivity).
      unfold CALayer_shape in Es; apply bind_Ok in Es as (s & _ & Es).
      rewrite Hcm, conv_out0_shape in Es by exact Hcc.
      discriminate.
  - intros H8 x Hx Hh Hw; split; apply rshape_Ok.
    + rewrite PALayer_rshape; destruct (tshape x) as [N C H W]; cbn [sC sH sW] in *; subst C.
      apply PALayer_shape_ok; auto.
    + rewrite CALayer_rshape; destruct (tshape x) as [N C H W]; cbn [sC sH sW] in *; subst C.
      apply CALayer_shape_ok; auto.
Qed.

(** [channel = 4] fails, [channel = 8] runs, on 1x4x2x2 and 1x8x2x2 inputs. *)
Lemma attention_layers_need_8_channels_witness :
  (exists e, PALayer_forward false (zero_PALayer 4) (const_tensor (mkShape 1 4 2 2) 1%R) = Err e)
  /\ (exists e, CALayer_forward false (zero_CALayer 4) (const_tensor (mkShape 1 4 2 2) 1%R) = Err e)
  /\ (exists y, PALayer_forward false (zero_PALayer 8) (const_tensor (mkShape 1 8 2 2) 1%R) = Ok y
                /\ tshape y = mkShape 1 8 2 2)
  /\ (exists y, CALayer_forward false (zero_CALayer 8) (const_tensor (mkShape 1 8 2 2) 1%R) = Ok y
                /\ tshape y = mkShape 1 8 2 2).
Proof.
  destruct (attention_layers_need_8_channels false 4 (zero_PALayer 4) (zero_CALayer 4)
              (zero_PALayer_init 4) (zero_CALayer_init 4)) as [H4 _].
  destruct (attention_layers_need_8_channels false 8 (zero_PALayer 8) (zero_CALayer 8)
              (zero_PALayer_init 8) (zero_CALayer_init 8)) as [_ H8].
  destruct (H4 ltac:(lia)) as (_ & _ & Hf).
  destruct (Hf (const_tensor (mkShape 1 4 2 2) 1%R)) as [Ha Hb].
  destruct (H8 ltac:(lia) (const_tensor (mkShape 1 8 2 2) 1%R)) as [Hc Hd];
    [reflexivity | simpl; lia | simpl; lia |].
  split; [exact Ha|]; split; [exact Hb|]; split; [exact Hc | exact Hd].
Defined.

(** ** C2: attention gates *)

Lemma sigmoid_bounds r : (0 < sigmoid r < 1)%R.
Proof.
  unfold sigmoid; pose proof (exp_pos (- r)); split.
  - apply Rinv_0_lt_compat; lra.
  - rewrite <- Rinv_1; apply Rinv_lt_contravar; lra.
Qed.

Lemma bidx_lt d k : k < d -> bidx d k = k.
Proof. unfold bidx; destruct (d =? 1) eqn:E; [apply Nat.eqb_eq in E; lia | reflexivity]. Qed.

Lemma conv2d_Ok c x y : conv2d c x = Ok y ->
  conv2d_shape c (tshape x) = Ok (tshape y) /\ tval y = conv2d_val c x.
Proof. apply lift_Ok. Qed.

Lemma conv1_Ok cin cout c x y :
  conv_cfg c = (cin, cout, 1, 0) -> conv2d c x = Ok y ->
  sC (tshape x) = cin /\ tshape y = mkShape (sN (tshape x)) cout (sH (tshape x)) (sW (tshape x)).
Proof.
  intros Hc E; apply conv2d_Ok in E as [E _].
  apply (conv1_decl_Ok false cin cout (LConv2d c)); [exists c; auto | exact E].
Qed.

(** Pixel attention: when [PALayer(channel).forward(x)] returns [y], the
    gate is [sigmoid(conv3(relu(conv1(x))))] with 1x1 convolutions
    [channel -> channel // 8 -> 1], it has shape (N, 1, H, W) and values in
    [0, 1], and [y] has the shape of [x] with
    [y[n,c,i,j] = x[n,c,i,j] * gate[n,0,i,j]]. *)
Lemma PALayer_gate_Ok tr channel m x y :
  PALayer_init channel m -> PALayer_forward tr m x = Ok y ->
  tshape y = tshape x
  /\ exists c1 c3 h1 h3,
       pa m = [LConv2d c1; LReLU; LConv2d c3; LSigmoid]
       /\ conv_cfg c1 = (channel, channel / 8, 1, 0) /\ conv_cfg c3 = (channel / 8, 1, 1, 0)
       /\ conv2d c1 x = Ok h1 /\ conv2d c3 (tmap relu h1) = Ok h3
       /\ sequential (layer_forward tr) (pa m) x = Ok (tmap sigmoid h3)
       /\ tshape (tmap sigmoid h3) = mkShape (sN (tshape x)) 1 (sH (tshape x)) (sW (tshape x))
       /\ (forall n c i j, (0 <= tval (tmap sigmoid h3) n c i j <= 1)%R)
       /\ (forall n c i j, n < sN (tshape x) -> c < sC (tshape x) ->
             i < sH (tshape x) -> j < sW (tshape x) ->
             tval y n c i j = (tval x n c i j * tval (tmap sigmoid h3) n 0 i j)%R).
Proof.
  intros (l1 & l3 & Hm & (c1 & -> & Hc1) & (c3 & -> & Hc3)) E.
  unfold PALayer_forward in E; rewrite Hm in E; apply bind_Ok in E as (g & Eg & Em).
  pose proof Eg as Eg'.
  cbn [sequential layer_forward] in Eg; apply bind_Ok in Eg as (h1 & E1 & Eg).
  cbn [bind] in Eg; apply bind_Ok in Eg as (h3 & E3 & Eg); cbn [bind] in Eg.
  inversion Eg; subst g; clear Eg.
  pose proof (conv1_Ok _ _ _ _ _ Hc1 E1) as (_ & Hh1).
  pose proof (conv1_Ok _ _ _ _ _ Hc3 E3) as (_ & Hh3).
  cbn [tmap tshape] in Hh3; rewrite Hh1 in Hh3; cbn [sN sH sW] in Hh3.
  apply lift_Ok in Em as [Sm Vm]; cbn [tmap tshape] in Sm; rewrite Hh3 in Sm.
  unfold mul_shape in Sm; cbn [sN sC sH sW] in Sm; rewrite !bdim_refl, bdim_1_r in Sm.
  assert (Hy : tshape y = tshape x)
    by (inversion Sm; destruct (tshape x); reflexivity).
  split; [exact Hy|].
  exists c1, c3, h1, h3; repeat split; auto; try (rewrite Hm; exact Eg').
  - cbn [tmap tval]; pose proof (sigmoid_bounds (tval h3 n c i j)); lra.
  - cbn [tmap tval]; pose proof (sigmoid_bounds (tval h3 n c i j)); lra.
  - intros n c i j Hn Hc Hi Hj; rewrite Vm; unfold bval; cbv zeta; cbn [tmap tshape tval].
    rewrite Hh3; cbn [sN sC sH sW].
    rewrite (bidx_lt _ n Hn), (bidx_lt _ c Hc), (bidx_lt _ i Hi), (bidx_lt _ j Hj).
    reflexivity.
Qed.

(** Channel attention: when [CALayer(channel).forward(x)] returns [y],
    the gate is [sigmoid(conv3(relu(conv1(p))))] with [p] the spatial mean
    of [x] (shape (N, C, 1, 1)) and 1x1 convolutions
    [channel -> channel // 8 -> channel]; it has shape (N, C, 1, 1) and
    values in [0, 1], and [y] has the shape of [x] with
    [y[n,c,i,j] = x[n,c,i,j] * gate[n,c,0,0]]. *)
Lemma CALayer_gate_Ok tr channel m x y :
  CALayer_init channel m -> CALayer_forward tr m x = Ok y ->
  tshape y = tshape x
  /\ exists c1 c3 p h1 h3,
       ca m = [LConv2d c1; LReLU; LConv2d c3; LSigmoid]
       /\ conv_cfg c1 = (channel, channel / 8, 1, 0) /\ conv_cfg c3 = (channel / 8, channel, 1, 0)
       /\ adaptive_avg_pool1 x = Ok p
       /\ tshape p = mkShape (sN (tshape x)) (sC (tshape x)) 1 1
       /\ (forall n c, tval p n c 0 0 =
             (rsum (sH (tshape x)) (fun i => rsum (sW (tshape x)) (fun j => tval x n c i j))
              / INR (sH (tshape x) * sW (tshape x)))%R)
       /\ conv2d c1 p = Ok h1 /\ conv2d c3 (tmap relu h1) = Ok h3
       /\ sequential (layer_forward tr) (ca m) p = Ok (tmap sigmoid h3)
       /\ tshape (tmap sigmoid h3) = mkShape (sN (tshape x)) (sC (tshape x)) 1 1
       /\ (forall n c i j, (0 <= tval (tmap sigmoid h3) n c i j <= 1)%R)
       /\ (forall n c i j, n < sN (tshape x) -> c < sC (tshape x) ->
             i < sH (tshape x) -> j < sW (tshape x) ->
             tval y n c i j = (tval x n c i j * tval (tmap sigmoid h3) n c 0 0)%R).
Proof.
  intros (l1 & l3 & Hm & (c1 & -> & Hc1) & (c3 & -> & Hc3)) E.
  unfold CALayer_forward in E; apply bind_Ok in E as (p & Ep & E).
  rewrite Hm in E; apply bind_Ok in E as (g & Eg & Em).
  pose proof Eg as Eg'.
  cbn [sequential layer_forward] in Eg; apply bind_Ok in Eg as (h1 & E1 & Eg).
  cbn [bind] in Eg; apply bind_Ok in Eg as (h3 & E3 & Eg); cbn [bind] in Eg.
  inversion Eg; subst g; clear Eg.
  pose proof Ep as Ep'; unfold adaptive_avg_pool1 in Ep; apply lift_Ok in Ep as [Sp Vp].
  unfold adaptive_avg_pool1_shape in Sp.
  inversion Sp as [Hp]; clear Sp.
  pose proof (conv1_Ok _ _ _ _ _ Hc1 E1) as (Hpc & Hh1).
  pose proof (conv1_Ok _ _ _ _ _ Hc3 E3) as (_ & Hh3).
  rewrite <- Hp in Hpc, Hh1; cbn [sN sC sH sW] in Hpc, Hh1.
  cbn [tmap tshape] in Hh3; rewrite Hh1 in Hh3; cbn [sN sH sW] in Hh3.
  rewrite <- Hpc in Hh3.
  apply lift_Ok in Em as [Sm Vm]; cbn [tmap tshape] in Sm; rewrite Hh3 in Sm.
  unfold mul_shape in Sm; cbn [sN sC sH sW] in Sm; rewrite !bdim_refl, !bdim_1_r in Sm.
  assert (Hy : tshape y = tshape x)
    by (inversion Sm; destruct (tshape x); reflexivity).
  split; [exact Hy|].
  exists c1, c3, p, h1, h3; repeat split; auto; try (rewrite Hm; exact Eg');
    try (symmetry; exact Hp).
  - intros n c; rewrite Vp; reflexivity.
  - cbn [tmap tval]; pose proof (sigmoid_bounds (tval h3 n c i j)); lra.
  - cbn [tmap tval]; pose proof (sigmoid_bounds (tval h3 n c i j)); lra.
  - intros n c i j Hn Hc Hi Hj; rewrite Vm; unfold bval; cbv zeta; cbn [tmap tshape tval].
    rewrite Hh3; cbn [sN sC sH sW].
    rewrite (bidx_lt _ n Hn), (bidx_lt _ c Hc), (bidx_lt _ i Hi), (bidx_lt _ j Hj).
    reflexivity.
Qed.

(** C2: [PALayer(channel)] and [CALayer(channel)] with [channel >= 8] run on
    every input with [channel] channels and positive height and width; when
    either returns [y] for an input [x], [y] has the shape of [x] and is [x]
    times a gate with values in [0, 1], broadcast: for [PALayer] the gate is
    [sigmoid(conv3(relu(conv1(x))))], 1x1 convolutions
    [channel -> channel // 8 -> 1], of shape (N, 1, H, W), and
    [y[n,c,i,j] = x[n,c,i,j] * gate[n,0,i,j]]; for [CALayer] it is
    [sigmoid(conv3(relu(conv1(p))))] with [p] the spatial mean of [x],
    1x1 convolutions [channel -> channel // 8 -> channel], of shape
    (N, C, 1, 1), and [y[n,c,i,j] = x[n,c,i,j] * gate[n,c,0,0]]. *)
Theorem attention_layers_gate_input tr channel pm cm x :
  PALayer_init channel pm -> CALayer_init channel cm ->
  (8 <= channel -> sC (tshape x) = channel -> 1 <= sH (tshape x) -> 1 <= sW (tshape x) ->
   is_ok (PALayer_forward tr pm x) = true /\ is_ok (CALayer_forward tr cm x) = true)
  /\
  (forall y, PALayer_forward tr pm x = Ok y ->
    tshape y = tshape x
    /\ exists c1 c3 h1 h3,
         pa pm = [LConv2d c1; LReLU; LConv2d c3; LSigmoid]
         /\ conv_cfg c1 = (channel, channel / 8, 1, 0) /\ conv_cfg c3 = (channel / 8, 1, 1, 0)
         /\ conv2d c1 x = Ok h1 /\ conv2d c3 (tmap relu h1) = Ok h3
         /\ sequential (layer_forward tr) (pa pm) x = Ok (tmap sigmoid h3)
         /\ tshape (tmap sigmoid h3) = mkShape (sN (tshape x)) 1 (sH (tshape x)) (sW (tshape x))
         /\ (forall n c i j, (0 <= tval (tmap sigmoid h3) n c i j <= 1)%R)
         /\ (forall n c i j, n < sN (tshape x) -> c < sC (tshape x) ->
               i < sH (tshape x) -> j < sW (tshape x) ->
               tval y n c i j = (tval x n c i j * tval (tmap sigmoid h3) n 0 i j)%R))
  /\
  (forall y, CALayer_forward tr cm x = Ok y ->
    tshape y = tshape x
    /\ exists c1 c3 p h1 h3,
         ca cm = [LConv2d c1; LReLU; LConv2d c3; LSigmoid]
         /\ conv_cfg c1 = (channel, channel / 8, 1, 0) /\ conv_cfg c3 = (channel / 8, channel, 1, 0)
         /\ adaptive_avg_pool1 x = Ok p
         /\ tshape p = mkShape (sN (tshape x)) (sC (tshape x)) 1 1
         /\ (forall n c, tval p n c 0 0 =
               (rsum (sH (tshape x)) (fun i => rsum (sW (tshape x)) (fun j => tval x n c i j))
                / INR (sH (tshape x) * sW (tshape x)))%R)
         /\ conv2d c1 p = Ok h1 /\ conv2d c3 (tmap relu h1) = Ok h3
         /\ sequential (layer_forward tr) (ca cm) p = Ok (tmap sigmoid h3)
         /\ tshape (tmap sigmoid h3) = mkShape (sN (tshape x)) (sC (tshape x)) 1 1
         /\ (forall n c i j, (0 <= tval (tmap sigmoid h3) n c i j <= 1)%R)
         /\ (forall n c i j, n < sN (tshape x) -> c < sC (tshape x) ->
               i < sH (tshape x) -> j < sW (tshape x) ->
               tval y n c i j = (tval x n c i j * tval (tmap sigmoid h3) n c 0 0)%R)).
Proof.
  intros Hp Hc; split; [|split].
  - intros H8 Hx Hh Hw.
    assert (Hs : tshape x = mkShape (sN (tshape x)) channel (sH (tshape x)) (sW (tshape x)))
      by (rewrite <- Hx; destruct (tshape x); reflexivity).
    split.
    + destruct (rshape_Ok (PALayer_forward tr pm x) (tshape x)) as (y & -> & _); [|reflexivity].
      rewrite PALayer_rshape, Hs; apply PALayer_shape_ok; auto.
    + destruct (rshape_Ok (CALayer_forward tr cm x) (tshape x)) as (y & -> & _); [|reflexivity].
      rewrite CALayer_rshape, Hs; apply CALayer_shape_ok; auto.
  - intros y E; exact (PALayer_gate_Ok _ _ _ _ _ Hp E).
  - intros y E; exact (CALayer_gate_Ok _ _ _ _ _ Hc E).
Qed.

(** [PALayer(8)] and [CALayer(8)] on a 1x8x2x2 input. *)
Lemma attention_layers_gate_input_witness :
  (exists y, PALayer_forward false (zero_PALayer 8) (const_tensor (mkShape 1 8 2 2) 1%R) = Ok y
             /\ tshape y = mkShape 1 8 2 2)
  /\ (exists y, CALayer_forward false (zero_CALayer 8) (const_tensor (mkShape 1 8 2 2) 1%R) = Ok y
                /\ tshape y = mkShape 1 8 2 2).
Proof.
  destruct (attention_layers_gate_input false 8 (zero_PALayer 8) (zero_CALayer 8)
              (const_tensor (mkShape 1 8 2 2) 1%R) (zero_PALayer_init 8) (zero_CALayer_init 8))
    as (Hok & Hpa & Hca).
  destruct (Hok ltac:(lia) eq_refl ltac:(simpl; lia) ltac:(simpl; lia)) as [Op Oc].
  split.
  - destruct (PALayer_forward false (zero_PALayer 8) (const_tensor (mkShape 1 8 2 2) 1%R))
      as [y|e] eqn:E; [|discriminate].
    exists y; split; [reflexivity|]; exact (proj1 (Hpa y eq_refl)).
  - destruct (CALayer_forward false (zero_CALayer 8) (const_tensor (mkShape 1 8 2 2) 1%R))
      as [y|e] eqn:E; [|discriminate].
    exists y; split; [reflexivity|]; exact (proj1 (Hca y eq_refl)).
Defined.

(** ** C5: [OutConv] *)

Lemma rsum_0 n f : (forall k, f k = 0%R) -> rsum n f = 0%R.
Proof. intros Hf; induction n as [|n IH]; simpl; [reflexivity | rewrite IH, Hf; lra]. Qed.

(** C5: [OutConv(in, out, act=True)] returns values in [0, 1] whenever it
    returns; [OutConv(in, out, act=False)] returns exactly what its one
    3x3, padding-1 convolution returns; and for every [in, out >= 1] some
    weights and input make [OutConv(in, out, act=False)] return a negative
    value. *)
Theorem OutConv_output_range tr cin cout :
  (forall m x y, OutConv_init cin cout true m -> OutConv_forward tr m x = Ok y ->
     forall n c i j, (0 <= tval y n c i j <= 1)%R)
  /\ (forall m x, OutConv_init cin cout false m ->
        exists c, oc_conv m = [LConv2d c; LIdentity] /\ conv_cfg c = (cin, cout, 3, 1)
                  /\ OutConv_forward tr m x = conv2d c x)
  /\ (1 <= cin -> 1 <= cout ->
      exists m x y, OutConv_init cin cout false m /\ OutConv_forward tr m x = Ok y
                    /\ (tval y 0 0 0 0 < 0)%R).
Proof.
  split; [|split].
  - intros m x y (l1 & Hm & (c & -> & Hc)) E n ch i j.
    unfold OutConv_forward in E; rewrite Hm in E; cbn [sequential layer_forward] in E.
    apply bind_Ok in E as (h & _ & E); cbn [bind] in E; inversion E; subst y.
    cbn [tmap tval]; pose proof (sigmoid_bounds (tval h n ch i j)); lra.
  - intros m x (l1 & Hm & (c & -> & Hc)); exists c; split; [exact Hm|]; split; [exact Hc|].
    unfold OutConv_forward; rewrite Hm; cbn [sequential layer_forward].
    destruct (conv2d c x); reflexivity.
  - intros Hi Ho.
    set (c := mkConv2d cin cout 3 1 (fun _ _ _ _ => 0%R) (fun _ => (-1)%R)).
    exists (mkOutConv [LConv2d c; LIdentity]), (const_tensor (mkShape 1 cin 1 1) 0%R).
    assert (Ec : conv2d_shape c (mkShape 1 cin 1 1) = Ok (mkShape 1 cout 1 1)).
    { unfold conv2d_shape; cbn [c cv_in cv_out cv_k cv_pad sN sC sH sW].
      replace (cout =? 0) with false by (symmetry; apply Nat.eqb_neq; lia).
      rewrite Nat.eqb_refl; reflexivity. }
    eexists; split; [|split].
    + exists (LConv2d c); split; [reflexivity|]; exists c; split; reflexivity.
    + unfold OutConv_forward; cbn [oc_conv sequential layer_forward].
      unfold conv2d, lift; cbn [const_tensor tshape]; rewrite Ec; reflexivity.
    + cbn [tval]; unfold conv2d_val; cbn [c cv_bias cv_in cv_k cv_weight].
      rewrite rsum_0; [lra|].
      intros k; apply rsum_0; intros a; apply rsum_0; intros b; lra.
Qed.

(** [OutConv(1, 1)] on a 1x1x2x2 input, with both flags. *)
Lemma OutConv_output_range_witness :
  (exists y, OutConv_forward false (zero_OutConv 1 1 true)
               (const_tensor (mkShape 1 1 2 2) 5%R) = Ok y
             /\ (0 <= tval y 0 0 0 0 <= 1)%R)
  /\ (exists c, OutConv_forward false (zero_OutConv 1 1 false)
                  (const_tensor (mkShape 1 1 2 2) 5%R)
                = conv2d c (const_tensor (mkShape 1 1 2 2) 5%R))
  /\ (exists m x y, OutConv_init 1 1 false m /\ OutConv_forward false m x = Ok y
                    /\ (tval y 0 0 0 0 < 0)%R).
Proof.
  destruct (OutConv_output_range false 1 1) as (Ht & Hf & Hn).
  split; [|split].
  - destruct (rshape_Ok (OutConv_forward false (zero_OutConv 1 1 true)
                            (const_tensor (mkShape 1 1 2 2) 5%R)) (mkShape 1 1 2 2))
      as (y & E & _); [rewrite OutConv_rshape; vm_compute; reflexivity|].
    exists y; split; [exact E|].
    exact (Ht _ _ y (zero_OutConv_init 1 1 true) E 0 0 0 0).
  - destruct (Hf _ (const_tensor (mkShape 1 1 2 2) 5%R) (zero_OutConv_init 1 1 false))
      as (c & _ & _ & E).
    exists c; exact E.
  - apply Hn; lia.
Defined.

(** ** C6: the attentive blocks *)

Lemma attention_seq tr C ms :
  attention_init C ms ->
  exists ca pa, CALayer_init C ca /\ PALayer_init C pa
    /\ forall y, sequential (attention_forward tr) ms y
                 = (z <- CALayer_forward tr ca y ;; PALayer_forward tr pa z).
Proof.
  intros (c & p & -> & Hc & Hp); exists c, p; split; [exact Hc|]; split; [exact Hp|].
  intros y; cbn [sequential attention_forward].
  destruct (CALayer_forward tr c y) as [z|e]; cbn [bind]; [|reflexivity].
  destruct (PALayer_forward tr p z); reflexivity.
Qed.

(** C6: [AttentiveDown(in, out, norm, leaky)] computes
    [PALayer(out)(CALayer(out)(Down(in, out, norm, leaky)(x)))], and
    likewise [AttentiveUp] around [Up(in, out, bilinear, norm, leaky)] and
    [AttentiveDoubleConv] around [DoubleConv(in, out, norm, leaky)]: the
    wrapped block is built with the wrapper's arguments, and an error of the
    wrapped block or of a gate is the wrapper's error. *)
Theorem attentive_blocks_gate_base tr :
  (forall cin cout norm leaky m, AttentiveDown_init cin cout norm leaky m ->
     exists ca pa, Down_init cin cout norm leaky (ad_down m)
       /\ CALayer_init cout ca /\ PALayer_init cout pa
       /\ forall x, AttentiveDown_forward tr m x
                    = (y <- Down_forward tr (ad_down m) x ;;
                       z <- CALayer_forward tr ca y ;; PALayer_forward tr pa z))
  /\ (forall cin cout bilinear norm leaky m, AttentiveUp_init cin cout bilinear norm leaky m ->
     exists ca pa, Up_init cin cout bilinear norm leaky (au_up m)
       /\ CALayer_init cout ca /\ PALayer_init cout pa
       /\ forall x1 x2, AttentiveUp_forward tr m x1 x2
                        = (y <- Up_forward tr (au_up m) x1 x2 ;;
                           z <- CALayer_forward tr ca y ;; PALayer_forward tr pa z))
  /\ (forall cin cout norm leaky m, AttentiveDoubleConv_init cin cout norm leaky m ->
     exists ca pa, DoubleConv_init cin cout norm leaky (adc_conv m)
       /\ CALayer_init cout ca /\ PALayer_init cout pa
       /\ forall x, AttentiveDoubleConv_forward tr m x
                    = (y <- DoubleConv_forward tr (adc_conv m) x ;;
                       z <- CALayer_forward tr ca y ;; PALayer_forward tr pa z)).
Proof.
  split; [|split].
  - intros cin cout norm leaky m [Hd Ha].
    destruct (attention_seq tr _ _ Ha) as (c & p & Hc & Hp & Hs).
    exists c, p; split; [exact Hd|]; split; [exact Hc|]; split; [exact Hp|].
    intros x.
    unfold AttentiveDown_forward; destruct (Down_forward tr (ad_down m) x); cbn [bind];
      [apply Hs | reflexivity].
  - intros cin cout bilinear norm leaky m [Hd Ha].
    destruct (attention_seq tr _ _ Ha) as (c & p & Hc & Hp & Hs).
    exists c, p; split; [exact Hd|]; split; [exact Hc|]; split; [exact Hp|].
    intros x1 x2.
    unfold AttentiveUp_forward; destruct (Up_forward tr (au_up m) x1 x2); cbn [bind];
      [apply Hs | reflexivity].
  - intros cin cout norm leaky m [Hd Ha].
    destruct (attention_seq tr _ _ Ha) as (c & p & Hc & Hp & Hs).
    exists c, p; split; [exact Hd|]; split; [exact Hc|]; split; [exact Hp|].
    intros x.
    unfold AttentiveDoubleConv_forward; destruct (DoubleConv_forward tr (adc_conv m) x);
      cbn [bind]; [apply Hs | reflexivity].
Qed.

(** The blocks of [FuseNet(1, 1)] with zero weights. *)
Lemma attentive_blocks_gate_base_witness :
  (exists ca pa, forall x,
      AttentiveDown_forward false (f_down1 (zero_FuseNet 1 1 false)) x
      = (y <- Down_forward false (zero_Down 32 64 false false) x ;;
         z <- CALayer_forward false ca y ;; PALayer_forward false pa z))
  /\ (exists ca pa, forall x1 x2,
      AttentiveUp_forward false (f_up1 (zero_FuseNet 1 1 false)) x1 x2
      = (y <- Up_forward false (zero_Up 128 32 true false false) x1 x2 ;;
         z <- CALayer_forward false ca y ;; PALayer_forward false pa z))
  /\ (exists ca pa, forall x,
      AttentiveDoubleConv_forward false (f_inc (zero_FuseNet 1 1 false)) x
      = (y <- DoubleConv_forward false (zero_DoubleConv 1 32 false false) x ;;
         z <- CALayer_forward false ca y ;; PALayer_forward false pa z)).
Proof.
  destruct (attentive_blocks_gate_base false) as (Hd & Hu & Hc).
  destruct (zero_FuseNet_init 1 1 false) as (Hi & Hd1 & _ & Hu1 & _).
  split; [|split].
  - destruct (Hd _ _ _ _ _ Hd1) as (c & p & _ & _ & _ & E); exists c, p; exact E.
  - destruct (Hu _ _ _ _ _ _ Hu1) as (c & p & _ & _ & _ & E); exists c, p; exact E.
  - destruct (Hc _ _ _ _ _ Hi) as (c & p & _ & _ & _ & E); exists c, p; exact E.
Defined.

(** ** C4: IAN and ANSN *)

Lemma BaseNet_forward_features tr net x :
  BaseNet_forward tr net x = (z <- BaseNet_features tr net x ;; OutConv_forward tr (outc net) z).
Proof.
  unfold BaseNet_forward, BaseNet_features.
  repeat (match goal with
          | |- bind ?m _ = bind (bind ?m _) _ => destruct m; cbn [bind]; try reflexivity
          end).
Qed.

(** C4: IAN and ANSN built with the same arguments and carrying the same
    weights compute the same features and the same final 3x3 convolution
    [c] of them (the pre-activation tensor, which is ANSN's output); IAN
    returns the sigmoid of it elementwise: [IAN(x) = sigmoid(ANSN(x))],
    errors included. *)
Theorem IAN_ANSN_differ_in_output_activation tr cin cout norm ian ansn x :
  IAN_init cin cout norm ian -> ANSN_init cin cout norm ansn -> same_weights ian ansn ->
  BaseNet_features tr ian x = BaseNet_features tr ansn x
  /\ exists c, conv_cfg c = (32, cout, 3, 1)
     /\ BaseNet_forward tr ansn x = (z <- BaseNet_features tr ansn x ;; conv2d c z)
     /\ BaseNet_forward tr ian x
        = (z <- BaseNet_features tr ian x ;; rmap (tmap sigmoid) (conv2d c z))
     /\ BaseNet_forward tr ian x = rmap (tmap sigmoid) (BaseNet_forward tr ansn x).
Proof.
  intros [_ (l1 & Hi & (c & -> & Hc))] [_ (l2 & Ha & (c' & -> & _))]
         (E1 & E2 & E3 & E4 & E5 & E6 & E7 & E8).
  rewrite Hi, Ha in E8; cbn [hd_error] in E8; inversion E8; subst c'; clear E8.
  assert (Hf : BaseNet_features tr ian x = BaseNet_features tr ansn x)
    by (unfold BaseNet_features; rewrite E1, E2, E3, E4, E5, E6, E7; reflexivity).
  assert (Oi : forall z, OutConv_forward tr (outc ian) z = rmap (tmap sigmoid) (conv2d c z)).
  { intros z; unfold OutConv_forward; rewrite Hi; cbn [sequential layer_forward].
    destruct (conv2d c z); reflexivity. }
  assert (Oa : forall z, OutConv_forward tr (outc ansn) z = conv2d c z).
  { intros z; unfold OutConv_forward; rewrite Ha; cbn [sequential layer_forward].
    destruct (conv2d c z); reflexivity. }
  split; [exact Hf|]; exists c; split; [exact Hc|].
  rewrite !BaseNet_forward_features.
  split; [|split].
  - destruct (BaseNet_features tr ansn x); cbn [bind]; [apply Oa | reflexivity].
  - destruct (BaseNet_features tr ian x); cbn [bind]; [apply Oi | reflexivity].
  - rewrite Hf; destruct (BaseNet_features tr ansn x); cbn [bind]; [|reflexivity].
    rewrite Oi, Oa; reflexivity.
Qed.

(** IAN(1, 1) and ANSN(1, 1) with zero weights. *)
Lemma IAN_ANSN_differ_in_output_activation_witness :
  BaseNet_forward false (zero_BaseNet 1 1 true true) (const_tensor (mkShape 1 1 8 8) 1%R)
  = rmap (tmap sigmoid)
         (BaseNet_forward false (zero_BaseNet 1 1 true false)
                          (const_tensor (mkShape 1 1 8 8) 1%R)).
Proof.
  destruct (IAN_ANSN_differ_in_output_activation false 1 1 true
              (zero_BaseNet 1 1 true true) (zero_BaseNet 1 1 true false)
              (const_tensor (mkShape 1 1 8 8) 1%R))
    as (_ & c & _ & _ & _ & E).
  - split; [apply zero_BaseNet_body_init | apply zero_OutConv_init].
  - split; [apply zero_BaseNet_body_init | apply zero_OutConv_init].
  - repeat split.
  - exact E.
Defined.

(** * Further properties of networks.py *)

(** ** Samples of a batch are processed independently *)

Lemma ragree_bind n m m' (k k' : tensor -> result tensor) :
  ragree n m m' -> (forall y y', agree n y y' -> ragree n (k y) (k' y')) ->
  ragree n (bind m k) (bind m' k').
Proof.
  destruct m, m'; simpl; intros H Hk; try contradiction; [apply Hk; exact H | subst; reflexivity].
Qed.

Lemma lift_ragree n s v v' :
  (forall s', s = Ok s' -> n < sN s') -> v n = v' n -> ragree n (lift s v) (lift s v').
Proof. intros Hs Hv; destruct s as [s'|e]; simpl; [repeat split; auto | reflexivity]. Qed.

Lemma agree_Ok n x x' : agree n x x' -> ragree n (Ok x) (Ok x').
Proof. exact (fun H => H). Qed.

Lemma tmap_agree n f x x' : agree n x x' -> agree n (tmap f x) (tmap f x').
Proof.
  intros (Hs & Hn & Hv); unfold agree, tmap; cbn [tshape tval].
  split; [exact Hs|]; split; [exact Hn|]; rewrite Hv; reflexivity.
Qed.

Ltac agree_tac Hs Hv :=
  cbv beta zeta iota; rewrite ?Hs; rewrite ?Hv; reflexivity.

Lemma conv2d_ragree n c x x' : agree n x x' -> ragree n (conv2d c x) (conv2d c x').
Proof.
  intros (Hs & Hn & Hv); unfold conv2d; rewrite <- Hs; apply lift_ragree.
  - intros s' E; unfold conv2d_shape in E.
    destruct (cv_out c =? 0); [discriminate|]; destruct (negb _); [discriminate|].
    destruct (_ || _); [discriminate|]; inversion E; exact Hn.
  - unfold conv2d_val, padded; agree_tac Hs Hv.
Qed.

Lemma batch_norm_ragree n b x x' :
  agree n x x' -> ragree n (batch_norm false b x) (batch_norm false b x').
Proof.
  intros (Hs & Hn & Hv); unfold batch_norm; rewrite <- Hs; apply lift_ragree.
  - intros s' E; unfold batch_norm_shape in E; cbn [andb] in E.
    destruct (negb _); [discriminate|]; inversion E; subst; exact Hn.
  - unfold batch_norm_val; agree_tac Hs Hv.
Qed.

Lemma max_pool2_ragree n x x' : agree n x x' -> ragree n (max_pool2 x) (max_pool2 x').
Proof.
  intros (Hs & Hn & Hv); unfold max_pool2; rewrite <- Hs; apply lift_ragree.
  - intros s' E; unfold max_pool2_shape in E.
    destruct (_ || _ || _); [discriminate|].
    destruct (_ || _); [discriminate|]; inversion E; exact Hn.
  - agree_tac Hs Hv.
Qed.

Lemma adaptive_avg_pool1_ragree n x x' :
  agree n x x' -> ragree n (adaptive_avg_pool1 x) (adaptive_avg_pool1 x').
Proof.
  intros (Hs & Hn & Hv); unfold adaptive_avg_pool1; cbv zeta; rewrite <- Hs; apply lift_ragree.
  - intros s' E; unfold adaptive_avg_pool1_shape in E.
    inversion E; exact Hn.
  - agree_tac Hs Hv.
Qed.

Lemma upsample2_ragree n x x' : agree n x x' -> ragree n (upsample2 x) (upsample2 x').
Proof.
  intros (Hs & Hn & Hv); unfold upsample2; rewrite <- Hs; apply lift_ragree.
  - intros s' E; unfold upsample2_shape in E.
    destruct (_ || _); [discriminate|]; destruct (_ =? 0); [discriminate|].
    inversion E; exact Hn.
  - unfold upsample2_val; agree_tac Hs Hv.
Qed.

Lemma conv_transpose2_ragree n c x x' :
  agree n x x' -> ragree n (conv_transpose2 c x) (conv_transpose2 c x').
Proof.
  intros (Hs & Hn & Hv); unfold conv_transpose2; rewrite <- Hs; apply lift_ragree.
  - intros s' E; unfold conv_transpose2_shape in E.
    destruct (ct_in c =? 0); [discriminate|]; destruct (negb _); [discriminate|].
    destruct (_ && _ && _); [discriminate|]; inversion E; exact Hn.
  - agree_tac Hs Hv.
Qed.

Lemma pad_ragree n x x' l r t b : agree n x x' -> ragree n (pad x l r t b) (pad x' l r t b).
Proof.
  intros (Hs & Hn & Hv); unfold pad; rewrite <- Hs; apply lift_ragree.
  - intros s' E; unfold pad_shape in E; cbv zeta in E.
    destruct (negb _); [discriminate|].
    destruct (_ || _); [discriminate|]; inversion E; exact Hn.
  - unfold pad_val; agree_tac Hs Hv.
Qed.

Lemma cat1_ragree n a a' b b' :
  agree n a a' -> agree n b b' -> ragree n (cat1 a b) (cat1 a' b').
Proof.
  intros (Ha & Hna & Hva) (Hb & Hnb & Hvb); unfold cat1; rewrite <- Ha, <- Hb.
  apply lift_ragree.
  - intros s' E; unfold cat1_shape in E.
    destruct (_ && _ && _); [|discriminate]; inversion E; exact Hna.
  - cbv beta; rewrite Ha; rewrite Hva, Hvb; reflexivity.
Qed.

Lemma bdim_lt a b d n : bdim a b = Some d -> n < a -> n < b -> n < d.
Proof.
  unfold bdim; destruct (a =? b); [intros E; inversion E; subst; auto|].
  destruct (a =? 1); [intros E; inversion E; subst; auto|].
  destruct (b =? 1); intros E; inversion E; subst; auto.
Qed.

Lemma mul_ragree n x x' y y' :
  agree n x x' -> agree n y y' -> ragree n (mul x y) (mul x' y').
Proof.
  intros (Hx & Hnx & Hvx) (Hy & Hny & Hvy); unfold mul.
  assert (Hv : (fun c i j => (bval x n c i j * bval y n c i j)%R)
               = (fun c i j => (bval x' n c i j * bval y' n c i j)%R)).
  { unfold bval; cbv zeta.
    rewrite (bidx_lt _ _ Hnx), (bidx_lt _ _ Hny).
    rewrite Hx in Hnx |- *; rewrite Hy in Hny |- *.
    rewrite (bidx_lt _ _ Hnx), (bidx_lt _ _ Hny), Hvx, Hvy; reflexivity. }
  rewrite <- Hx, <- Hy; apply lift_ragree; [|exact Hv].
  intros s' E; apply mul_shape_Ok in E as (EN & _); exact (bdim_lt _ _ _ _ EN Hnx Hny).
Qed.

Lemma layer_ragree tr n l x x' :
  no_batch_stats tr l -> agree n x x' -> ragree n (layer_forward tr l x) (layer_forward tr l x').
Proof.
  intros Hl Hx; destruct l as [c|b| | |slope|]; cbn [layer_forward].
  - apply conv2d_ragree; exact Hx.
  - destruct Hl as [-> | Hl]; [apply batch_norm_ragree; exact Hx|].
    destruct (Hl b eq_refl).
  - exact Hx.
  - apply tmap_agree; exact Hx.
  - apply tmap_agree; exact Hx.
  - apply tmap_agree; exact Hx.
Qed.

Lemma sequential_ragree {A} n (f : A -> tensor -> result tensor) ms :
  (forall a, In a ms -> forall y y', agree n y y' -> ragree n (f a y) (f a y')) ->
  forall x x', agree n x x' -> ragree n (sequential f ms x) (sequential f ms x').
Proof.
  induction ms as [|a ms IH]; intros Hf x x' Hx; cbn [sequential]; [exact Hx|].
  apply ragree_bind; [apply Hf; [left; reflexivity | exact Hx]|].
  intros y y' Hy; apply IH; [intros b Hb; apply Hf; right; exact Hb | exact Hy].
Qed.

Lemma layers_ragree tr n ls x x' :
  Forall (no_batch_stats tr) ls -> agree n x x' ->
  ragree n (sequential (layer_forward tr) ls x) (sequential (layer_forward tr) ls x').
Proof.
  intros Hls; apply sequential_ragree; intros a Ha y y' Hy.
  apply layer_ragree; [rewrite Forall_forall in Hls; auto | exact Hy].
Qed.

Lemma conv_decl_nbs tr cin cout k p l : conv_decl cin cout k p l -> no_batch_stats tr l.
Proof. intros (c & -> & _); right; discriminate. Qed.

Lemma norm_decl_nbs tr norm C l :
  (tr = false \/ norm = false) -> norm_decl norm C l -> no_batch_stats tr l.
Proof.
  destruct norm; simpl.
  - intros [-> | H] _; [left; reflexivity | discriminate].
  - intros _ ->; right; discriminate.
Qed.

Lemma act_of_nbs tr leaky : no_batch_stats tr (act_of leaky).
Proof. right; destruct leaky; discriminate. Qed.

Lemma simple_nbs tr l : (l = LReLU \/ l = LSigmoid \/ l = LIdentity) -> no_batch_stats tr l.
Proof. intros [-> | [-> | ->]]; right; discriminate. Qed.

Ltac nbs_tac :=
  repeat (apply Forall_cons;
          [first [ eapply conv_decl_nbs; eassumption
                 | eapply norm_decl_nbs; [eassumption | eassumption]
                 | apply act_of_nbs
                 | apply simple_nbs; auto ] |]);
  apply Forall_nil.

Lemma DoubleConv_ragree tr cin cout norm leaky m n x x' :
  DoubleConv_init cin cout norm leaky m -> (tr = false \/ norm = false) ->
  agree n x x' -> ragree n (DoubleConv_forward tr m x) (DoubleConv_forward tr m x').
Proof.
  intros (l1 & n1 & l4 & n2 & Hm & H1 & Hn1 & H4 & Hn2) Hb.
  unfold DoubleConv_forward; rewrite Hm; apply layers_ragree.
  nbs_tac.
Qed.

Lemma OutConv_ragree tr cin cout act m n x x' :
  OutConv_init cin cout act m ->
  agree n x x' -> ragree n (OutConv_forward tr m x) (OutConv_forward tr m x').
Proof.
  intros (l1 & Hm & H1); unfold OutConv_forward; rewrite Hm; apply layers_ragree.
  destruct act; nbs_tac.
Qed.

Lemma Down_ragree tr cin cout norm leaky m n x x' :
  Down_init cin cout norm leaky m -> (tr = false \/ norm = false) ->
  agree n x x' -> ragree n (Down_forward tr m x) (Down_forward tr m x').
Proof.
  intros Hm Hb Hx; unfold Down_forward; apply ragree_bind; [apply max_pool2_ragree; exact Hx|].
  intros y y' Hy; eapply DoubleConv_ragree; eauto.
Qed.

Lemma Up_ragree tr cin cout bilinear norm leaky m n x1 x1' x2 x2' :
  Up_init cin cout bilinear norm leaky m -> (tr = false \/ norm = false) ->
  agree n x1 x1' -> agree n x2 x2' ->
  ragree n (Up_forward tr m x1 x2) (Up_forward tr m x1' x2').
Proof.
  intros [_ Hdc] Hb H1 H2; unfold Up_forward; apply ragree_bind.
  - destruct (up_up m); cbn [upsampler_forward];
      [apply upsample2_ragree | apply conv_transpose2_ragree]; exact H1.
  - intros u u' Hu; cbv zeta.
    pose proof Hu as (Hsu & _); pose proof H2 as (Hs2 & _); rewrite <- Hsu, <- Hs2.
    apply ragree_bind; [apply pad_ragree; exact Hu|].
    intros p p' Hp; apply ragree_bind; [apply cat1_ragree; assumption|].
    intros c c' Hc; eapply DoubleConv_ragree; eauto.
Qed.

Lemma PALayer_ragree tr channel m n x x' :
  PALayer_init channel m -> agree n x x' ->
  ragree n (PALayer_forward tr m x) (PALayer_forward tr m x').
Proof.
  intros (l1 & l3 & Hm & H1 & H3) Hx; unfold PALayer_forward; rewrite Hm.
  apply ragree_bind.
  - apply layers_ragree; [|exact Hx].
    nbs_tac.
  - intros y y' Hy; apply mul_ragree; assumption.
Qed.

Lemma CALayer_ragree tr channel m n x x' :
  CALayer_init channel m -> agree n x x' ->
  ragree n (CALayer_forward tr m x) (CALayer_forward tr m x').
Proof.
  intros (l1 & l3 & Hm & H1 & H3) Hx; unfold CALayer_forward; rewrite Hm.
  apply ragree_bind; [apply adaptive_avg_pool1_ragree; exact Hx|].
  intros p p' Hp; apply ragree_bind.
  - apply layers_ragree; [|exact Hp].
    nbs_tac.
  - intros y y' Hy; apply mul_ragree; assumption.
Qed.

Lemma attention_ragree tr C ms n y y' :
  attention_init C ms -> agree n y y' ->
  ragree n (sequential (attention_forward tr) ms y) (sequential (attention_forward tr) ms y').
Proof.
  intros (c & p & -> & Hc & Hp); apply sequential_ragree.
  intros a [<- | [<- | []]] z z' Hz; cbn [attention_forward];
    [eapply CALayer_ragree | eapply PALayer_ragree]; eauto.
Qed.

Lemma BaseNet_ragree tr cin cout norm act net n x x' :
  BaseNet_body_init cin norm net -> OutConv_init 32 cout act (outc net) ->
  (tr = false \/ norm = false) -> agree n x x' ->
  ragree n (BaseNet_forward tr net x) (BaseNet_forward tr net x').
Proof.
  intros (Hi & Hd1 & Hd2 & Hd3 & Hu1 & Hu2 & Hu3) Ho Hb Hx; unfold BaseNet_forward.
  apply ragree_bind; [eapply DoubleConv_ragree; eauto|]; intros x1 x1' H1.
  apply ragree_bind; [eapply Down_ragree; eauto|]; intros x2 x2' H2.
  apply ragree_bind; [eapply Down_ragree; eauto|]; intros x3 x3' H3.
  apply ragree_bind; [eapply Down_ragree; eauto|]; intros x4 x4' H4.
  apply ragree_bind; [eapply Up_ragree; eauto|]; intros y1 y1' Hy1.
  apply ragree_bind; [eapply Up_ragree; eauto|]; intros y2 y2' Hy2.
  apply ragree_bind; [eapply Up_ragree; eauto|]; intros y3 y3' Hy3.
  eapply OutConv_ragree; eauto.
Qed.

Lemma FuseNet_ragree tr cin cout norm net n x x' :
  FuseNet_init cin cout norm net -> (tr = false \/ norm = false) -> agree n x x' ->
  ragree n (FuseNet_forward tr net x) (FuseNet_forward tr net x').
Proof.
  intros ([Hi Hia] & [Hd1 Ha1] & [Hd2 Ha2] & [Hu1 Hb1] & [Hu2 Hb2] & Ho) Hb Hx.
  unfold FuseNet_forward, AttentiveDoubleConv_forward, AttentiveDown_forward,
    AttentiveUp_forward.
  apply ragree_bind; [apply ragree_bind; [eapply DoubleConv_ragree; eauto|];
                      intros; eapply attention_ragree; eauto|]; intros x1 x1' H1.
  apply ragree_bind; [apply ragree_bind; [eapply Down_ragree; eauto|];
                      intros; eapply attention_ragree; eauto|]; intros x2 x2' H2.
  apply ragree_bind; [apply ragree_bind; [eapply Down_ragree; eauto|];
                      intros; eapply attention_ragree; eauto|]; intros x3 x3' H3.
  apply ragree_bind; [apply ragree_bind; [eapply Up_ragree; eauto|];
                      intros; eapply attention_ragree; eauto|]; intros y1 y1' Hy1.
  apply ragree_bind; [apply ragree_bind; [eapply Up_ragree; eauto|];
                      intros; eapply attention_ragree; eauto|]; intros y2 y2' Hy2.
  eapply OutConv_ragree; eauto.
Qed.

Lemma agree_intro n x x' :
  tshape x = tshape x' -> n < sN (tshape x) ->
  (forall c i j, tval x n c i j = tval x' n c i j) -> agree n x x'.
Proof.
  intros Hs Hn Hv; split; [exact Hs|]; split; [exact Hn|].
  extensionality c; extensionality i; extensionality j; apply Hv.
Qed.

Lemma ragree_elim n r r' :
  ragree n r r' ->
  (exists e, r = Err e /\ r' = Err e)
  \/ (exists y y', r = Ok y /\ r' = Ok y' /\ tshape y = tshape y'
                   /\ forall c i j, tval y n c i j = tval y' n c i j).
Proof.
  destruct r as [y|e], r' as [y'|e']; simpl; try contradiction.
  - intros (Hs & _ & Hv); right; exists y, y'; repeat split; auto.
    intros c i j; rewrite Hv; reflexivity.
  - intros ->; left; eauto.
Qed.

(** In evaluation mode, or built with norm=False, BaseNet (IAN, ANSN) and
    FuseNet treat the samples of a batch independently: two inputs of the
    same shape that agree on sample [n] either make the forward pass fail
    with the same error, or give outputs of the same shape that agree on
    sample [n], whatever the other samples hold. *)
Theorem nets_process_samples_independently tr cin cout norm x x' n :
  (tr = false \/ norm = false) ->
  tshape x = tshape x' -> n < sN (tshape x) ->
  (forall c i j, tval x n c i j = tval x' n c i j) ->
  (forall act net,
     BaseNet_body_init cin norm net -> OutConv_init 32 cout act (outc net) ->
     (exists e, BaseNet_forward tr net x = Err e /\ BaseNet_forward tr net x' = Err e)
     \/ (exists y y', BaseNet_forward tr net x = Ok y /\ BaseNet_forward tr net x' = Ok y'
                      /\ tshape y = tshape y'
                      /\ forall c i j, tval y n c i j = tval y' n c i j))
  /\
  (forall net, FuseNet_init cin cout norm net ->
     (exists e, FuseNet_forward tr net x = Err e /\ FuseNet_forward tr net x' = Err e)
     \/ (exists y y', FuseNet_forward tr net x = Ok y /\ FuseNet_forward tr net x' = Ok y'
                      /\ tshape y = tshape y'
                      /\ forall c i j, tval y n c i j = tval y' n c i j)).
Proof.
  intros Hb Hs Hn Hv; pose proof (agree_intro _ _ _ Hs Hn Hv) as Hx; split.
  - intros act net Hbody Ho; apply ragree_elim; eapply BaseNet_ragree; eauto.
  - intros net Hf; apply ragree_elim; eapply FuseNet_ragree; eauto.
Qed.

(** A batch of two 8x8 images whose second sample differs. *)
Lemma nets_process_samples_independently_witness :
  let x := mkTensor (mkShape 2 1 8 8) (fun n _ _ _ => if n =? 0 then 0%R else 1%R) in
  let x' := mkTensor (mkShape 2 1 8 8) (fun n _ _ _ => if n =? 0 then 0%R else 5%R) in
  ((exists e, BaseNet_forward false (zero_BaseNet 1 1 true true) x = Err e
              /\ BaseNet_forward false (zero_BaseNet 1 1 true true) x' = Err e)
   \/ (exists y y', BaseNet_forward false (zero_BaseNet 1 1 true true) x = Ok y
                    /\ BaseNet_forward false (zero_BaseNet 1 1 true true) x' = Ok y'
                    /\ tshape y = tshape y'
                    /\ forall c i j, tval y 0 c i j = tval y' 0 c i j))
  /\ ((exists e, FuseNet_forward false (zero_FuseNet 1 1 true) x = Err e
                 /\ FuseNet_forward false (zero_FuseNet 1 1 true) x' = Err e)
      \/ (exists y y', FuseNet_forward false (zero_FuseNet 1 1 true) x = Ok y
                       /\ FuseNet_forward false (zero_FuseNet 1 1 true) x' = Ok y'
                       /\ tshape y = tshape y'
                       /\ forall c i j, tval y 0 c i j = tval y' 0 c i j)).
Proof.
  intros x x'.
  destruct (nets_process_samples_independently false 1 1 true x x' 0
              (or_introl eq_refl) eq_refl ltac:(simpl; lia)
              ltac:(intros; reflexivity)) as [HB HF].
  split.
  - apply (HB true); [apply zero_BaseNet_body_init | apply zero_OutConv_init].
  - apply HF; apply zero_FuseNet_init.
Defined.

(** ** Shapes and errors of the blocks and networks *)

Lemma first_conv_channels tr cin cout k p l rest x :
  conv_decl cin cout k p l -> 1 <= cout -> sC (tshape x) <> cin ->
  sequential (layer_forward tr) (l :: rest) x = Err ConvInChannels.
Proof.
  intros (c & -> & Hc) Ho Hx; unfold conv_cfg in Hc; inversion Hc as [[Hi Ho' Hk Hp]].
  cbn [sequential layer_forward]; unfold conv2d, lift, rmap, conv2d_shape; rewrite Hi, Ho'.
  replace (cout =? 0) with false by (symmetry; apply Nat.eqb_neq; lia).
  replace (sC (tshape x) =? cin) with false by (symmetry; apply Nat.eqb_neq; exact Hx).
  reflexivity.
Qed.

Lemma first_conv_kernel tr cin cout k p l rest x :
  conv_decl cin cout k p l -> 1 <= cout -> sC (tshape x) = cin ->
  (sH (tshape x) + 2 * p < k \/ sW (tshape x) + 2 * p < k) ->
  sequential (layer_forward tr) (l :: rest) x = Err ConvKernelTooLarge.
Proof.
  intros (c & -> & Hc) Ho Hx Hk; unfold conv_cfg in Hc; inversion Hc as [[Hi Ho' Hk' Hp]].
  cbn [sequential layer_forward]; unfold conv2d, lift, rmap, conv2d_shape.
  rewrite Hi, Ho', Hk', Hp, Hx, Nat.eqb_refl.
  replace (cout =? 0) with false by (symmetry; apply Nat.eqb_neq; lia).
  replace ((sH (tshape x) + 2 * p <? k) || (sW (tshape x) + 2 * p <? k)) with true
    by (symmetry; apply Bool.orb_true_iff; destruct Hk; [left | right]; apply Nat.ltb_lt; lia).
  reflexivity.
Qed.

Lemma DoubleConv_shape_Ok_full tr cin cout norm leaky m s s' :
  DoubleConv_init cin cout norm leaky m -> DoubleConv_shape tr m s = Ok s' ->
  sC s = cin /\ s' = mkShape (sN s) cout (sH s) (sW s).
Proof.
  intros (l1 & n1 & l4 & n2 & Hm & H1 & Hn1 & H4 & Hn2) E.
  unfold DoubleConv_shape in E; rewrite Hm in E; cbn [sequential_shape] in E.
  apply bind_Ok in E as (s1 & E1 & E);
    apply (conv_decl_Ok _ _ _ _ _ _ _ _ H1) in E1 as (Hc & Hh1 & Hw1 & ->).
  apply bind_Ok in E as (s2 & E2 & E); apply (norm_decl_Ok _ _ _ _ _ _ Hn1) in E2; subst s2.
  apply bind_Ok in E as (s3 & E3 & E); apply act_of_Ok in E3; subst s3.
  apply bind_Ok in E as (s4 & E4 & E);
    apply (conv_decl_Ok _ _ _ _ _ _ _ _ H4) in E4 as (_ & _ & _ & ->).
  apply bind_Ok in E as (s5 & E5 & E); apply (norm_decl_Ok _ _ _ _ _ _ Hn2) in E5; subst s5.
  apply bind_Ok in E as (s6 & E6 & E); apply act_of_Ok in E6; subst s6.
  inversion E; subst s'; split; [exact Hc|]; cbn [sN sH sW]; f_equal; lia.
Qed.

Lemma OutConv_shape_Ok_full tr cin cout act m s s' :
  OutConv_init cin cout act m -> OutConv_shape tr m s = Ok s' ->
  sC s = cin /\ s' = mkShape (sN s) cout (sH s) (sW s).
Proof.
  intros (l1 & Hm & H1) E; unfold OutConv_shape in E; rewrite Hm in E.
  cbn [sequential_shape] in E.
  apply bind_Ok in E as (s1 & E1 & E);
    apply (conv_decl_Ok _ _ _ _ _ _ _ _ H1) in E1 as (Hc & Hh1 & Hw1 & ->).
  destruct act; cbn [layer_shape bind] in E; inversion E; subst s';
    (split; [exact Hc | cbn [sN sH sW]; f_equal; lia]).
Qed.

Lemma Up_shape_Ok_full tr cin cout bilinear norm leaky m s1 s2 s' :
  Up_init cin cout bilinear norm leaky m -> Up_shape tr m s1 s2 = Ok s' ->
  s' = mkShape (sN s2) cout (sH s2) (sW s2).
Proof.
  intros [_ Hdc] E; unfold Up_shape in E.
  apply bind_Ok in E as (u & _ & E); cbv zeta in E.
  apply bind_Ok in E as (p & _ & E).
  apply bind_Ok in E as (c & Ec & E).
  apply (DoubleConv_shape_Ok_full _ _ _ _ _ _ _ _ Hdc) in E as (_ & ->).
  unfold cat1_shape in Ec; destruct (_ && _ && _); [|discriminate].
  inversion Ec; reflexivity.
Qed.

Lemma AttentiveDoubleConv_shape_Ok_full tr cin cout norm leaky m s s' :
  AttentiveDoubleConv_init cin cout norm leaky m -> AttentiveDoubleConv_shape tr m s = Ok s' ->
  sC s = cin /\ s' = mkShape (sN s) cout (sH s) (sW s).
Proof.
  intros [Hd Ha] E; apply bind_Ok in E as (s1 & E1 & E).
  apply (attention_shape_Ok _ _ _ _ _ Ha) in E; subst s'.
  eapply DoubleConv_shape_Ok_full; eauto.
Qed.

Lemma AttentiveUp_shape_Ok_full tr cin cout bilinear norm leaky m s1 s2 s' :
  AttentiveUp_init cin cout bilinear norm leaky m -> AttentiveUp_shape tr m s1 s2 = Ok s' ->
  s' = mkShape (sN s2) cout (sH s2) (sW s2).
Proof.
  intros [Hu Ha] E; apply bind_Ok in E as (s & E1 & E).
  apply (attention_shape_Ok _ _ _ _ _ Ha) in E; subst s'.
  eapply Up_shape_Ok_full; eauto.
Qed.

Lemma rshape_of_Ok r y : r = Ok y -> rshape r = Ok (tshape y).
Proof. intros ->; reflexivity. Qed.

(** [DoubleConv(in, out, norm, leaky)] with [out >= 1]: an input of [in]
    channels and positive height and width gives an output of [out]
    channels and the same batch, height and width (unless batch norm in
    training mode sees one value per channel, when it fails with
    [BatchNormSingleValue]); an input of another channel count fails with
    [ConvInChannels]; one of zero height or width fails with
    [ConvKernelTooLarge]; and every output it returns has that shape, for
    an input of [in] channels. *)
Theorem DoubleConv_shape_and_errors tr cin cout norm leaky m x :
  DoubleConv_init cin cout norm leaky m -> 1 <= cout ->
  (sC (tshape x) = cin -> 1 <= sH (tshape x) -> 1 <= sW (tshape x) ->
   bn_ok tr norm (sN (tshape x)) (sH (tshape x)) (sW (tshape x)) ->
   exists y, DoubleConv_forward tr m x = Ok y
             /\ tshape y = mkShape (sN (tshape x)) cout (sH (tshape x)) (sW (tshape x)))
  /\ (sC (tshape x) = cin -> norm = true -> tr = true ->
      sN (tshape x) * sH (tshape x) * sW (tshape x) = 1 ->
      DoubleConv_forward tr m x = Err BatchNormSingleValue)
  /\ (sC (tshape x) <> cin -> DoubleConv_forward tr m x = Err ConvInChannels)
  /\ (sC (tshape x) = cin -> (sH (tshape x) = 0 \/ sW (tshape x) = 0) ->
      DoubleConv_forward tr m x = Err ConvKernelTooLarge)
  /\ (forall y, DoubleConv_forward tr m x = Ok y ->
      sC (tshape x) = cin
      /\ tshape y = mkShape (sN (tshape x)) cout (sH (tshape x)) (sW (tshape x))).
Proof.
  intros Hm Hc; pose proof Hm as (l1 & n1 & l4 & n2 & Hl & H1 & Hn1 & H4 & Hn2).
  split; [|split; [|split; [|split]]].
  - intros Hx Hh Hw Hbn; apply rshape_Ok; rewrite DoubleConv_rshape.
    destruct (tshape x) as [N C H W]; cbn [sC sH sW sN] in *; subst C.
    apply (DoubleConv_shape_ok _ _ _ _ _ _ _ _ _ Hm); auto.
  - intros Hx -> -> H1' ; apply rshape_Err; rewrite DoubleConv_rshape.
    apply Nat.eq_mul_1 in H1' as [H1' Hw]; apply Nat.eq_mul_1 in H1' as [HN Hh].
    destruct (tshape x) as [N C H W]; cbn [sN sC sH sW] in *; subst.
    unfold DoubleConv_shape; rewrite Hl; cbn [sequential_shape].
    rewrite (conv3_decl_ok _ _ _ _ _ _ _ H1) by lia; cbn [bind].
    destruct Hn1 as (b & -> & Hb); reflexivity.
  - intros Hx; unfold DoubleConv_forward; rewrite Hl.
    apply (first_conv_channels _ _ _ _ _ _ _ _ H1 Hc Hx).
  - intros Hx Hz; unfold DoubleConv_forward; rewrite Hl.
    apply (first_conv_kernel _ _ _ _ _ _ _ _ H1 Hc Hx); lia.
  - intros y E; apply rshape_of_Ok in E; rewrite DoubleConv_rshape in E.
    apply (DoubleConv_shape_Ok_full _ _ _ _ _ _ _ _ Hm) in E as [Hx Hy]; auto.
Qed.

(** [DoubleConv(1, 2, norm=True)] on a 1x1x1x1 input: fails in training
    mode, runs in evaluation mode. *)
Lemma DoubleConv_shape_and_errors_witness :
  DoubleConv_forward true (zero_DoubleConv 1 2 true true) (const_tensor (mkShape 1 1 1 1) 1%R)
  = Err BatchNormSingleValue
  /\ exists y, DoubleConv_forward false (zero_DoubleConv 1 2 true true)
                 (const_tensor (mkShape 1 1 1 1) 1%R) = Ok y
               /\ tshape y = mkShape 1 2 1 1.
Proof.
  destruct (DoubleConv_shape_and_errors true 1 2 true true (zero_DoubleConv 1 2 true true)
              (const_tensor (mkShape 1 1 1 1) 1%R) (zero_DoubleConv_init 1 2 true true)
              ltac:(lia)) as (_ & Hbn & _).
  destruct (DoubleConv_shape_and_errors false 1 2 true true (zero_DoubleConv 1 2 true true)
              (const_tensor (mkShape 1 1 1 1) 1%R) (zero_DoubleConv_init 1 2 true true)
              ltac:(lia)) as (Hok & _).
  split.
  - apply Hbn; reflexivity.
  - apply Hok; [reflexivity | simpl; lia | simpl; lia | left; reflexivity].
Defined.

(** [Down(in, out, norm, leaky)] with [out >= 1]: the pooling comes first,
    so an input with no channel, row or column fails with [PoolEmptyInput]
    and a non-empty one with height or width below 2 with
    [PoolOutputTooSmall]; a non-empty one of at least 2x2 with another
    channel count than [in] fails with [ConvInChannels]; with [in >= 1], one
    of [in] channels and at least 2x2 gives [out] channels and the floored
    halves [H / 2], [W / 2] (unless batch norm in training mode sees one
    value per channel); and every output it returns has that shape, for an
    input of [in] channels. *)
Theorem Down_shape_and_errors tr cin cout norm leaky m x :
  Down_init cin cout norm leaky m -> 1 <= cout ->
  ((sC (tshape x) = 0 \/ sH (tshape x) = 0 \/ sW (tshape x) = 0) ->
   Down_forward tr m x = Err PoolEmptyInput)
  /\ (1 <= sC (tshape x) -> 1 <= sH (tshape x) -> 1 <= sW (tshape x) ->
      (sH (tshape x) < 2 \/ sW (tshape x) < 2) ->
      Down_forward tr m x = Err PoolOutputTooSmall)
  /\ (1 <= sC (tshape x) -> 2 <= sH (tshape x) -> 2 <= sW (tshape x) -> sC (tshape x) <> cin ->
      Down_forward tr m x = Err ConvInChannels)
  /\ (1 <= cin -> sC (tshape x) = cin -> 2 <= sH (tshape x) -> 2 <= sW (tshape x) ->
      bn_ok tr norm (sN (tshape x)) (sH (tshape x) / 2) (sW (tshape x) / 2) ->
      exists y, Down_forward tr m x = Ok y
                /\ tshape y = mkShape (sN (tshape x)) cout (sH (tshape x) / 2) (sW (tshape x) / 2))
  /\ (forall y, Down_forward tr m x = Ok y ->
      sC (tshape x) = cin
      /\ tshape y = mkShape (sN (tshape x)) cout (sH (tshape x) / 2) (sW (tshape x) / 2)).
Proof.
  intros Hm Hc; pose proof Hm as (l1 & n1 & l4 & n2 & Hl & H1 & Hn1 & H4 & Hn2).
  split; [|split; [|split; [|split]]].
  - intros Hs; unfold Down_forward, max_pool2, lift, rmap, max_pool2_shape.
    replace ((sC (tshape x) =? 0) || (sH (tshape x) =? 0) || (sW (tshape x) =? 0)) with true
      by (symmetry; rewrite !Bool.orb_true_iff, !Nat.eqb_eq; tauto).
    reflexivity.
  - intros H0c H0h H0w Hs; unfold Down_forward, max_pool2, lift, rmap, max_pool2_shape.
    replace ((sC (tshape x) =? 0) || (sH (tshape x) =? 0) || (sW (tshape x) =? 0)) with false
      by (symmetry; rewrite !Bool.orb_false_iff, !Nat.eqb_neq; lia).
    replace ((sH (tshape x) <? 2) || (sW (tshape x) <? 2)) with true
      by (symmetry; apply Bool.orb_true_iff; destruct Hs; [left | right];
          apply Nat.ltb_lt; lia).
    reflexivity.
  - intros H0c Hh Hw Hx; unfold Down_forward, max_pool2, lift, rmap, max_pool2_shape.
    replace ((sC (tshape x) =? 0) || (sH (tshape x) =? 0) || (sW (tshape x) =? 0)) with false
      by (symmetry; rewrite !Bool.orb_false_iff, !Nat.eqb_neq; lia).
    replace ((sH (tshape x) <? 2) || (sW (tshape x) <? 2)) with false
      by (symmetry; apply Bool.orb_false_iff; split; apply Nat.ltb_ge; lia).
    cbn [bind]; unfold DoubleConv_forward; rewrite Hl.
    apply (first_conv_channels _ _ _ _ _ _ _ _ H1 Hc); exact Hx.
  - intros Hi Hx Hh Hw Hbn; apply rshape_Ok; rewrite Down_rshape.
    destruct (tshape x) as [N C H W]; cbn [sC sH sW sN] in *; subst C.
    apply (Down_shape_ok _ _ _ _ _ _ _ _ _ Hm); auto.
  - intros y E; apply rshape_of_Ok in E; rewrite Down_rshape in E.
    unfold Down_shape in E; apply bind_Ok in E as (p & Ep & E).
    apply (DoubleConv_shape_Ok_full _ _ _ _ _ _ _ _ Hm) in E as [Hx ->].
    unfold max_pool2_shape in Ep; destruct (_ || _ || _); [discriminate|].
    destruct (_ || _); inversion Ep; subst p.
    split; [exact Hx | reflexivity].
Qed.

(** [Down(1, 2)] on a 1x1x5x3 input runs and gives 2x1; on a 1x1x1x4
    input it fails in the pooling, and so it does on a 1x0x4x4 input. *)
Lemma Down_shape_and_errors_witness :
  (exists y, Down_forward false (zero_Down 1 2 true true) (const_tensor (mkShape 1 1 5 3) 1%R)
             = Ok y /\ tshape y = mkShape 1 2 2 1)
  /\ Down_forward false (zero_Down 1 2 true true) (const_tensor (mkShape 1 1 1 4) 1%R)
     = Err PoolOutputTooSmall
  /\ Down_forward false (zero_Down 1 2 true true) (const_tensor (mkShape 1 0 4 4) 1%R)
     = Err PoolEmptyInput.
Proof.
  split; [|split].
  - destruct (Down_shape_and_errors false 1 2 true true (zero_Down 1 2 true true)
                (const_tensor (mkShape 1 1 5 3) 1%R) (zero_DoubleConv_init 1 2 true true)
                ltac:(lia)) as (_ & _ & _ & Hok & _).
    apply Hok; [lia | reflexivity | simpl; lia | simpl; lia | left; reflexivity].
  - destruct (Down_shape_and_errors false 1 2 true true (zero_Down 1 2 true true)
                (const_tensor (mkShape 1 1 1 4) 1%R) (zero_DoubleConv_init 1 2 true true)
                ltac:(lia)) as (_ & Herr & _).
    apply Herr; simpl; lia.
  - destruct (Down_shape_and_errors false 1 2 true true (zero_Down 1 2 true true)
                (const_tensor (mkShape 1 0 4 4) 1%R) (zero_DoubleConv_init 1 2 true true)
                ltac:(lia)) as (Herr & _).
    apply Herr; simpl; left; reflexivity.
Defined.

(** [BaseNet] (so [IAN] and [ANSN]) and [FuseNet]: an input whose channel
    count is not [in_channels] fails with [ConvInChannels] in the first
    convolution, and a forward pass that succeeds had [in_channels] input
    channels and returns [out_channels] channels at the batch size, height
    and width of the input. *)
Theorem nets_channels_and_output_shape tr cin cout norm x :
  (forall act net, BaseNet_body_init cin norm net -> OutConv_init 32 cout act (outc net) ->
     (sC (tshape x) <> cin -> BaseNet_forward tr net x = Err ConvInChannels)
     /\ (forall y, BaseNet_forward tr net x = Ok y ->
         sC (tshape x) = cin
         /\ tshape y = mkShape (sN (tshape x)) cout (sH (tshape x)) (sW (tshape x))))
  /\ (forall net, FuseNet_init cin cout norm net ->
     (sC (tshape x) <> cin -> FuseNet_forward tr net x = Err ConvInChannels)
     /\ (forall y, FuseNet_forward tr net x = Ok y ->
         sC (tshape x) = cin
         /\ tshape y = mkShape (sN (tshape x)) cout (sH (tshape x)) (sW (tshape x)))).
Proof.
  split.
  - intros act net (Hinc & Hd1 & Hd2 & Hd3 & Hu1 & Hu2 & Hu3) Hout; split.
    + intros Hx; unfold BaseNet_forward.
      destruct Hinc as (l1 & n1 & l4 & n2 & Hl & H1 & _).
      unfold DoubleConv_forward at 1; rewrite Hl.
      rewrite (first_conv_channels _ _ _ _ _ _ _ _ H1 ltac:(lia) Hx); reflexivity.
    + intros y E; apply rshape_of_Ok in E; rewrite BaseNet_rshape in E.
      unfold BaseNet_shape in E.
      apply bind_Ok in E as (s1 & E1 & E).
      apply (DoubleConv_shape_Ok_full _ _ _ _ _ _ _ _ Hinc) in E1 as [Hx ->].
      apply bind_Ok in E as (s2 & _ & E).
      apply bind_Ok in E as (s3 & _ & E).
      apply bind_Ok in E as (s4 & _ & E).
      apply bind_Ok in E as (s5 & _ & E).
      apply bind_Ok in E as (s6 & _ & E).
      apply bind_Ok in E as (s7 & E7 & E).
      apply (Up_shape_Ok_full _ _ _ _ _ _ _ _ _ _ Hu3) in E7; subst s7.
      apply (OutConv_shape_Ok_full _ _ _ _ _ _ _ Hout) in E as [_ ->].
      split; [exact Hx | reflexivity].
  - intros net (Hinc & Hd1 & Hd2 & Hu1 & Hu2 & Hout); split.
    + intros Hx; unfold FuseNet_forward, AttentiveDoubleConv_forward.
      destruct Hinc as [(l1 & n1 & l4 & n2 & Hl & H1 & _) _].
      unfold DoubleConv_forward at 1; rewrite Hl.
      rewrite (first_conv_channels _ _ _ _ _ _ _ _ H1 ltac:(lia) Hx); reflexivity.
    + intros y E; apply rshape_of_Ok in E; rewrite FuseNet_rshape in E.
      unfold FuseNet_shape in E.
      apply bind_Ok in E as (s1 & E1 & E).
      apply (AttentiveDoubleConv_shape_Ok_full _ _ _ _ _ _ _ _ Hinc) in E1 as [Hx ->].
      apply bind_Ok in E as (s2 & _ & E).
      apply bind_Ok in E as (s3 & _ & E).
      apply bind_Ok in E as (s4 & _ & E).
      apply bind_Ok in E as (s5 & E5 & E).
      apply (AttentiveUp_shape_Ok_full _ _ _ _ _ _ _ _ _ _ Hu2) in E5; subst s5.
      apply (OutConv_shape_Ok_full _ _ _ _ _ _ _ Hout) in E as [_ ->].
      split; [exact Hx | reflexivity].
Qed.

(** An [IAN(3, 2)] and a [FuseNet(3, 2)] on a 1x3x9x13 input return
    1x2x9x13; on a 1x2x9x13 input they fail. *)
Lemma nets_channels_and_output_shape_witness :
  (exists y, BaseNet_forward false (zero_BaseNet 3 2 true true)
               (const_tensor (mkShape 1 3 9 13) 1%R) = Ok y
             /\ tshape y = mkShape 1 2 9 13)
  /\ (exists y, FuseNet_forward false (zero_FuseNet 3 2 true)
                  (const_tensor (mkShape 1 3 9 13) 1%R) = Ok y
                /\ tshape y = mkShape 1 2 9 13)
  /\ BaseNet_forward false (zero_BaseNet 3 2 true true)
       (const_tensor (mkShape 1 2 9 13) 1%R) = Err ConvInChannels
  /\ FuseNet_forward false (zero_FuseNet 3 2 true)
       (const_tensor (mkShape 1 2 9 13) 1%R) = Err ConvInChannels.
Proof.
  destruct (nets_channels_and_output_shape false 3 2 true (const_tensor (mkShape 1 3 9 13) 1%R))
    as [Hb Hf].
  destruct (nets_channels_and_output_shape false 3 2 true (const_tensor (mkShape 1 2 9 13) 1%R))
    as [Hb' Hf'].
  split; [|split; [|split]].
  - assert (E : rshape (BaseNet_forward false (zero_BaseNet 3 2 true true)
                          (const_tensor (mkShape 1 3 9 13) 1%R)) = Ok (mkShape 1 2 9 13))
      by (rewrite BaseNet_rshape; vm_compute; reflexivity).
    destruct (rshape_Ok _ _ E) as (y & Ey & _); exists y; split; [exact Ey|].
    apply (proj2 (Hb true (zero_BaseNet 3 2 true true) (zero_BaseNet_body_init 3 true true 2)
                     (zero_OutConv_init 32 2 true)) y Ey).
  - assert (E : rshape (FuseNet_forward false (zero_FuseNet 3 2 true)
                          (const_tensor (mkShape 1 3 9 13) 1%R)) = Ok (mkShape 1 2 9 13))
      by (rewrite FuseNet_rshape; vm_compute; reflexivity).
    destruct (rshape_Ok _ _ E) as (y & Ey & _); exists y; split; [exact Ey|].
    apply (proj2 (Hf (zero_FuseNet 3 2 true) (zero_FuseNet_init 3 2 true)) y Ey).
  - apply (proj1 (Hb' true (zero_BaseNet 3 2 true true) (zero_BaseNet_body_init 3 true true 2)
                     (zero_OutConv_init 32 2 true))); simpl; lia.
  - apply (proj1 (Hf' (zero_FuseNet 3 2 true) (zero_FuseNet_init 3 2 true))); simpl; lia.
Defined.

(** ** Attention only scales down; rectified blocks are non-negative *)

Lemma PALayer_scales tr channel m x y :
  PALayer_init channel m -> PALayer_forward tr m x = Ok y ->
  tshape y = tshape x
  /\ forall n c i j, n < sN (tshape x) -> c < sC (tshape x) ->
       i < sH (tshape x) -> j < sW (tshape x) ->
       exists g, (0 <= g <= 1)%R /\ tval y n c i j = (tval x n c i j * g)%R.
Proof.
  intros Hm E; destruct (PALayer_gate_Ok _ _ _ _ _ Hm E)
    as (Hs & c1 & c3 & h1 & h3 & _ & _ & _ & _ & _ & _ & _ & Hb & Hv).
  split; [exact Hs|]; intros n c i j Hn Hc Hi Hj.
  exists (tval (tmap sigmoid h3) n 0 i j); split; [apply Hb | apply Hv; assumption].
Qed.

Lemma CALayer_scales tr channel m x y :
  CALayer_init channel m -> CALayer_forward tr m x = Ok y ->
  tshape y = tshape x
  /\ forall n c i j, n < sN (tshape x) -> c < sC (tshape x) ->
       i < sH (tshape x) -> j < sW (tshape x) ->
       exists g, (0 <= g <= 1)%R /\ tval y n c i j = (tval x n c i j * g)%R.
Proof.
  intros Hm E; destruct (CALayer_gate_Ok _ _ _ _ _ Hm E)
    as (Hs & c1 & c3 & p & h1 & h3 & _ & _ & _ & _ & _ & _ & _ & _ & _ & _ & Hb & Hv).
  split; [exact Hs|]; intros n c i j Hn Hc Hi Hj.
  exists (tval (tmap sigmoid h3) n c 0 0); split; [apply Hb | apply Hv; assumption].
Qed.

Lemma attention_nonneg tr C ms x y :
  attention_init C ms -> sequential (attention_forward tr) ms x = Ok y ->
  (forall n c i j, in_range (tshape x) n c i j -> (0 <= tval x n c i j)%R) ->
  tshape y = tshape x /\ forall n c i j, in_range (tshape y) n c i j -> (0 <= tval y n c i j)%R.
Proof.
  intros Ha E Hx; destruct (attention_seq tr C ms Ha) as (ca & pa & Hca & Hpa & Eq).
  rewrite Eq in E; apply bind_Ok in E as (z & Ez & E).
  destruct (CALayer_scales _ _ _ _ _ Hca Ez) as [Hsz Hz].
  destruct (PALayer_scales _ _ _ _ _ Hpa E) as [Hsy Hy].
  split; [congruence|].
  intros n c i j Hr; rewrite Hsy, Hsz in Hr; destruct Hr as (Hn & Hc & Hi & Hj).
  rewrite Hsz in Hy; destruct (Hy n c i j Hn Hc Hi Hj) as (g & Hg & ->).
  destruct (Hz n c i j Hn Hc Hi Hj) as (g' & Hg' & ->).
  pose proof (Hx n c i j (conj Hn (conj Hc (conj Hi Hj)))).
  apply Rmult_le_pos; [apply Rmult_le_pos|]; lra.
Qed.

Lemma DoubleConv_relu_nonneg tr cin cout norm m x y :
  DoubleConv_init cin cout norm false m -> DoubleConv_forward tr m x = Ok y ->
  forall n c i j, (0 <= tval y n c i j)%R.
Proof.
  intros (l1 & n1 & l4 & n2 & Hl & _) E n c i j.
  unfold DoubleConv_forward in E; rewrite Hl in E; cbn [sequential] in E.
  apply bind_Ok in E as (a1 & _ & E); apply bind_Ok in E as (a2 & _ & E).
  apply bind_Ok in E as (a3 & _ & E); apply bind_Ok in E as (a4 & _ & E).
  apply bind_Ok in E as (a5 & _ & E); apply bind_Ok in E as (a6 & E6 & E).
  cbn [sequential] in E; inversion E; subst y.
  cbn [act_of layer_forward] in E6; inversion E6; subst a6.
  cbn [tmap tval]; unfold relu; apply Rmax_l.
Qed.

Lemma Up_relu_nonneg tr cin cout bilinear norm m x1 x2 y :
  Up_init cin cout bilinear norm false m -> Up_forward tr m x1 x2 = Ok y ->
  forall n c i j, (0 <= tval y n c i j)%R.
Proof.
  intros [_ Hdc] E; destruct (Up_forward_steps _ _ _ _ _ E) as (u & p & c & _ & _ & _ & Ey).
  exact (DoubleConv_relu_nonneg _ _ _ _ _ _ _ Hdc Ey).
Qed.

Lemma Down_relu_nonneg tr cin cout norm m x y :
  Down_init cin cout norm false m -> Down_forward tr m x = Ok y ->
  forall n c i j, (0 <= tval y n c i j)%R.
Proof.
  intros Hdc E; unfold Down_forward in E; apply bind_Ok in E as (p & _ & Ey).
  exact (DoubleConv_relu_nonneg _ _ _ _ _ _ _ Hdc Ey).
Qed.

(** Pixel and channel attention never amplify: when [PALayer(channel)] or
    [CALayer(channel)] returns [y] for [x], [y] has the shape of [x] and
    each value of [y] lies between 0 and the value of [x] at the same
    place (same sign, no larger magnitude). *)
Theorem attention_never_amplifies tr channel x y :
  ((exists m, PALayer_init channel m /\ PALayer_forward tr m x = Ok y)
   \/ (exists m, CALayer_init channel m /\ CALayer_forward tr m x = Ok y)) ->
  tshape y = tshape x
  /\ forall n c i j, in_range (tshape x) n c i j ->
       ((0 <= tval x n c i j)%R -> (0 <= tval y n c i j <= tval x n c i j)%R)
       /\ ((tval x n c i j <= 0)%R -> (tval x n c i j <= tval y n c i j <= 0)%R).
Proof.
  intros H.
  assert (Hg : tshape y = tshape x
    /\ forall n c i j, n < sN (tshape x) -> c < sC (tshape x) ->
         i < sH (tshape x) -> j < sW (tshape x) ->
         exists g, (0 <= g <= 1)%R /\ tval y n c i j = (tval x n c i j * g)%R).
  { destruct H as [(m & Hm & E) | (m & Hm & E)];
      [eapply PALayer_scales | eapply CALayer_scales]; eassumption. }
  destruct Hg as [Hs Hv]; split; [exact Hs|].
  intros n c i j (Hn & Hc & Hi & Hj); destruct (Hv n c i j Hn Hc Hi Hj) as (g & Hg & ->).
  split; intros Hx; split; nra.
Qed.

(** [PALayer(8)] on a 1x8x1x1 input of 2s runs and gives 1s. *)
Lemma attention_never_amplifies_witness :
  exists y, PALayer_forward false (zero_PALayer 8) (const_tensor (mkShape 1 8 1 1) 2%R) = Ok y
            /\ (0 <= tval y 0 0 0 0 <= 2)%R.
Proof.
  assert (E : rshape (PALayer_forward false (zero_PALayer 8)
                        (const_tensor (mkShape 1 8 1 1) 2%R)) = Ok (mkShape 1 8 1 1))
    by (rewrite PALayer_rshape; vm_compute; reflexivity).
  destruct (rshape_Ok _ _ E) as (y & Ey & _); exists y; split; [exact Ey|].
  destruct (attention_never_amplifies false 8 (const_tensor (mkShape 1 8 1 1) 2%R) y
              (or_introl (ex_intro _ (zero_PALayer 8) (conj (zero_PALayer_init 8) Ey))))
    as [_ Hv].
  destruct (Hv 0 0 0 0) as [Hp _]; [repeat split; simpl; lia|].
  apply Hp; cbn; lra.
Defined.

(** The blocks built with [leaky=False] end in a ReLU: every value that
    [DoubleConv], [Down] or [Up] returns is non-negative; and since the
    attention gates only scale by factors in [0, 1], every value in range
    that [AttentiveDoubleConv], [AttentiveDown] or [AttentiveUp] returns
    is non-negative too (these are the blocks of [FuseNet]). *)
Theorem relu_blocks_nonneg tr cin cout norm :
  (forall m x y, DoubleConv_init cin cout norm false m -> DoubleConv_forward tr m x = Ok y ->
     forall n c i j, (0 <= tval y n c i j)%R)
  /\ (forall m x y, Down_init cin cout norm false m -> Down_forward tr m x = Ok y ->
     forall n c i j, (0 <= tval y n c i j)%R)
  /\ (forall bilinear m x1 x2 y, Up_init cin cout bilinear norm false m ->
     Up_forward tr m x1 x2 = Ok y -> forall n c i j, (0 <= tval y n c i j)%R)
  /\ (forall m x y, AttentiveDoubleConv_init cin cout norm false m ->
     AttentiveDoubleConv_forward tr m x = Ok y ->
     forall n c i j, in_range (tshape y) n c i j -> (0 <= tval y n c i j)%R)
  /\ (forall m x y, AttentiveDown_init cin cout norm false m ->
     AttentiveDown_forward tr m x = Ok y ->
     forall n c i j, in_range (tshape y) n c i j -> (0 <= tval y n c i j)%R)
  /\ (forall bilinear m x1 x2 y, AttentiveUp_init cin cout bilinear norm false m ->
     AttentiveUp_forward tr m x1 x2 = Ok y ->
     forall n c i j, in_range (tshape y) n c i j -> (0 <= tval y n c i j)%R).
Proof.
  split; [|split; [|split; [|split; [|split]]]].
  - apply DoubleConv_relu_nonneg.
  - apply Down_relu_nonneg.
  - intros bilinear; apply Up_relu_nonneg.
  - intros m x y [Hd Ha] E; apply bind_Ok in E as (z & Ez & E).
    apply (attention_nonneg _ _ _ _ _ Ha E).
    intros; eapply DoubleConv_relu_nonneg; eassumption.
  - intros m x y [Hd Ha] E; apply bind_Ok in E as (z & Ez & E).
    apply (attention_nonneg _ _ _ _ _ Ha E).
    intros; eapply Down_relu_nonneg; eassumption.
  - intros bilinear m x1 x2 y [Hd Ha] E; apply bind_Ok in E as (z & Ez & E).
    apply (attention_nonneg _ _ _ _ _ Ha E).
    intros; eapply Up_relu_nonneg; eassumption.
Qed.

(** An [AttentiveDoubleConv(8, 8)] built as in [FuseNet] (ReLU) on a
    1x8x1x1 input runs and returns non-negative values. *)
Lemma relu_blocks_nonneg_witness :
  exists y, AttentiveDoubleConv_forward false
              (mkAttentiveDoubleConv (zero_DoubleConv 8 8 false false) (zero_attention 8))
              (const_tensor (mkShape 1 8 1 1) (-3)%R) = Ok y
            /\ (0 <= tval y 0 0 0 0)%R.
Proof.
  assert (E : rshape (AttentiveDoubleConv_forward false
                (mkAttentiveDoubleConv (zero_DoubleConv 8 8 false false) (zero_attention 8))
                (const_tensor (mkShape 1 8 1 1) (-3)%R)) = Ok (mkShape 1 8 1 1))
    by (rewrite AttentiveDoubleConv_rshape; vm_compute; reflexivity).
  destruct (rshape_Ok _ _ E) as (y & Ey & Sy); exists y; split; [exact Ey|].
  destruct (relu_blocks_nonneg false 8 8 false) as (_ & _ & _ & Hadc & _).
  refine (Hadc _ _ _ _ Ey _ _ _ _ _);
    [exact (conj (zero_DoubleConv_init 8 8 false false) (zero_attention_init 8))|].
  rewrite Sy; repeat split; simpl; lia.
Defined.

Lemma OutConv_sigmoid_range tr cin cout m x y :
  OutConv_init cin cout true m -> OutConv_forward tr m x = Ok y ->
  forall n c i j, (0 < tval y n c i j < 1)%R.
Proof.
  intros (l1 & Hm & _) E n c i j.
  unfold OutConv_forward in E; rewrite Hm in E; cbn [sequential] in E.
  apply bind_Ok in E as (h & _ & E); cbn [layer_forward bind sequential] in E.
  inversion E; subst y; cbn [tmap tval]; apply sigmoid_bounds.
Qed.

(** [IAN] (a [BaseNet] with the default [OutConv(32, out, act=True)]) and
    [FuseNet] end in a sigmoid: every value of a tensor they return lies
    in [0, 1], whatever the input. *)
Theorem IAN_FuseNet_output_in_unit_interval tr cin cout norm x y :
  ((exists net, IAN_init cin cout norm net /\ BaseNet_forward tr net x = Ok y)
   \/ (exists net, FuseNet_init cin cout norm net /\ FuseNet_forward tr net x = Ok y)) ->
  forall n c i j, (0 <= tval y n c i j <= 1)%R.
Proof.
  intros [(net & [_ Hout] & E) | (net & (_ & _ & _ & _ & _ & Hout) & E)] n c i j.
  - unfold BaseNet_forward in E.
    do 7 (apply bind_Ok in E as (? & _ & E)).
    pose proof (OutConv_sigmoid_range _ _ _ _ _ _ Hout E n c i j); lra.
  - unfold FuseNet_forward in E.
    do 5 (apply bind_Ok in E as (? & _ & E)).
    pose proof (OutConv_sigmoid_range _ _ _ _ _ _ Hout E n c i j); lra.
Qed.

(** An [IAN(1, 1)] on an 8x8 input of 5s returns values in [0, 1]. *)
Lemma IAN_FuseNet_output_in_unit_interval_witness :
  exists y, BaseNet_forward false (zero_BaseNet 1 1 true true)
              (const_tensor (mkShape 1 1 8 8) 5%R) = Ok y
            /\ (0 <= tval y 0 0 3 4 <= 1)%R.
Proof.
  assert (E : rshape (BaseNet_forward false (zero_BaseNet 1 1 true true)
                        (const_tensor (mkShape 1 1 8 8) 5%R)) = Ok (mkShape 1 1 8 8))
    by (rewrite BaseNet_rshape; vm_compute; reflexivity).
  destruct (rshape_Ok _ _ E) as (y & Ey & _); exists y; split; [exact Ey|].
  apply (IAN_FuseNet_output_in_unit_interval false 1 1 true
           (const_tensor (mkShape 1 1 8 8) 5%R) y).
  left; exists (zero_BaseNet 1 1 true true); split; [|exact Ey].
  split; [apply zero_BaseNet_body_init | apply zero_OutConv_init].
Defined.

Lemma DoubleConv_shape_channels tr cin cout norm leaky m s :
  DoubleConv_init cin cout norm leaky m -> 1 <= cout -> sC s <> cin ->
  DoubleConv_shape tr m s = Err ConvInChannels.
Proof.
  intros (l1 & n1 & l4 & n2 & Hl & (c & -> & Hc) & _) Ho Hs.
  unfold conv_cfg in Hc; inversion Hc as [[Hi Ho' Hk Hp]].
  unfold DoubleConv_shape; rewrite Hl; cbn [sequential_shape layer_shape].
  unfold conv2d_shape; rewrite Hi, Ho'.
  replace (cout =? 0) with false by (symmetry; apply Nat.eqb_neq; lia).
  replace (sC s =? cin) with false by (symmetry; apply Nat.eqb_neq; exact Hs).
  reflexivity.
Qed.

Lemma DoubleConv_shape_empty tr cin cout norm leaky m s :
  DoubleConv_init cin cout norm leaky m -> 1 <= cout -> sC s = cin ->
  (sH s = 0 \/ sW s = 0) ->
  DoubleConv_shape tr m s = Err ConvKernelTooLarge.
Proof.
  intros (l1 & n1 & l4 & n2 & Hl & (c & -> & Hc) & _) Ho Hs Hz.
  unfold conv_cfg in Hc; inversion Hc as [[Hi Ho' Hk Hp]].
  unfold DoubleConv_shape; rewrite Hl; cbn [sequential_shape layer_shape].
  unfold conv2d_shape; rewrite Hi, Ho', Hk, Hp, Hs, Nat.eqb_refl.
  replace (cout =? 0) with false by (symmetry; apply Nat.eqb_neq; lia).
  replace ((sH s + 2 * 1 <? 3) || (sW s + 2 * 1 <? 3)) with true
    by (symmetry; apply Bool.orb_true_iff; destruct Hz; [left | right];
        apply Nat.ltb_lt; lia).
  reflexivity.
Qed.

(** The failures of a bilinear [Up(in, out)] ([out >= 1]), in the order
    [Up.forward] meets them: [x1] of zero height or width fails in the
    upsampling ([UpsampleEmpty]), and so does an [x1] of positive height
    and width with no channel ([UpsampleNoChannels]).  Past the upsampling
    the padding never fails, whatever the size of [x2]; batch sizes of [x1]
    and [x2] that differ fail in the concatenation ([CatSizeMismatch]);
    else channel counts that do not add up to [in] fail in the first
    convolution ([ConvInChannels]); else an [x2] of zero height or width
    fails there too ([ConvKernelTooLarge]). *)
Theorem Up_bilinear_errors tr cin cout norm leaky m x1 x2 :
  Up_init cin cout true norm leaky m -> 1 <= cout ->
  ((sH (tshape x1) = 0 \/ sW (tshape x1) = 0) -> Up_forward tr m x1 x2 = Err UpsampleEmpty)
  /\ (1 <= sH (tshape x1) -> 1 <= sW (tshape x1) -> sC (tshape x1) = 0 ->
      Up_forward tr m x1 x2 = Err UpsampleNoChannels)
  /\ (1 <= sH (tshape x1) -> 1 <= sW (tshape x1) -> 1 <= sC (tshape x1) ->
      sN (tshape x2) <> sN (tshape x1) -> Up_forward tr m x1 x2 = Err CatSizeMismatch)
  /\ (1 <= sH (tshape x1) -> 1 <= sW (tshape x1) -> 1 <= sC (tshape x1) ->
      sN (tshape x2) = sN (tshape x1) -> sC (tshape x2) + sC (tshape x1) <> cin ->
      Up_forward tr m x1 x2 = Err ConvInChannels)
  /\ (1 <= sH (tshape x1) -> 1 <= sW (tshape x1) -> 1 <= sC (tshape x1) ->
      sN (tshape x2) = sN (tshape x1) -> sC (tshape x2) + sC (tshape x1) = cin ->
      (sH (tshape x2) = 0 \/ sW (tshape x2) = 0) ->
      Up_forward tr m x1 x2 = Err ConvKernelTooLarge).
Proof.
  intros [Hup Hdc] Hc; cbn in Hup.
  destruct (tshape x1) as [N1 C1 H1 W1] eqn:S1, (tshape x2) as [N2 C2 H2 W2] eqn:S2.
  cbn [sN sC sH sW].
  assert (Eu : forall e,
     Up_shape tr m (tshape x1) (tshape x2) = Err e ->
     Up_forward tr m x1 x2 = Err e) by (intros; apply rshape_Err; rewrite Up_rshape; auto).
  assert (Ups : 1 <= H1 -> 1 <= W1 -> 1 <= C1 ->
     upsampler_shape (up_up m) (tshape x1) = Ok (mkShape N1 C1 (2 * H1) (2 * W1))).
  { intros Hh Hw Hc1; rewrite Hup, S1; unfold upsampler_shape, upsample2_shape; cbn [sH sW sN sC].
    replace (H1 =? 0) with false by (symmetry; apply Nat.eqb_neq; lia).
    replace (W1 =? 0) with false by (symmetry; apply Nat.eqb_neq; lia).
    replace (C1 =? 0) with false by (symmetry; apply Nat.eqb_neq; lia).
    reflexivity. }
  assert (Pa : 1 <= H1 -> 1 <= W1 -> 1 <= C1 ->
     Up_shape tr m (tshape x1) (tshape x2)
     = (s <- cat1_shape (mkShape N2 C2 H2 W2) (mkShape N1 C1 H2 W2) ;;
        DoubleConv_shape tr (up_conv m) s)).
  { intros Hh Hw Hc1; unfold Up_shape; rewrite Ups by lia.
    cbn [bind]; rewrite S2; cbv zeta.
    pose proof (pad_shape_align (mkShape N1 C1 (2 * H1) (2 * W1)) H2 W2)
      as Pa; cbv zeta in Pa; cbn [sN sC sH sW] in Pa |- *; rewrite Pa; reflexivity. }
  split; [|split; [|split; [|split]]].
  - intros Hz; apply Eu; rewrite S1; unfold Up_shape.
    rewrite Hup; unfold upsampler_shape, upsample2_shape; cbn [sH sW].
    replace ((H1 =? 0) || (W1 =? 0)) with true
      by (symmetry; apply Bool.orb_true_iff; destruct Hz; [left | right];
          apply Nat.eqb_eq; lia).
    reflexivity.
  - intros Hh Hw Hz; apply Eu; rewrite S1; unfold Up_shape.
    rewrite Hup; unfold upsampler_shape, upsample2_shape; cbn [sH sW sC].
    replace (H1 =? 0) with false by (symmetry; apply Nat.eqb_neq; lia).
    replace (W1 =? 0) with false by (symmetry; apply Nat.eqb_neq; lia).
    rewrite Hz; reflexivity.
  - intros Hh Hw Hc1 Hn; apply Eu; rewrite Pa by lia.
    unfold cat1_shape; cbn [sN sH sW].
    replace (N2 =? N1) with false by (symmetry; apply Nat.eqb_neq; exact Hn).
    reflexivity.
  - intros Hh Hw Hc1 Hn Hch; apply Eu; rewrite Pa by lia.
    unfold cat1_shape; cbn [sN sH sW sC]; rewrite Hn, !Nat.eqb_refl; cbn [andb bind].
    apply (DoubleConv_shape_channels _ _ _ _ _ _ _ Hdc Hc); cbn [sC]; exact Hch.
  - intros Hh Hw Hc1 Hn Hch Hz; apply Eu; rewrite Pa by lia.
    unfold cat1_shape; cbn [sN sH sW sC]; rewrite Hn, !Nat.eqb_refl; cbn [andb bind].
    apply (DoubleConv_shape_empty _ _ _ _ _ _ _ Hdc Hc); cbn [sC sH sW]; assumption.
Qed.

(** [Up(4, 2)] (bilinear): an empty [x1], an [x1] with no channel, a batch
    mismatch, channels that add up to 3, and an [x2] with no column. *)
Lemma Up_bilinear_errors_witness :
  Up_forward false (zero_Up 4 2 true true true) (const_tensor (mkShape 1 2 0 3) 1%R)
    (const_tensor (mkShape 1 2 4 4) 1%R) = Err UpsampleEmpty
  /\ Up_forward false (zero_Up 4 2 true true true) (const_tensor (mkShape 1 0 2 2) 1%R)
       (const_tensor (mkShape 1 4 4 4) 1%R) = Err UpsampleNoChannels
  /\ Up_forward false (zero_Up 4 2 true true true) (const_tensor (mkShape 1 2 2 2) 1%R)
       (const_tensor (mkShape 2 2 4 4) 1%R) = Err CatSizeMismatch
  /\ Up_forward false (zero_Up 4 2 true true true) (const_tensor (mkShape 1 1 2 2) 1%R)
       (const_tensor (mkShape 1 2 4 4) 1%R) = Err ConvInChannels
  /\ Up_forward false (zero_Up 4 2 true true true) (const_tensor (mkShape 1 2 2 2) 1%R)
       (const_tensor (mkShape 1 2 4 0) 1%R) = Err ConvKernelTooLarge.
Proof.
  split; [|split; [|split; [|split]]].
  - apply (Up_bilinear_errors false 4 2 true true _ _ _ (zero_Up_init 4 2 true true true)
             ltac:(lia)); simpl; lia.
  - apply (Up_bilinear_errors false 4 2 true true _ _ _ (zero_Up_init 4 2 true true true)
             ltac:(lia)); simpl; lia.
  - apply (Up_bilinear_errors false 4 2 true true _ _ _ (zero_Up_init 4 2 true true true)
             ltac:(lia)); simpl; lia.
  - apply (Up_bilinear_errors false 4 2 true true _ _ _ (zero_Up_init 4 2 true true true)
             ltac:(lia)); simpl; lia.
  - apply (Up_bilinear_errors false 4 2 true true _ _ _ (zero_Up_init 4 2 true true true)
             ltac:(lia)); simpl; lia.
Defined.

(** [CALayer] keeps the shape of every input of its channel count, empty
    ones included: the pooled tensor is 1x1 whatever the input's size. *)
Lemma CALayer_shape_any tr channel m N H W :
  CALayer_init channel m -> 8 <= channel ->
  CALayer_shape tr m (mkShape N channel H W) = Ok (mkShape N channel H W).
Proof.
  intros (l1 & l3 & Hm & H1 & H3) Hc; pose proof (div8_pos _ Hc).
  unfold CALayer_shape, adaptive_avg_pool1_shape; cbn [sN sC sH sW].
  cbn [bind]; rewrite Hm; cbn [sequential_shape].
  rewrite (conv1_decl_ok _ _ _ _ _ _ _ H1) by (assumption || lia); cbn [bind layer_shape].
  rewrite (conv1_decl_ok _ _ _ _ _ _ _ H3) by (assumption || lia); cbn [bind layer_shape].
  unfold mul_shape; cbn [sN sC sH sW]; rewrite !bdim_refl, !bdim_1_r; reflexivity.
Qed.

(** How [PALayer(channel)] and [CALayer(channel)] ([channel >= 8]) fail:
    [PALayer] on an input of another channel count fails in its first 1x1
    convolution ([ConvInChannels]), and on an input of [channel] channels
    but zero height or width fails there too ([ConvKernelTooLarge]).
    [CALayer] averages first, which never fails, so an input of another
    channel count (none included) fails in its first convolution
    ([ConvInChannels]), and every input of [channel] channels gets through,
    with its own shape, even one of zero height or width. *)
Theorem attention_layers_errors tr channel x :
  8 <= channel ->
  (forall m, PALayer_init channel m ->
     (sC (tshape x) <> channel -> PALayer_forward tr m x = Err ConvInChannels)
     /\ (sC (tshape x) = channel -> (sH (tshape x) = 0 \/ sW (tshape x) = 0) ->
         PALayer_forward tr m x = Err ConvKernelTooLarge))
  /\ (forall m, CALayer_init channel m ->
     (sC (tshape x) <> channel -> CALayer_forward tr m x = Err ConvInChannels)
     /\ (sC (tshape x) = channel ->
         exists y, CALayer_forward tr m x = Ok y /\ tshape y = tshape x)).
Proof.
  intros H8; assert (Hc8 : 1 <= channel / 8) by (apply (Nat.Div0.div_le_mono 8 channel 8) in H8; auto).
  split.
  - intros m (l1 & l3 & Hm & H1 & _); split.
    + intros Hx; unfold PALayer_forward; rewrite Hm.
      rewrite (first_conv_channels _ _ _ _ _ _ _ _ H1 Hc8 Hx); reflexivity.
    + intros Hx Hz; unfold PALayer_forward; rewrite Hm.
      rewrite (first_conv_kernel _ _ _ _ _ _ _ _ H1 Hc8 Hx) by lia; reflexivity.
  - intros m Hm; split.
    + destruct Hm as (l1 & l3 & Hm & H1 & _).
      intros Hx; unfold CALayer_forward, adaptive_avg_pool1, lift, rmap,
        adaptive_avg_pool1_shape; cbv zeta.
      cbn [bind]; rewrite Hm.
      rewrite (first_conv_channels _ _ _ _ _ _ _ _ H1 Hc8) by (cbn [tshape sC]; exact Hx).
      reflexivity.
    + intros Hx; apply rshape_Ok; rewrite CALayer_rshape.
      destruct (tshape x) as [N C H W]; cbn [sC] in Hx; subst C.
      apply (CALayer_shape_any _ _ _ _ _ _ Hm H8).
Qed.

(** [PALayer(8)] and [CALayer(8)] on a 1x4x2x2 input, [CALayer(8)] on a
    1x0x2x2 input, and [CALayer(8)] on an input of width 0. *)
Lemma attention_layers_errors_witness :
  PALayer_forward false (zero_PALayer 8) (const_tensor (mkShape 1 4 2 2) 1%R) = Err ConvInChannels
  /\ CALayer_forward false (zero_CALayer 8) (const_tensor (mkShape 1 4 2 2) 1%R)
     = Err ConvInChannels
  /\ CALayer_forward false (zero_CALayer 8) (const_tensor (mkShape 1 0 2 2) 1%R)
     = Err ConvInChannels
  /\ (exists y, CALayer_forward false (zero_CALayer 8) (const_tensor (mkShape 1 8 2 0) 1%R)
                = Ok y /\ tshape y = mkShape 1 8 2 0).
Proof.
  destruct (attention_layers_errors false 8 (const_tensor (mkShape 1 4 2 2) 1%R) ltac:(lia))
    as [Hp Hc].
  destruct (attention_layers_errors false 8 (const_tensor (mkShape 1 0 2 2) 1%R) ltac:(lia))
    as [_ Hc0].
  destruct (attention_layers_errors false 8 (const_tensor (mkShape 1 8 2 0) 1%R) ltac:(lia))
    as [_ Hc'].
  split; [|split; [|split]].
  - apply (Hp _ (zero_PALayer_init 8)); simpl; lia.
  - apply (Hc _ (zero_CALayer_init 8)); simpl; lia.
  - apply (Hc0 _ (zero_CALayer_init 8)); simpl; lia.
  - apply (Hc' _ (zero_CALayer_init 8)); reflexivity.
Defined.

(** ** Bilinear upsampling with [align_corners=True] *)

Lemma source_index_0 H : 1 <= H -> source_index H (2 * H) 0 = (0, 0%R).
Proof.
  intros Hh; unfold source_index.
  replace (2 * H <=? 1) with false by (symmetry; apply Nat.leb_gt; lia).
  rewrite Nat.mul_0_l, Nat.Div0.div_0_l, Nat.Div0.mod_0_l; cbn [INR].
  f_equal; unfold Rdiv; apply Rmult_0_l.
Qed.

Lemma source_index_last H : 1 <= H -> source_index H (2 * H) (2 * H - 1) = (H - 1, 0%R).
Proof.
  intros Hh; unfold source_index.
  replace (2 * H <=? 1) with false by (symmetry; apply Nat.leb_gt; lia).
  rewrite (Nat.mul_comm (2 * H - 1) (H - 1)), Nat.div_mul, Nat.Div0.mod_mul by lia.
  cbn [INR]; f_equal; unfold Rdiv; apply Rmult_0_l.
Qed.

Lemma source_index_bounds H i :
  1 <= H -> i < 2 * H ->
  fst (source_index H (2 * H) i) < H
  /\ (0 <= snd (source_index H (2 * H) i) <= 1)%R.
Proof.
  intros Hh Hi; unfold source_index.
  replace (2 * H <=? 1) with false by (symmetry; apply Nat.leb_gt; lia).
  cbn [fst snd]; split.
  - apply Nat.Div0.div_lt_upper_bound; nia.
  - assert (Hr : (i * (H - 1)) mod (2 * H - 1) < 2 * H - 1) by (apply Nat.mod_upper_bound; lia).
    apply lt_INR in Hr; pose proof (pos_INR ((i * (H - 1)) mod (2 * H - 1))).
    assert (Hd : (0 < INR (2 * H - 1))%R) by (apply lt_0_INR; lia).
    unfold Rdiv; split.
    + apply Rmult_le_pos; [lra | left; apply Rinv_0_lt_compat; lra].
    + rewrite <- (Rinv_r (INR (2 * H - 1))) by lra.
      apply Rmult_le_compat_r; [left; apply Rinv_0_lt_compat|]; lra.
Qed.

Lemma lerp_bounds lo hi t a b :
  (0 <= t <= 1)%R -> (lo <= a <= hi)%R -> (lo <= b <= hi)%R ->
  (lo <= (1 - t) * a + t * b <= hi)%R.
Proof. intros; split; nra. Qed.

Lemma neighbour_lt i0 H : i0 < H -> (if i0 <? H - 1 then i0 + 1 else i0) < H.
Proof. intros; destruct (i0 <? H - 1) eqn:E; [apply Nat.ltb_lt in E|]; lia. Qed.

(** The upsampling of [Up] ([nn.Upsample(scale_factor=2, mode='bilinear',
    align_corners=True)]): when it succeeds on [x] (N, C, H, W) it returns
    (N, C, 2H, 2W); the corner values of every channel are kept (the
    first at (0, 0), the last at (2H-1, 2W-1)); and it never leaves the
    range of the input: if every value of channel [c] of sample [n] lies
    in [lo, hi], so does every value of the upsampled channel. *)
Theorem bilinear_upsample_corners_and_range x u n c lo hi :
  upsampler_forward UpBilinear x = Ok u ->
  tshape u = mkShape (sN (tshape x)) (sC (tshape x)) (2 * sH (tshape x)) (2 * sW (tshape x))
  /\ tval u n c 0 0 = tval x n c 0 0
  /\ tval u n c (2 * sH (tshape x) - 1) (2 * sW (tshape x) - 1)
     = tval x n c (sH (tshape x) - 1) (sW (tshape x) - 1)
  /\ ((forall i j, i < sH (tshape x) -> j < sW (tshape x) -> (lo <= tval x n c i j <= hi)%R) ->
      forall i j, i < sH (tshape u) -> j < sW (tshape u) -> (lo <= tval u n c i j <= hi)%R).
Proof.
  cbn [upsampler_forward]; intros E; apply lift_Ok in E as [Es Ev].
  unfold upsample2_shape in Es.
  destruct ((sH (tshape x) =? 0) || (sW (tshape x) =? 0)) eqn:Ez; [discriminate|].
  apply Bool.orb_false_iff in Ez as [Eh Ew]; apply Nat.eqb_neq in Eh, Ew.
  destruct (sC (tshape x) =? 0); [discriminate|].
  injection Es as Hu.
  assert (Hh : 1 <= sH (tshape x)) by lia; assert (Hw : 1 <= sW (tshape x)) by lia.
  split; [symmetry; exact Hu|]; rewrite Ev; unfold upsample2_val; cbv zeta.
  split; [|split].
  - rewrite (source_index_0 _ Hh), (source_index_0 _ Hw); ring.
  - rewrite (source_index_last _ Hh), (source_index_last _ Hw).
    rewrite !Nat.ltb_irrefl; ring.
  - intros Hx i j Hi Hj; rewrite <- Hu in Hi, Hj; cbn [sH sW] in Hi, Hj.
    destruct (source_index_bounds _ _ Hh Hi) as [Hi0 Hli].
    destruct (source_index_bounds _ _ Hw Hj) as [Hj0 Hlj].
    destruct (source_index (sH (tshape x)) (2 * sH (tshape x)) i) as [i0 li].
    destruct (source_index (sW (tshape x)) (2 * sW (tshape x)) j) as [j0 lj].
    cbn [fst snd] in *.
    pose proof (neighbour_lt _ _ Hi0); pose proof (neighbour_lt _ _ Hj0).
    apply lerp_bounds; [exact Hli | apply lerp_bounds; auto | apply lerp_bounds; auto].
Qed.

(** A 1x1x2x2 input with values 1 and 3 in its corners, upsampled. *)
Lemma bilinear_upsample_corners_and_range_witness :
  exists u,
    upsampler_forward UpBilinear
      (mkTensor (mkShape 1 1 2 2) (fun _ _ i j => if (i =? 0) && (j =? 0) then 1%R else 3%R))
    = Ok u
    /\ tval u 0 0 0 0 = 1%R /\ tval u 0 0 3 3 = 3%R /\ (1 <= tval u 0 0 1 2 <= 3)%R.
Proof.
  set (x := mkTensor (mkShape 1 1 2 2)
              (fun _ _ i j => if (i =? 0) && (j =? 0) then 1%R else 3%R)).
  assert (E : rshape (upsampler_forward UpBilinear x) = Ok (mkShape 1 1 4 4))
    by (rewrite upsampler_rshape; vm_compute; reflexivity).
  destruct (rshape_Ok _ _ E) as (u & Eu & _); exists u; split; [exact Eu|].
  destruct (bilinear_upsample_corners_and_range x u 0 0 1 3 Eu) as (Hs & H0 & Hl & Hr).
  split; [|split].
  - rewrite H0; reflexivity.
  - exact Hl.
  - apply Hr; [|rewrite Hs; simpl; lia | rewrite Hs; simpl; lia].
    intros i j _ _; cbn [x tval].
    destruct ((i =? 0) && (j =? 0)); lra.
Defined.

(** ** Without batch norm the training flag has no effect *)

Lemma layers_train_eval ls x :
  Forall (no_batch_stats true) ls ->
  sequential (layer_forward true) ls x = sequential (layer_forward false) ls x.
Proof.
  revert x; induction ls as [|l ls IH]; intros x Hls; [reflexivity|].
  inversion Hls as [|? ? [Hf | Hb] Hrest]; subst; [discriminate|].
  cbn [sequential].
  replace (layer_forward true l x) with (layer_forward false l x)
    by (destruct l; try reflexivity; exfalso; eapply Hb; reflexivity).
  destruct (layer_forward false l x); cbn [bind]; [apply IH; exact Hrest | reflexivity].
Qed.

Lemma DoubleConv_train_eval cin cout leaky m x :
  DoubleConv_init cin cout false leaky m ->
  DoubleConv_forward true m x = DoubleConv_forward false m x.
Proof.
  intros (l1 & n1 & l4 & n2 & Hm & H1 & Hn1 & H4 & Hn2).
  assert (Hb : true = false \/ false = false) by (right; reflexivity).
  unfold DoubleConv_forward; rewrite Hm; apply layers_train_eval; nbs_tac.
Qed.

Lemma OutConv_train_eval cin cout act m x :
  OutConv_init cin cout act m -> OutConv_forward true m x = OutConv_forward false m x.
Proof.
  intros (l1 & Hm & H1); unfold OutConv_forward; rewrite Hm; apply layers_train_eval.
  destruct act; nbs_tac.
Qed.

Lemma Down_train_eval cin cout leaky m x :
  Down_init cin cout false leaky m -> Down_forward true m x = Down_forward false m x.
Proof.
  intros Hm; unfold Down_forward; destruct (max_pool2 x); cbn [bind]; [|reflexivity].
  eapply DoubleConv_train_eval; eassumption.
Qed.

Lemma Up_train_eval cin cout bilinear leaky m x1 x2 :
  Up_init cin cout bilinear false leaky m -> Up_forward true m x1 x2 = Up_forward false m x1 x2.
Proof.
  intros [_ Hm]; unfold Up_forward; destruct (upsampler_forward (up_up m) x1); cbn [bind];
    [|reflexivity].
  destruct (pad _ _ _ _ _); cbn [bind]; [|reflexivity].
  destruct (cat1 x2 _); cbn [bind]; [|reflexivity].
  eapply DoubleConv_train_eval; eassumption.
Qed.

Lemma attention_train_eval C ms x :
  attention_init C ms ->
  sequential (attention_forward true) ms x = sequential (attention_forward false) ms x.
Proof.
  intros (c & p & -> & (l1 & l3 & Hc & Hc1 & Hc3) & (k1 & k3 & Hp & Hp1 & Hp3)).
  assert (Hb : true = false \/ false = false) by (right; reflexivity).
  cbn [sequential attention_forward]; unfold CALayer_forward, PALayer_forward.
  destruct (adaptive_avg_pool1 x); cbn [bind]; [|reflexivity].
  rewrite Hc, (layers_train_eval [l1; LReLU; l3; LSigmoid]) by nbs_tac.
  destruct (sequential (layer_forward false) _ _); cbn [bind]; [|reflexivity].
  destruct (mul x _); cbn [bind]; [|reflexivity].
  rewrite Hp, (layers_train_eval [k1; LReLU; k3; LSigmoid]) by nbs_tac.
  reflexivity.
Qed.

(** Built with [norm=False], [BaseNet] (so [IAN] and [ANSN]) and
    [FuseNet] hold no [BatchNorm2d]: the training flag set by [.train()]
    and [.eval()] changes nothing, the forward pass computes the same
    result (the same tensor or the same error) in both modes. *)
Theorem nets_without_norm_ignore_training cin cout x :
  (forall act net, BaseNet_body_init cin false net -> OutConv_init 32 cout act (outc net) ->
     BaseNet_forward true net x = BaseNet_forward false net x)
  /\ (forall net, FuseNet_init cin cout false net ->
     FuseNet_forward true net x = FuseNet_forward false net x).
Proof.
  split.
  - intros act net (Hinc & Hd1 & Hd2 & Hd3 & Hu1 & Hu2 & Hu3) Hout; unfold BaseNet_forward.
    rewrite (DoubleConv_train_eval _ _ _ _ _ Hinc).
    destruct (DoubleConv_forward false (inc net) x) as [x1|]; cbn [bind]; [|reflexivity].
    rewrite (Down_train_eval _ _ _ _ _ Hd1).
    destruct (Down_forward false (down1 net) x1) as [x2|]; cbn [bind]; [|reflexivity].
    rewrite (Down_train_eval _ _ _ _ _ Hd2).
    destruct (Down_forward false (down2 net) x2) as [x3|]; cbn [bind]; [|reflexivity].
    rewrite (Down_train_eval _ _ _ _ _ Hd3).
    destruct (Down_forward false (down3 net) x3) as [x4|]; cbn [bind]; [|reflexivity].
    rewrite (Up_train_eval _ _ _ _ _ _ _ Hu1).
    destruct (Up_forward false (up1 net) x4 x3) as [y1|]; cbn [bind]; [|reflexivity].
    rewrite (Up_train_eval _ _ _ _ _ _ _ Hu2).
    destruct (Up_forward false (up2 net) y1 x2) as [y2|]; cbn [bind]; [|reflexivity].
    rewrite (Up_train_eval _ _ _ _ _ _ _ Hu3).
    destruct (Up_forward false (up3 net) y2 x1) as [y3|]; cbn [bind]; [|reflexivity].
    eapply OutConv_train_eval; eassumption.
  - intros net ([Hinc Ainc] & [Hd1 Ad1] & [Hd2 Ad2] & [Hu1 Au1] & [Hu2 Au2] & Hout).
    unfold FuseNet_forward, AttentiveDoubleConv_forward, AttentiveDown_forward,
      AttentiveUp_forward.
    rewrite (DoubleConv_train_eval _ _ _ _ _ Hinc).
    destruct (DoubleConv_forward false _ x) as [z|]; cbn [bind]; [|reflexivity].
    rewrite (attention_train_eval _ _ _ Ainc).
    destruct (sequential (attention_forward false) _ z) as [x1|]; cbn [bind]; [|reflexivity].
    rewrite (Down_train_eval _ _ _ _ _ Hd1).
    destruct (Down_forward false _ x1) as [z1|]; cbn [bind]; [|reflexivity].
    rewrite (attention_train_eval _ _ _ Ad1).
    destruct (sequential (attention_forward false) _ z1) as [x2|]; cbn [bind]; [|reflexivity].
    rewrite (Down_train_eval _ _ _ _ _ Hd2).
    destruct (Down_forward false _ x2) as [z2|]; cbn [bind]; [|reflexivity].
    rewrite (attention_train_eval _ _ _ Ad2).
    destruct (sequential (attention_forward false) _ z2) as [x3|]; cbn [bind]; [|reflexivity].
    rewrite (Up_train_eval _ _ _ _ _ _ _ Hu1).
    destruct (Up_forward false _ x3 x2) as [z3|]; cbn [bind]; [|reflexivity].
    rewrite (attention_train_eval _ _ _ Au1).
    destruct (sequential (attention_forward false) _ z3) as [y1|]; cbn [bind]; [|reflexivity].
    rewrite (Up_train_eval _ _ _ _ _ _ _ Hu2).
    destruct (Up_forward false _ y1 x1) as [z4|]; cbn [bind]; [|reflexivity].
    rewrite (attention_train_eval _ _ _ Au2).
    destruct (sequential (attention_forward false) _ z4) as [y2|]; cbn [bind]; [|reflexivity].
    eapply OutConv_train_eval; eassumption.
Qed.

(** An [IAN(1, 1, norm=False)] and a [FuseNet(1, 1, norm=False)] on a
    1x1x1x1 input: training and evaluation mode agree. *)
Lemma nets_without_norm_ignore_training_witness :
  BaseNet_forward true (zero_BaseNet 1 1 false true) (const_tensor (mkShape 1 1 1 1) 1%R)
  = BaseNet_forward false (zero_BaseNet 1 1 false true) (const_tensor (mkShape 1 1 1 1) 1%R)
  /\ FuseNet_forward true (zero_FuseNet 1 1 false) (const_tensor (mkShape 1 1 1 1) 1%R)
     = FuseNet_forward false (zero_FuseNet 1 1 false) (const_tensor (mkShape 1 1 1 1) 1%R).
Proof.
  destruct (nets_without_norm_ignore_training 1 1 (const_tensor (mkShape 1 1 1 1) 1%R))
    as [Hb Hf].
  split.
  - apply (Hb true); [apply zero_BaseNet_body_init | apply zero_OutConv_init].
  - apply Hf, zero_FuseNet_init.
Defined.

(** ** Batch norm in training mode at the bottleneck *)

Lemma DoubleConv_shape_single cin cout leaky m :
  DoubleConv_init cin cout true leaky m -> 1 <= cout ->
  DoubleConv_shape true m (mkShape 1 cin 1 1) = Err BatchNormSingleValue.
Proof.
  intros (l1 & n1 & l4 & n2 & Hl & H1 & Hn1 & _) Hc.
  unfold DoubleConv_shape; rewrite Hl; cbn [sequential_shape].
  rewrite (conv3_decl_ok _ _ _ _ _ _ _ H1) by lia; cbn [bind].
  destruct Hn1 as (b & -> & Hb); reflexivity.
Qed.

Lemma Down_shape_single cin cout leaky m H W :
  Down_init cin cout true leaky m -> 1 <= cin -> 1 <= cout -> 2 <= H < 4 -> 2 <= W < 4 ->
  Down_shape true m (mkShape 1 cin H W) = Err BatchNormSingleValue.
Proof.
  intros Hm Hi Hc Hh Hw; unfold Down_shape.
  rewrite max_pool2_shape_ok by lia; cbn [bind].
  replace (H / 2) with 1 by (div2_facts; lia).
  replace (W / 2) with 1 by (div2_facts; lia).
  apply (DoubleConv_shape_single _ _ _ _ Hm Hc).
Qed.

Lemma AttentiveDown_shape_single cin cout leaky m H W :
  AttentiveDown_init cin cout true leaky m -> 1 <= cin -> 1 <= cout -> 2 <= H < 4 -> 2 <= W < 4 ->
  AttentiveDown_shape true m (mkShape 1 cin H W) = Err BatchNormSingleValue.
Proof.
  intros [Hd _] Hi Hc Hh Hw; unfold AttentiveDown_shape.
  rewrite (Down_shape_single _ _ _ _ _ _ Hd Hi Hc Hh Hw); reflexivity.
Qed.

Lemma bn_ok_single N H W : N * H * W <> 1 -> bn_ok true true N H W.
Proof. intros; right; right; assumption. Qed.

(** Built with [norm=True] (the default of [BaseNet] and so of [IAN] and
    [ANSN]), a network in training mode on an input of the right channel
    count and large enough ([H, W >= 8]; [>= 4] for [FuseNet]) fails with
    [BatchNormSingleValue] exactly when the batch norm of its deepest block
    sees one value per channel: one sample with [H, W < 16] ([< 8] for
    [FuseNet]), so that the feature map there is 1x1; otherwise it
    succeeds. *)
Theorem nets_training_single_sample cin cout x :
  1 <= cout -> sC (tshape x) = cin ->
  (forall act net, BaseNet_body_init cin true net -> OutConv_init 32 cout act (outc net) ->
     8 <= sH (tshape x) -> 8 <= sW (tshape x) ->
     (sN (tshape x) = 1 -> sH (tshape x) < 16 -> sW (tshape x) < 16 ->
      BaseNet_forward true net x = Err BatchNormSingleValue)
     /\ (~ (sN (tshape x) = 1 /\ sH (tshape x) < 16 /\ sW (tshape x) < 16) ->
         exists y, BaseNet_forward true net x = Ok y))
  /\ (forall net, FuseNet_init cin cout true net ->
     4 <= sH (tshape x) -> 4 <= sW (tshape x) ->
     (sN (tshape x) = 1 -> sH (tshape x) < 8 -> sW (tshape x) < 8 ->
      FuseNet_forward true net x = Err BatchNormSingleValue)
     /\ (~ (sN (tshape x) = 1 /\ sH (tshape x) < 8 /\ sW (tshape x) < 8) ->
         exists y, FuseNet_forward true net x = Ok y)).
Proof.
  intros Hc Hx; destruct (tshape x) as [N C H W] eqn:S; cbn [sN sC sH sW] in *; subst C.
  split.
  - intros act net Hb Ho Hh Hw; split.
    + intros -> Hh' Hw'; apply rshape_Err; rewrite BaseNet_rshape, S.
      destruct Hb as (Hi & Hd1 & Hd2 & Hd3 & _).
      unfold BaseNet_shape.
      rewrite (DoubleConv_shape_ok _ _ _ _ _ _ _ _ _ Hi)
        by first [lia | apply bn_ok_single; nia]; cbn [bind].
      rewrite (Down_shape_ok _ _ _ _ _ _ _ _ _ Hd1)
        by first [lia | apply bn_ok_single; div2_facts; nia]; cbn [bind].
      rewrite (Down_shape_ok _ _ _ _ _ _ _ _ _ Hd2)
        by first [lia | div2_facts; lia | apply bn_ok_single; div2_facts; nia]; cbn [bind].
      rewrite (Down_shape_single _ _ _ _ _ _ Hd3) by (div2_facts; lia); reflexivity.
    + intros Hn.
      assert (E : rshape (BaseNet_forward true net x) = Ok (mkShape N cout H W)).
      { rewrite BaseNet_rshape, S.
        apply (BaseNet_shape_ok _ _ _ _ _ _ _ _ _ Hb Ho); [lia | lia | lia |].
        apply bn_ok_single; intros Hp; apply Hn.
        apply Nat.eq_mul_1 in Hp as [Hp Hw1]; apply Nat.eq_mul_1 in Hp as [Hn1 Hh1].
        div2_facts; lia. }
      destruct (rshape_Ok _ _ E) as (y & Ey & _); exists y; exact Ey.
  - intros net Hf Hh Hw; split.
    + intros -> Hh' Hw'; apply rshape_Err; rewrite FuseNet_rshape, S.
      destruct Hf as (Hi & Hd1 & Hd2 & _).
      unfold FuseNet_shape.
      rewrite (AttentiveDoubleConv_shape_ok _ _ _ _ _ _ _ _ _ Hi)
        by first [lia | apply bn_ok_single; nia]; cbn [bind].
      rewrite (AttentiveDown_shape_ok _ _ _ _ _ _ _ _ _ Hd1)
        by first [lia | apply bn_ok_single; div2_facts; nia]; cbn [bind].
      rewrite (AttentiveDown_shape_single _ _ _ _ _ _ Hd2) by (div2_facts; lia); reflexivity.
    + intros Hn.
      assert (E : rshape (FuseNet_forward true net x) = Ok (mkShape N cout H W)).
      { rewrite FuseNet_rshape, S.
        apply (FuseNet_shape_ok _ _ _ _ _ _ _ _ Hf); [lia | lia | lia |].
        apply bn_ok_single; intros Hp; apply Hn.
        apply Nat.eq_mul_1 in Hp as [Hp Hw1]; apply Nat.eq_mul_1 in Hp as [Hn1 Hh1].
        div2_facts; lia. }
      destruct (rshape_Ok _ _ E) as (y & Ey & _); exists y; exact Ey.
Qed.

(** An [IAN(1, 1)] in training mode: one 8x8 sample fails, two succeed;
    a [FuseNet(1, 1, norm=True)] on one 4x4 sample fails. *)
Lemma nets_training_single_sample_witness :
  BaseNet_forward true (zero_BaseNet 1 1 true true) (const_tensor (mkShape 1 1 8 8) 1%R)
  = Err BatchNormSingleValue
  /\ (exists y, BaseNet_forward true (zero_BaseNet 1 1 true true)
                  (const_tensor (mkShape 2 1 8 8) 1%R) = Ok y)
  /\ FuseNet_forward true (zero_FuseNet 1 1 true) (const_tensor (mkShape 1 1 4 4) 1%R)
     = Err BatchNormSingleValue.
Proof.
  split; [|split].
  - destruct (nets_training_single_sample 1 1 (const_tensor (mkShape 1 1 8 8) 1%R)
                ltac:(lia) eq_refl) as [Hb _].
    apply (Hb true); [apply zero_BaseNet_body_init | apply zero_OutConv_init | simpl; lia
                     | simpl; lia | reflexivity | simpl; lia | simpl; lia].
  - destruct (nets_training_single_sample 1 1 (const_tensor (mkShape 2 1 8 8) 1%R)
                ltac:(lia) eq_refl) as [Hb _].
    apply (Hb true); [apply zero_BaseNet_body_init | apply zero_OutConv_init | simpl; lia
                     | simpl; lia |].
    simpl; lia.
  - destruct (nets_training_single_sample 1 1 (const_tensor (mkShape 1 1 4 4) 1%R)
                ltac:(lia) eq_refl) as [_ Hf].
    apply Hf; [apply zero_FuseNet_init | simpl; lia | simpl; lia | reflexivity
              | simpl; lia | simpl; lia].
Defined.
